(** * The entity core of the game server: registry, entity manager,
      lifecycle, freeze and restore

    A shallow embedding of package [entity] (type registry, [EntityManager],
    [createEntity], [loadEntityLocally], [Freeze], [RestoreFreezedEntities])
    and the properties of it that the specification states.

    Conventions of the embedding.
    - Go maps are [gmap]s and Go sets ([StringSet], [EntityIDSet], which are
      maps to the empty struct) are [gset]s.  Go leaves the order of [range]
      over a map unspecified, so every function that ranges over a map takes
      the sequence of entries that the run visits as an explicit argument;
      theorems quantify over all such sequences.
    - A function that mutates the package state or calls out of the package
      is a computation in the monad [M]: it reads and writes the [World],
      appends to a log of the external calls it made, and either returns or
      panics.  The world after a panic is the world at the point of the panic.
    - Entities are heap objects reached through the entity table; an entity
      reference is its key in the table. *)

From Stdlib Require Import ZArith Ascii String List Lia.
From stdpp Require Import base option list gmap sets strings.

Local Open Scope string_scope.
Local Open Scope Z_scope.
Local Open Scope list_scope.

(** ** Basic data *)

Abbreviation EntityID := string (only parsing).
Abbreviation ClientID := string (only parsing).

#[global] Instance byte_eq_dec : EqDecision Byte.byte := Byte.byte_eq_dec.

(** [EntityID.IsNil]: the empty id. *)
Definition EntityID_IsNil (eid : EntityID) : bool := bool_decide (eid = "").

(** A value of type [interface{}] stored in an attribute map. *)
Inductive AttrVal :=
| AInt (z : Z)
| AStr (s : string)
| ABool (b : bool)
| AOther.

#[global] Instance AttrVal_eq_dec : EqDecision AttrVal.
Proof. solve_decision. Defined.

(** [Position]: three coordinates.  Positions are only handed on by this
    package, never computed with. *)
Record Position := mkPosition { PosX : Z; PosY : Z; PosZ : Z }.

#[global] Instance Position_eq_dec : EqDecision Position.
Proof. solve_decision. Defined.

Definition Position_zero : Position := mkPosition 0 0 0.

Record GameClient := mkGameClient { clientid : ClientID; gateid : Z }.

#[global] Instance GameClient_eq_dec : EqDecision GameClient.
Proof. solve_decision. Defined.

Definition MakeGameClient (cid : ClientID) (gid : Z) : GameClient :=
  mkGameClient cid gid.

(** A [*Space] argument, as far as this package looks at it. *)
Record Space := mkSpace { SpaceID : EntityID; SpaceDestroyed : bool }.

#[global] Instance Space_eq_dec : EqDecision Space.
Proof. solve_decision. Defined.

Definition Space_IsDestroyed (s : Space) : bool := SpaceDestroyed s.

(** The part of [Entity] that this package reads and writes. *)
Record Entity := mkEntity {
  ID : EntityID;
  TypeName : string;
  client : option GameClient;
  InNilSpace : bool
}.

#[global] Instance Entity_eq_dec : EqDecision Entity.
Proof. solve_decision. Defined.

Definition Entity_setClient (c : option GameClient) (e : Entity) : Entity :=
  mkEntity (ID e) (TypeName e) c (InNilSpace e).

(** ** Create causes *)

(** [createCause] is an [int]; the three constants are [1 + iota]. *)
Definition ccCreate : Z := 1.
Definition ccMigrate : Z := 2.
Definition ccRestore : Z := 3.

(** ** Panics *)

(** An [error] value: made by [errors.Errorf] (or by the run time), or
    another error wrapped with a message by [errors.Wrap].  The value a panic
    carries is either a value that implements [error] (run-time errors do) or
    any other value (a string, a log entry). *)
Inductive error :=
| errors_Errorf (msg : string)
| errors_Wrap (cause : error) (msg : string).

#[global] Instance error_eq_dec : EqDecision error.
Proof. solve_decision. Defined.

Inductive PanicValue :=
| PanicError (e : error)
| PanicOther (msg : string).

#[global] Instance PanicValue_eq_dec : EqDecision PanicValue.
Proof. solve_decision. Defined.

Inductive Outcome (A : Type) :=
| Returns (a : A)
| Panics (v : PanicValue).
Arguments Returns {A} a.
Arguments Panics {A} v.

#[global] Instance Outcome_eq_dec {A} `{EqDecision A} : EqDecision (Outcome A).
Proof. solve_decision. Defined.

Definition returned {A} (o : Outcome A) : bool :=
  match o with Returns _ => true | Panics _ => false end.

(** ** Snapshot data *)

Record clientData := mkClientData { ClientID_ : ClientID; GateID_ : Z }.

#[global] Instance clientData_eq_dec : EqDecision clientData.
Proof. solve_decision. Defined.

Record enteringSpaceRequest := mkESR { ESR_SpaceID : EntityID; ESR_EnterPos : Position }.

#[global] Instance ESR_eq_dec : EqDecision enteringSpaceRequest.
Proof. solve_decision. Defined.

Record entityFreezeData := mkEntityFreezeData {
  Type_ : string;
  Attrs : option (gmap string AttrVal);
  Pos : Position;
  Client : option clientData;
  SpaceID_ : EntityID;
  TimerData : option (list Byte.byte);
  ESR : option enteringSpaceRequest
}.

#[global] Instance entityFreezeData_eq_dec : EqDecision entityFreezeData.
Proof. solve_decision. Defined.

Record FreezeData := mkFreezeData {
  Entities : gmap EntityID entityFreezeData;
  Services : gmap string (list EntityID)
}.

(** ** External calls *)

(** Calls that leave the package: the dispatcher send surface, storage, the
    task queue, methods of [Entity] and [Space] defined elsewhere, and the
    hooks of the user's entity type ([entity.I]).  [EvCreateEntity] is the
    record of a call of [createEntity] itself with its type name, entity id
    argument and cause. *)
Inductive Event :=
| EvCreateEntity (typeName : string) (eid : EntityID) (cause : Z)
| EvLoadPersistentData (eid : EntityID) (data : gmap string AttrVal)
| EvLoadMigrateData (eid : EntityID) (data : gmap string AttrVal)
| EvSave (eid : EntityID)
| EvRestoreTimers (eid : EntityID) (timerData : list Byte.byte)
| EvSetupSaveTimer (eid : EntityID)
| EvSendNotifyCreateEntity (eid : EntityID)
| EvSendNotifyDestroyEntity (eid : EntityID)
| EvSendLoadEntityAnywhere (typeName : string) (eid : EntityID)
| EvSendCreateEntityAnywhere (typeName : string) (data : option (gmap string AttrVal))
| EvSendCallEntityMethod (eid : EntityID) (method : string)
| EvSetClient (eid : EntityID) (c : GameClient)
| EvOnCreated (eid : EntityID)
| EvOnMigrateIn (eid : EntityID)
| EvOnRestored (eid : EntityID)
| EvSpaceEnter (space : EntityID) (eid : EntityID) (pos : Position) (isRestore : bool)
| EvNotifyClientDisconnected (eid : EntityID)
| EvStorageLoad (typeName : string) (eid : EntityID)
| EvPostEnterSpace (eid : EntityID) (space : EntityID) (pos : Position)
| EvOnCallFromRemote (eid : EntityID) (method : string) (clientID : ClientID)
| EvSyncPositionYawFromClient (eid : EntityID) (pos : Position) (yaw : Z)
| EvDestroy (eid : EntityID)
| EvLog (msg : string).

#[global] Instance Event_eq_dec : EqDecision Event.
Proof. solve_decision. Defined.

(** ** The type registry *)

Abbreviation StringSet := (gset string) (only parsing).
Abbreviation EntityIDSet := (gset string) (only parsing).
Abbreviation RpcDescMap := (gset string) (only parsing).

Record EntityTypeDesc := mkEntityTypeDesc {
  entityType : string;
  rpcDescs : RpcDescMap;
  allClientAttrs : StringSet;
  clientAttrs : StringSet;
  persistentAttrs : StringSet
}.

(** The prototype handed to [RegisterEntity]: the name of its type and the
    names of the methods of the pointer type. *)
Record IEntity := mkIEntity { protoType : string; protoMethods : list string }.

(** [strings.ToLower] on ASCII letters. *)
Definition lower_ascii (c : ascii) : ascii :=
  let n := N_of_ascii c in
  if ((65 <=? n) && (n <=? 90))%N then ascii_of_N (n + 32) else c.

Fixpoint ToLower (s : string) : string :=
  match s with
  | EmptyString => EmptyString
  | String c r => String (lower_ascii c) (ToLower r)
  end.

(** [_VALID_ATTR_DEFS] after [init]. *)
Definition _VALID_ATTR_DEFS : StringSet :=
  {[ ToLower "Client" ]} ∪ {[ ToLower "AllClients" ]} ∪ {[ ToLower "Persistent" ]}.

(** ** The entity manager and the world *)

Record EntityManager := mkEntityManager {
  entities : gmap EntityID Entity;
  ownerOfClient : gmap ClientID EntityID;
  registeredServices : gmap string EntityIDSet
}.

Definition newEntityManager : EntityManager :=
  mkEntityManager ∅ ∅ ∅.

(** The package state: the two package variables and the counter behind
    [GenEntityID]. *)
Record World := mkWorld {
  registeredEntityTypes : gmap string EntityTypeDesc;
  entityManager : EntityManager;
  nextEntityID : nat
}.

Definition initialWorld : World := mkWorld ∅ newEntityManager 0.

Definition World_setManager (em : EntityManager) (w : World) : World :=
  mkWorld (registeredEntityTypes w) em (nextEntityID w).

Definition World_setTypes (t : gmap string EntityTypeDesc) (w : World) : World :=
  mkWorld t (entityManager w) (nextEntityID w).

(** ** Writes to the entity manager from outside this file *)

(** A write to the entity manager: one of its own methods, the assignment to
    the [client] field of an entity, or one of the two service calls.  The
    methods of [Entity] and the user code that a callee runs change the
    manager through these. *)
Inductive Mutation :=
| MutPut (entity : Entity)
| MutDel (entityID : EntityID)
| MutEntityGetClient (entityID : EntityID) (clientid : ClientID)
| MutEntityLoseClient (clientid : ClientID)
| MutSetClientField (entityID : EntityID) (c : option GameClient)
| MutDeclareService (serviceName : string) (eid : EntityID)
| MutUndeclareService (serviceName : string) (eid : EntityID).

(** ** What the package needs from the rest of the engine *)

(** Constants, accessors and library functions that the package uses and
    that are declared outside it.  [raises ev] is the outcome of the external
    call [ev]: [None] when it returns, [Some v] when it panics with [v].
    [reaction ev w] is what the user code that the callee [ev] runs does to
    the entity manager when the callee is entered in the world [w]: user
    code runs in the same routine and may call back into the package. *)
Class Collaborators := {
  SPACE_ENTITY_TYPE : string;
  SPACE_KIND_ATTR_KEY : string;
  GenEntityID_at : nat → EntityID;
  raises : Event → option PanicValue;
  reaction : Event → World → list Mutation;
  IsPersistent : Entity → bool;
  Space_IsNil : Entity → bool;
  GetFreezeData : Entity → entityFreezeData;
  spaceManager_getSpace : gmap EntityID Entity → EntityID → option Space;
  typeconv_Int : option AttrVal → Outcome Z;
  RpcDescMap_visit : RpcDescMap → string → RpcDescMap;
  EntityIDSet_ToList : EntityIDSet → list EntityID;
  gwlog_panic_value : string → PanicValue
}.

(** ** The monad of package operations *)

Definition M (A : Type) : Type := World → Outcome A * World * list Event.

Definition ret {A} (a : A) : M A := λ w, (Returns a, w, []).

Definition bind {A B} (m : M A) (k : A → M B) : M B :=
  λ w, match m w with
       | (Returns a, w1, t1) =>
           match k a w1 with
           | (r, w2, t2) => (r, w2, t1 ++ t2)
           end
       | (Panics v, w1, t1) => (Panics v, w1, t1)
       end.

#[global] Instance M_ret : MRet M := @ret.
#[global] Instance M_bind : MBind M := λ A B k m, bind m k.

Definition panic {A} (v : PanicValue) : M A := λ w, (Panics v, w, []).

Definition getWorld : M World := λ w, (Returns w, w, []).

Definition getManager : M EntityManager := λ w, (Returns (entityManager w), w, []).

Definition modifyManager (f : EntityManager → EntityManager) : M unit :=
  λ w, (Returns tt, World_setManager (f (entityManager w)) w, []).

(** A call that cannot fail (a buffered dispatcher send, a log line). *)
Definition emit (ev : Event) : M unit := λ w, (Returns tt, w, [ev]).

(** The three components of a run. *)
Definition outcomeOf {A} (x : Outcome A * World * list Event) : Outcome A := x.1.1.
Definition worldOf {A} (x : Outcome A * World * list Event) : World := x.1.2.
Definition traceOf {A} (x : Outcome A * World * list Event) : list Event := x.2.

(** A run that comes after the calls [t]. *)
Definition after {A} (t : list Event) (x : Outcome A * World * list Event)
    : Outcome A * World * list Event :=
  (x.1.1, x.1.2, t ++ x.2).

Section Core.
Context `{Collaborators}.

(** Modelled from the spec: [gwlog.Panicf] (defined in package gwlog) is
    fatal: it logs and panics.  What the source writes after a call of it is
    never run. *)
Definition gwlog_Panicf {A} (msg : string) : M A :=
  panic (gwlog_panic_value msg).

(** Modelled from the spec: [gwutils.RunPanicless] runs the callback so that
    an exception of user code is logged and swallowed, not propagated. *)
Definition RunPanicless (m : M unit) : M unit :=
  λ w, match m w with
       | (_, w1, t1) => (Returns tt, w1, t1)
       end.

(** ** [EntityTypeDesc.DefineAttrs] *)

(** The inner loop over the tags of one attribute; the state is
    [(isAllClient, isClient, isPersistent)]. *)
Fixpoint DefineAttrs_defs (attr : string) (defs : list string)
    (flags : bool * bool * bool) : Outcome (bool * bool * bool) :=
  match defs with
  | [] => Returns flags
  | def :: rest =>
      let def := ToLower def in
      if negb (bool_decide (def ∈ _VALID_ATTR_DEFS)) then
        Panics (gwlog_panic_value "attribute: invalid property")
      else
        let '(isAllClient, isClient, isPersistent) := flags in
        let flags :=
          if bool_decide (def = "allclients") then (true, true, isPersistent)
          else if bool_decide (def = "client") then (isAllClient, true, isPersistent)
          else if bool_decide (def = "persistent") then (isAllClient, isClient, true)
          else flags in
        DefineAttrs_defs attr rest flags
  end.

Definition DefineAttrs_add (attr : string) (flags : bool * bool * bool)
    (desc : EntityTypeDesc) : EntityTypeDesc :=
  let '(isAllClient, isClient, isPersistent) := flags in
  let desc :=
    if isAllClient
    then mkEntityTypeDesc (entityType desc) (rpcDescs desc)
           (allClientAttrs desc ∪ {[attr]}) (clientAttrs desc) (persistentAttrs desc)
    else desc in
  let desc :=
    if isClient
    then mkEntityTypeDesc (entityType desc) (rpcDescs desc)
           (allClientAttrs desc) (clientAttrs desc ∪ {[attr]}) (persistentAttrs desc)
    else desc in
  if isPersistent
  then mkEntityTypeDesc (entityType desc) (rpcDescs desc)
         (allClientAttrs desc) (clientAttrs desc) (persistentAttrs desc ∪ {[attr]})
  else desc.

(** [attrDefs] is the sequence in which the run ranges over the map
    argument.  The descriptor is returned as the call left it, also when the
    call panics half-way. *)
Fixpoint DefineAttrs (attrDefs : list (string * list string)) (desc : EntityTypeDesc)
    : Outcome unit * EntityTypeDesc :=
  match attrDefs with
  | [] => (Returns tt, desc)
  | (attr, defs) :: rest =>
      match DefineAttrs_defs attr defs (false, false, false) with
      | Panics v => (Panics v, desc)
      | Returns flags => DefineAttrs rest (DefineAttrs_add attr flags desc)
      end
  end.

(** ** [RegisterEntity] *)

Definition RegisterEntity (typeName : string) (entityPtr : IEntity) : M EntityTypeDesc :=
  w ← getWorld;
  (if bool_decide (is_Some (registeredEntityTypes w !! typeName))
   then gwlog_Panicf "RegisterEntity: Entity type already registered"
   else ret tt) ;;
  let entityType := protoType entityPtr in
  let rpcDescs := foldl RpcDescMap_visit ∅ (protoMethods entityPtr) in
  let entityTypeDesc := mkEntityTypeDesc entityType rpcDescs ∅ ∅ ∅ in
  (λ w, (Returns tt,
         World_setTypes (<[typeName := entityTypeDesc]> (registeredEntityTypes w)) w,
         [EvLog "RegisterEntity"])) ;;
  ret entityTypeDesc.

(** ** [EntityManager] *)

(** [EntityMap.Add] stores the entity under its own id. *)
Definition put (entity : Entity) (em : EntityManager) : EntityManager :=
  mkEntityManager (<[ID entity := entity]> (entities em))
    (ownerOfClient em) (registeredServices em).

Definition del (entityID : EntityID) (em : EntityManager) : EntityManager :=
  mkEntityManager (delete entityID (entities em))
    (ownerOfClient em) (registeredServices em).

(** [nil] is [None]. *)
Definition get (id : EntityID) (em : EntityManager) : option Entity :=
  entities em !! id.

Definition onEntityLoseClient (clientid : ClientID) (em : EntityManager) : EntityManager :=
  mkEntityManager (entities em) (delete clientid (ownerOfClient em))
    (registeredServices em).

Definition onEntityGetClient (entityID : EntityID) (clientid : ClientID)
    (em : EntityManager) : EntityManager :=
  mkEntityManager (entities em) (<[clientid := entityID]> (ownerOfClient em))
    (registeredServices em).

(** ** The service directory *)

Definition setServices (s : gmap string EntityIDSet) (em : EntityManager) : EntityManager :=
  mkEntityManager (entities em) (ownerOfClient em) s.

(** [eids] is a reference to the set stored in the directory, so
    [eids.Add(eid)] and [eids.Del(eid)] change the stored set. *)
Definition onDeclareService (serviceName : string) (eid : EntityID)
    (em : EntityManager) : EntityManager :=
  let '(eids, services) :=
    match registeredServices em !! serviceName with
    | Some eids => (eids, registeredServices em)
    | None => (∅, <[serviceName := ∅]> (registeredServices em))
    end in
  setServices (<[serviceName := eids ∪ {[eid]}]> services) em.

Definition onUndeclareService (serviceName : string) (eid : EntityID)
    (em : EntityManager) : EntityManager :=
  match registeredServices em !! serviceName with
  | Some eids => setServices (<[serviceName := eids ∖ {[eid]}]> (registeredServices em)) em
  | None => em
  end.

(** ** What a call out of the package does *)

(** Assignment to the field [client] of the entity object stored under
    [eid]. *)
Definition setClientField (eid : EntityID) (c : option GameClient) (em : EntityManager)
    : EntityManager :=
  mkEntityManager (alter (Entity_setClient c) eid (entities em))
    (ownerOfClient em) (registeredServices em).

Definition applyMutation (em : EntityManager) (m : Mutation) : EntityManager :=
  match m with
  | MutPut entity => put entity em
  | MutDel entityID => del entityID em
  | MutEntityGetClient entityID clientid => onEntityGetClient entityID clientid em
  | MutEntityLoseClient clientid => onEntityLoseClient clientid em
  | MutSetClientField entityID c => setClientField entityID c em
  | MutDeclareService serviceName eid => onDeclareService serviceName eid em
  | MutUndeclareService serviceName eid => onUndeclareService serviceName eid em
  end.

Definition applyMutations (ms : list Mutation) (em : EntityManager) : EntityManager :=
  foldl applyMutation em ms.

(** The callees that run user code: the callbacks [OnCreated] and
    [OnMigrateIn], the bind and unbind callbacks behind [SetClient] and
    [notifyClientDisconnected], the RPC method behind [onCallFromRemote],
    the position callback, [Destroy], and [space.enter] outside a restore.
    The others are the engine's own: attribute loading, storage, timers.
    [OnRestored] and [space.enter] with [isRestore] are taken as the source
    marks them: restore should be silent. *)
Definition reenters (ev : Event) : bool :=
  match ev with
  | EvSetClient _ _ | EvOnCreated _ | EvOnMigrateIn _ | EvNotifyClientDisconnected _
  | EvOnCallFromRemote _ _ _ | EvSyncPositionYawFromClient _ _ _ | EvDestroy _ => true
  | EvSpaceEnter _ _ _ isRestore => negb isRestore
  | _ => false
  end.

(** The world after the callee [ev] has run in [w]. *)
Definition reacted (ev : Event) (w : World) : World :=
  if reenters ev
  then World_setManager (applyMutations (reaction ev w) (entityManager w)) w
  else w.

(** An external call: it is written to the log, the user code it runs may
    have changed the manager, and it may panic. *)
Definition call (ev : Event) : M unit :=
  λ w, (match raises ev with None => Returns tt | Some v => Panics v end,
        reacted ev w, [ev]).

Definition nil_dereference : PanicValue :=
  PanicError (errors_Errorf "runtime error: invalid memory address or nil pointer dereference").

(** Modelled from the spec: [Entity.notifyClientDisconnected] (defined with
    [Entity], in another file of the package) clears the bound client of the
    entity, so that the entity and the ownership index agree again, and runs
    the user's callback.  [slot] is the key under which the entity object is
    stored. *)
Definition Entity_notifyClientDisconnected (slot : EntityID) (entity : Entity) : M unit :=
  modifyManager (setClientField slot None) ;;
  call (EvNotifyClientDisconnected (ID entity)).

(** [owner.notifyClientDisconnected()] is called on whatever [get] returned;
    through a nil [*Entity] the call faults. *)
Definition onClientDisconnected (clientid : ClientID) : M unit :=
  em ← getManager;
  let eid := default "" (ownerOfClient em !! clientid) in
  if negb (EntityID_IsNil eid) then
    modifyManager (onEntityLoseClient clientid) ;;
    em ← getManager;
    match get eid em with
    | Some owner => Entity_notifyClientDisconnected eid owner
    | None => panic nil_dereference
    end
  else ret tt.

Fixpoint forEach {A} (l : list A) (body : A → M unit) : M unit :=
  match l with
  | [] => ret tt
  | x :: rest => body x ;; forEach rest body
  end.

(** [order]: the entries of [em.entities] in the order the run visits them.
    The loop holds pointers to the entity objects, so an entity is read as it
    is when the loop reaches it, and an entry that was removed before the
    loop reaches it is not visited. *)
Definition onGateDisconnected (gateid_ : Z) (order : list (EntityID * Entity)) : M unit :=
  forEach order (λ '(slot, _),
    em ← getManager;
    match entities em !! slot with
    | Some entity =>
        match client entity with
        | Some c =>
            if bool_decide (gateid c = gateid_) then
              modifyManager (onEntityLoseClient (clientid c)) ;;
              Entity_notifyClientDisconnected slot entity
            else ret tt
        | None => ret tt
        end
    | None => ret tt
    end).

(** [rand.Intn(n)] panics when [n <= 0]; otherwise it returns the number
    drawn, [r], which lies in [0, n). *)
Definition rand_Intn (n : Z) (r : Z) : M Z :=
  if n <=? 0 then panic (PanicOther "invalid argument to Intn") else ret r.

(** The loop of [chooseServiceProvider]: [Some eid] is the [return eid]
    inside the loop, [None] is falling out of the loop. *)
Fixpoint chooseServiceProvider_loop (r : Z) (order : list EntityID) : option EntityID :=
  match order with
  | [] => None
  | eid :: rest => if r =? 0 then Some eid else chooseServiceProvider_loop (r - 1) rest
  end.

(** [r]: the number [rand.Intn] draws; [order]: the members of the set in
    the order the run visits them.  The default is the trailing
    [return ""]. *)
Definition chooseServiceProvider (serviceName : string) (r : Z)
    (order : list EntityID) : M EntityID :=
  em ← getManager;
  eids ← match registeredServices em !! serviceName with
         | Some eids => ret eids
         | None => gwlog_Panicf "service not found"
         end;
  r ← rand_Intn (Z.of_nat (size eids)) r;
  ret (default "" (chooseServiceProvider_loop r order)).

(** ** [createEntity] *)

Definition GenEntityID : M EntityID :=
  λ w, (Returns (GenEntityID_at (nextEntityID w)),
        mkWorld (registeredEntityTypes w) (entityManager w) (S (nextEntityID w)),
        []).

(** [entity.init(typeName, entityID, entityInstance)] followed by
    [entity.Space = nilSpace]. *)
Definition Entity_init (typeName : string) (entityID : EntityID) : Entity :=
  mkEntity entityID typeName None true.

(** Assignment to the field [client] of the entity object [eid]. *)
Definition assignClient (eid : EntityID) (c : GameClient) (em : EntityManager)
    : EntityManager :=
  mkEntityManager (alter (Entity_setClient (Some c)) eid (entities em))
    (ownerOfClient em) (registeredServices em).

(** Modelled from the spec, as a step of [Entity.SetClient] and of
    [Entity.Destroy]: the entity stored under [eid] gives up the client it
    has, which is then no longer recorded as owned. *)
Definition releaseOwnClient (eid : EntityID) (em : EntityManager) : EntityManager :=
  match entities em !! eid with
  | Some e =>
      match client e with
      | Some c => onEntityLoseClient (clientid c) em
      | None => em
      end
  | None => em
  end.

(** Modelled from the spec, as a step of [Entity.SetClient]: the client
    [cid] is taken from the entity that owns it; the owner's field is cleared
    and the client is no longer recorded as owned. *)
Definition releaseClient (cid : ClientID) (em : EntityManager) : EntityManager :=
  match ownerOfClient em !! cid with
  | Some prior => onEntityLoseClient cid (setClientField prior None em)
  | None => em
  end.

(** Modelled from the spec: [Entity.SetClient] (defined with [Entity], in
    another file of the package) goes through the full bind protocol: it
    tears down the prior bindings (of the entity to its old client, and of
    the client to its prior owner), binds the client to the entity, records
    it in the ownership index, and runs the bind callbacks. *)
Definition Entity_SetClient (eid : EntityID) (c : GameClient) : M unit :=
  modifyManager (releaseOwnClient eid) ;;
  modifyManager (releaseClient (clientid c)) ;;
  modifyManager (assignClient eid c) ;;
  modifyManager (onEntityGetClient eid (clientid c)) ;;
  call (EvSetClient eid c).

Definition createEntity (typeName : string) (space : option Space) (pos : Position)
    (entityID : EntityID) (data : option (gmap string AttrVal))
    (timerData : option (list Byte.byte)) (client_ : option GameClient)
    (cause : Z) : M EntityID :=
  emit (EvCreateEntity typeName entityID cause) ;;
  w ← getWorld;
  entityTypeDesc ← match registeredEntityTypes w !! typeName with
                   | Some d => ret d
                   | None => gwlog_Panicf "unknown entity type"
                   end;
  entityID ← (if bool_decide (entityID = "") then GenEntityID else ret entityID);
  let entity := Entity_init typeName entityID in
  modifyManager (put entity) ;;
  match data with
  | Some data =>
      if bool_decide (cause = ccCreate)
      then call (EvLoadPersistentData entityID data)
      else call (EvLoadMigrateData entityID data)
  | None => call (EvSave entityID)
  end ;;
  match timerData with
  | Some timerData => call (EvRestoreTimers entityID timerData)
  | None => ret tt
  end ;;
  (if IsPersistent entity then call (EvSetupSaveTimer entityID) else ret tt) ;;
  (if bool_decide (cause = ccCreate) || bool_decide (cause = ccRestore)
   then emit (EvSendNotifyCreateEntity entityID)
   else ret tt) ;;
  match client_ with
  | Some c =>
      if bool_decide (cause = ccCreate)
      then Entity_SetClient entityID c
      else modifyManager (assignClient entityID c) ;;
           modifyManager (onEntityGetClient entityID (clientid c))
  | None => ret tt
  end ;;
  emit (EvLog "Entity created") ;;
  (if bool_decide (cause = ccCreate) then RunPanicless (call (EvOnCreated entityID))
   else if bool_decide (cause = ccMigrate) then RunPanicless (call (EvOnMigrateIn entityID))
   else if bool_decide (cause = ccRestore) then RunPanicless (call (EvOnRestored entityID))
   else ret tt) ;;
  match space with
  | Some space =>
      call (EvSpaceEnter (SpaceID space) entityID pos (bool_decide (cause = ccRestore)))
  | None => ret tt
  end ;;
  ret entityID.

(** ** Loading *)

(** The [data interface{}] that storage hands to the completion: nil, a
    [map[string]interface{}] (itself nil or not), or a value of another type. *)
Inductive LoadedData :=
| DataNil
| DataMap (m : option (gmap string AttrVal))
| DataOther.

(** [data.(map[string]interface{})] *)
Definition assertMap (data : LoadedData) : M (option (gmap string AttrVal)) :=
  match data with
  | DataMap m => ret m
  | _ => panic (PanicError (errors_Errorf "interface conversion: interface {} is not map[string]interface {}"))
  end.

(** [loadEntityLocally] hands the request to storage. *)
Definition loadEntityLocally (typeName : string) (entityID : EntityID)
    (space : option Space) (pos : Position) : M unit :=
  emit (EvStorageLoad typeName entityID).

(** The completion that [loadEntityLocally] installs; it runs in the main
    routine when storage answers with [data] and [err].  [space] is the space
    as it is at that moment. *)
Definition loadEntityLocally_callback (typeName : string) (entityID : EntityID)
    (space : option Space) (pos : Position)
    (data : LoadedData) (err : option error) : M unit :=
  match err with
  | Some _ =>
      gwlog_Panicf (A:=unit) "load entity failed" ;;
      emit (EvSendNotifyDestroyEntity entityID)
  | None => ret tt
  end ;;
  if match space with Some s => Space_IsDestroyed s | None => false end then
    emit (EvSendNotifyDestroyEntity entityID)
  else
    data ← assertMap data;
    createEntity typeName space pos entityID data None None ccCreate ;;
    ret tt.

Definition CreateEntityLocally (typeName : string)
    (data : option (gmap string AttrVal)) (client_ : option GameClient) : M EntityID :=
  createEntity typeName None Position_zero "" data None client_ ccCreate.

Definition LoadEntityLocally (typeName : string) (entityID : EntityID) : M unit :=
  loadEntityLocally typeName entityID None Position_zero.

Definition OnClientDisconnected (clientid : ClientID) : M unit :=
  onClientDisconnected clientid.

Definition OnDeclareService (serviceName : string) (entityid : EntityID) : M unit :=
  modifyManager (onDeclareService serviceName entityid).

Definition OnUndeclareService (serviceName : string) (entityid : EntityID) : M unit :=
  modifyManager (onUndeclareService serviceName entityid).

(** The zero value of a missing key is the nil set, which reads as empty. *)
Definition GetServiceProviders (serviceName : string) (em : EntityManager) : EntityIDSet :=
  default ∅ (registeredServices em !! serviceName).

Definition GetEntity (id : EntityID) (em : EntityManager) : option Entity :=
  get id em.

Definition OnGateDisconnected (gateid_ : Z) (order : list (EntityID * Entity)) : M unit :=
  emit (EvLog "Gate disconnected") ;;
  onGateDisconnected gateid_ order.

Definition loadEntityAnywhere (typeName : string) (entityID : EntityID) : M unit :=
  emit (EvSendLoadEntityAnywhere typeName entityID).

Definition createEntityAnywhere (typeName : string)
    (data : option (gmap string AttrVal)) : M unit :=
  emit (EvSendCreateEntityAnywhere typeName data).

Definition CreateEntityAnywhere (typeName : string) : M unit :=
  createEntityAnywhere typeName None.

Definition LoadEntityAnywhere (typeName : string) (entityID : EntityID) : M unit :=
  loadEntityAnywhere typeName entityID.

Definition callRemote (id : EntityID) (method : string) : M unit :=
  emit (EvSendCallEntityMethod id method).

(** Every call goes to the dispatcher; the local shortcut is commented out
    in the source. *)
Definition callEntity (id : EntityID) (method : string) : M unit :=
  callRemote id method.

Definition OnCall (id : EntityID) (method : string) (clientID : ClientID) : M unit :=
  em ← getManager;
  match get id em with
  | None => emit (EvLog "Entity is not found while calling")
  | Some e => call (EvOnCallFromRemote (ID e) method clientID)
  end.

Definition OnSyncPositionYawFromClient (eid : EntityID) (pos : Position) (yaw : Z) : M unit :=
  em ← getManager;
  match get eid em with
  | None => emit (EvLog "OnSyncPositionYawFromClient: entity is not found")
  | Some e => call (EvSyncPositionYawFromClient (ID e) pos yaw)
  end.

(** Modelled from the spec, as a step of [Entity.Destroy]: the services
    that [eid] provided are undeclared. *)
Definition undeclareAll (eid : EntityID) (em : EntityManager) : EntityManager :=
  setServices ((λ eids : EntityIDSet, eids ∖ {[eid]}) <$> registeredServices em) em.

(** Modelled from the spec: [Entity.Destroy] (defined with [Entity], in
    another file of the package) runs the user's callback, clears the client
    binding of the entity, undeclares the services it provided and removes
    it from the table.  [slot] is the key under which the entity object is
    stored. *)
Definition Entity_Destroy (slot : EntityID) (entity : Entity) : M unit :=
  call (EvDestroy (ID entity)) ;;
  modifyManager (λ em, del slot (undeclareAll slot (releaseOwnClient slot em))).

(** [order]: the entries of the table as visited; an entry that was removed
    before the loop reaches it is not visited. *)
Definition OnGameTerminating (order : list (EntityID * Entity)) : M unit :=
  forEach order (λ '(slot, _),
    em ← getManager;
    match entities em !! slot with
    | Some e => Entity_Destroy slot e
    | None => ret tt
    end).

Definition SaveAllEntities (order : list (EntityID * Entity)) : M unit :=
  forEach order (λ '(_, e), call (EvSave (ID e))).

Definition Entities_ (em : EntityManager) : gmap EntityID Entity := entities em.

(** ** [Freeze] *)

(** Modelled from the spec: [Entity.IsSpaceEntity] (defined with [Entity],
    in another file of the package): a space is an entity of the distinguished
    type [SPACE_ENTITY_TYPE]. *)
Definition IsSpaceEntity (e : Entity) : bool :=
  bool_decide (TypeName e = SPACE_ENTITY_TYPE).

(** [e.IsSpaceEntity() && e.ToSpace().IsNil()] *)
Definition isNilSpace (e : Entity) : bool :=
  IsSpaceEntity e && Space_IsNil e.

(** The first loop of [Freeze] over the entries it visits.  [inl] is the
    early [return nil, err]; [inr] carries [entityFreezeInfos] and
    [foundNilSpace] out of the loop. *)
Fixpoint Freeze_entities (order : list (EntityID * Entity))
    (entityFreezeInfos : gmap EntityID entityFreezeData) (foundNilSpace : bool)
    : error + (gmap EntityID entityFreezeData * bool) :=
  match order with
  | [] => inr (entityFreezeInfos, foundNilSpace)
  | (_, e) :: rest =>
      let entityFreezeInfos := <[ID e := GetFreezeData e]> entityFreezeInfos in
      if IsSpaceEntity e then
        if Space_IsNil e then
          if foundNilSpace then inl (errors_Errorf "found duplicate nil space")
          else Freeze_entities rest entityFreezeInfos true
        else Freeze_entities rest entityFreezeInfos foundNilSpace
      else Freeze_entities rest entityFreezeInfos foundNilSpace
  end.

(** The second loop of [Freeze]. *)
Definition Freeze_services (order : list (string * EntityIDSet))
    : gmap string (list EntityID) :=
  foldl (λ registeredServices '(serviceName, eids),
           <[serviceName := EntityIDSet_ToList eids]> registeredServices)
        ∅ order.

(** [entOrder] and [svcOrder]: the entries of [entityManager.entities] and of
    [entityManager.registeredServices] in the order the run visits them.
    The result is the pair of the snapshot (nil is [None]) and the error. *)
Definition Freeze (gameid : Z) (entOrder : list (EntityID * Entity))
    (svcOrder : list (string * EntityIDSet)) : M (option FreezeData * option error) :=
  match Freeze_entities entOrder ∅ false with
  | inl err => ret (None, Some err)
  | inr (entityFreezeInfos, foundNilSpace) =>
      if negb foundNilSpace then
        ret (None, Some (errors_Errorf "nil space not found"))
      else
        ret (Some (mkFreezeData entityFreezeInfos (Freeze_services svcOrder)), None)
  end.

(** ** [RestoreFreezedEntities] *)

Definition liftOutcome {A} (o : Outcome A) : M A := λ w, (o, w, []).

(** [attrs[key]]: nil when the map is nil or has no such key. *)
Definition attrs_index (attrs : option (gmap string AttrVal)) (key : string)
    : option AttrVal :=
  attrs ≫= (λ m, m !! key).

(** What the closure [restoreEntities] does with one entry of
    [freeze.Entities]. *)
Definition restoreEntity (filter : string → Z → bool)
    (entry : EntityID * entityFreezeData) : M unit :=
  let '(eid, info) := entry in
  let typeName := Type_ info in
  spaceKind ← (if bool_decide (typeName = SPACE_ENTITY_TYPE)
               then liftOutcome (typeconv_Int (attrs_index (Attrs info) SPACE_KIND_ATTR_KEY))
               else ret 0);
  if filter typeName spaceKind then
    em ← getManager;
    let space :=
      if bool_decide (typeName ≠ SPACE_ENTITY_TYPE)
      then spaceManager_getSpace (entities em) (SpaceID_ info)
      else None in
    let client_ := (λ c, MakeGameClient (ClientID_ c) (GateID_ c)) <$> Client info in
    createEntity typeName space (Pos info) eid (Attrs info) (TimerData info)
      client_ ccRestore ;;
    emit (EvLog "Restored") ;;
    match ESR info with
    | Some esr => emit (EvPostEnterSpace eid (ESR_SpaceID esr) (ESR_EnterPos esr))
    | None => ret tt
    end
  else ret tt.

Definition restoreEntities (order : list (EntityID * entityFreezeData))
    (filter : string → Z → bool) : M unit :=
  forEach order (restoreEntity filter).

Definition filterNilSpace (typeName : string) (spaceKind : Z) : bool :=
  bool_decide (typeName = SPACE_ENTITY_TYPE) && (spaceKind =? 0).

Definition filterOtherSpaces (typeName : string) (spaceKind : Z) : bool :=
  bool_decide (typeName = SPACE_ENTITY_TYPE) && negb (spaceKind =? 0).

Definition filterNonSpaces (typeName : string) (spaceKind : Z) : bool :=
  negb (bool_decide (typeName = SPACE_ENTITY_TYPE)).

Definition restoreService (entry : string * list EntityID) : M unit :=
  let '(serviceName, _eids) := entry in
  let eids := foldl (λ (eids : EntityIDSet) eid, eids ∪ {[eid]}) ∅ _eids in
  modifyManager (λ em, setServices (<[serviceName := eids]> (registeredServices em)) em).

(** The body of [RestoreFreezedEntities], without the deferred function.
    [order1], [order2], [order3]: the entries of [freeze.Entities] in the
    order the first, second and third pass visit them; [svcOrder]: the
    entries of [freeze.Services] as visited.  A nil [freeze] faults at the
    first [freeze.Entities]. *)
Definition RestoreFreezedEntities_body (freeze : option FreezeData)
    (order1 order2 order3 : list (EntityID * entityFreezeData))
    (svcOrder : list (string * list EntityID)) : M unit :=
  match freeze with
  | None => panic nil_dereference
  | Some _ =>
      restoreEntities order1 filterNilSpace ;;
      restoreEntities order2 filterOtherSpaces ;;
      restoreEntities order3 filterNonSpaces ;;
      forEach svcOrder restoreService
  end.

(** The deferred function: [recover()], and if something was recovered,
    [err = errors.Wrap(_err.(error), "panic during restore")].  The type
    assertion [_err.(error)] itself panics when the recovered value does not
    implement [error]; that panic leaves the function. *)
Definition RestoreFreezedEntities (freeze : option FreezeData)
    (order1 order2 order3 : list (EntityID * entityFreezeData))
    (svcOrder : list (string * list EntityID)) : M (option error) :=
  λ w, match RestoreFreezedEntities_body freeze order1 order2 order3 svcOrder w with
       | (Returns _, w1, t) => (Returns None, w1, t)
       | (Panics (PanicError _err), w1, t) =>
           (Returns (Some (errors_Wrap _err "panic during restore")), w1, t)
       | (Panics (PanicOther _), w1, t) =>
           (Panics (PanicError (errors_Errorf
              "interface conversion: interface {} is not error")), w1, t)
       end.

End Core.

(** ** A concrete engine to run the definitions on *)

Module Demo.

(** Spaces have type [__space__] and keep their kind under [_K]; an entity is
    persistent unless its type is [Monster]; the hook [LoadMigrateData] of the
    entity [bad] panics with a string and storage-backed [Save] of the entity
    [disk] panics with an error.  A space entity is the nil-space when its id
    starts with [nil].  Two entities have callbacks that call back into the
    package: [OnCreated] of the entity [guest] releases the client [c1], and
    the disconnect callback of the entity [host] undeclares its service
    [match]. *)
#[export] Instance engine : Collaborators := {|
  SPACE_ENTITY_TYPE := "__space__";
  SPACE_KIND_ATTR_KEY := "_K";
  GenEntityID_at := λ n, String (ascii_of_nat (97 + n)) "#";
  raises := λ ev,
    match ev with
    | EvLoadMigrateData "bad" _ => Some (PanicOther "corrupt attributes")
    | EvSave "disk" => Some (PanicError (errors_Errorf "disk full"))
    | _ => None
    end;
  reaction := λ ev _,
    match ev with
    | EvOnCreated eid =>
        if String.eqb eid "guest" then [MutEntityLoseClient "c1"] else []
    | EvNotifyClientDisconnected eid =>
        if String.eqb eid "host" then [MutUndeclareService "match" "host"] else []
    | _ => []
    end;
  IsPersistent := λ e, negb (bool_decide (TypeName e = "Monster"));
  Space_IsNil := λ e, String.prefix "nil" (ID e);
  GetFreezeData := λ e,
    mkEntityFreezeData (TypeName e) None Position_zero
      ((λ c, mkClientData (clientid c) (gateid c)) <$> client e) "" None None;
  spaceManager_getSpace := λ es id,
    (λ e, mkSpace (ID e) false) <$> es !! id;
  typeconv_Int := λ v,
    match v with
    | Some (AInt z) => Returns z
    | _ => Panics (PanicOther "typeconv: cannot convert to int")
    end;
  RpcDescMap_visit := λ m name, m ∪ {[name]};
  EntityIDSet_ToList := elements;
  gwlog_panic_value := PanicOther
|}.

Definition spaceAttrs (kind : Z) : option (gmap string AttrVal) :=
  Some {[ "_K" := AInt kind ]}.

Definition info (typeName : string) (attrs : option (gmap string AttrVal))
    (space : EntityID) : entityFreezeData :=
  mkEntityFreezeData typeName attrs Position_zero None space None None.

(** The snapshot of scenario S6: the nil-space N, a space S of kind 1 and a
    player P in S. *)
Definition snapshotNSP : list (EntityID * entityFreezeData) :=
  [ ("P", info "Player" (Some ∅) "S");
    ("S", info "__space__" (spaceAttrs 1) "");
    ("N", info "__space__" (spaceAttrs 0) "") ].

Definition typesNSP : gmap string EntityTypeDesc :=
  {[ "Player" := mkEntityTypeDesc "Player" ∅ ∅ ∅ ∅;
     "__space__" := mkEntityTypeDesc "Space" ∅ ∅ ∅ ∅ ]}.

Definition worldNSP : World := mkWorld typesNSP newEntityManager 0.

(** A snapshot whose only entity is the player [bad]. *)
Definition snapshotBad : list (EntityID * entityFreezeData) :=
  [ ("bad", info "Player" (Some ∅) "") ].

(** A manager with the nil-space, a player and one service, and the same
    with a second nil-space. *)
Definition managerOne : EntityManager :=
  onDeclareService "match" "p1"
    (put (Entity_init "Player" "p1") (put (Entity_init "__space__" "nil0") newEntityManager)).

Definition managerTwo : EntityManager :=
  put (Entity_init "__space__" "nil1") managerOne.

Definition worldOf_manager (em : EntityManager) : World := mkWorld typesNSP em 0.

End Demo.

(** * Vocabulary of the statements *)

Section Vocabulary.
Context `{Collaborators}.

(** The descriptor after a sequence of [DefineAttrs] calls, each with its own
    tag map (given as visited); a call that panics leaves what it had done. *)
Definition DefineAttrs_seq (calls : list (list (string * list string)))
    (desc : EntityTypeDesc) : EntityTypeDesc :=
  foldl (λ d attrDefs, (DefineAttrs attrDefs d).2) desc calls.

Definition allClient_in_client (desc : EntityTypeDesc) : Prop :=
  allClientAttrs desc ⊆ clientAttrs desc.

Definition flags_ok (flags : bool * bool * bool) : Prop :=
  flags.1.1 = true → flags.1.2 = true.

(** A call of one of the two service entry points. *)
Inductive ServiceCall :=
| DeclareCall (serviceName : string) (eid : EntityID)
| UndeclareCall (serviceName : string) (eid : EntityID).

Definition serviceCall (c : ServiceCall) : M unit :=
  match c with
  | DeclareCall serviceName eid => OnDeclareService serviceName eid
  | UndeclareCall serviceName eid => OnUndeclareService serviceName eid
  end.

(** The world after a sequence of service calls. *)
Definition afterServiceCalls (calls : list ServiceCall) (w : World) : World :=
  (forEach calls serviceCall w).1.2.

Definition directory (w : World) : gmap string EntityIDSet :=
  registeredServices (entityManager w).

(** Every service name in the directory has a provider. *)
Definition providers_nonempty (w : World) : Prop :=
  ∀ serviceName eids, directory w !! serviceName = Some eids → eids ≠ ∅.

(** The calls of [createEntity] recorded in a log, as (type name, entity id
    argument, cause). *)
Definition createCalls (t : list Event) : list (string * EntityID * Z) :=
  omap (λ ev, match ev with
              | EvCreateEntity typeName eid cause => Some (typeName, eid, cause)
              | _ => None
              end) t.

Definition is_materialization (ev : Event) : bool :=
  match ev with
  | EvLoadPersistentData _ _ | EvLoadMigrateData _ _ | EvSave _ => true
  | _ => false
  end.

Definition is_notifyCreate (ev : Event) : bool :=
  match ev with EvSendNotifyCreateEntity _ => true | _ => false end.

Definition is_notifyDestroy (ev : Event) : bool :=
  match ev with EvSendNotifyDestroyEntity _ => true | _ => false end.

(** The id of the entity that [createEntity] makes: the argument, or a
    generated one when the argument is empty. *)
Definition createdID (entityID : EntityID) (w : World) : EntityID :=
  if bool_decide (entityID = "") then GenEntityID_at (nextEntityID w) else entityID.

(** Every call in the log of [m] satisfies [Q], from whatever world [m]
    starts and however it ends. *)
Definition emits {A} (Q : Event → Prop) (m : M A) : Prop :=
  ∀ w, Forall Q (traceOf (m w)).

(** Whenever [m] returns, it returns [a]. *)
Definition yields {A} (a : A) (m : M A) : Prop :=
  ∀ w b, outcomeOf (m w) = Returns b → b = a.

(** The space kind that [restoreEntities] reads from the attributes of a
    snapshot entry of the space type. *)
Definition spaceKindOf (info : entityFreezeData) : Outcome Z :=
  typeconv_Int (attrs_index (Attrs info) SPACE_KIND_ATTR_KEY).

(** The three phases of restore and the snapshot entries that belong to each:
    the nil-space (space type, kind 0), the other spaces (space type, kind
    not 0), and the entities that are not spaces. *)
Inductive Phase := NilSpacePhase | OtherSpacesPhase | NonSpacesPhase.

Definition inPhase (p : Phase) (info : entityFreezeData) : bool :=
  match p with
  | NilSpacePhase =>
      bool_decide (Type_ info = SPACE_ENTITY_TYPE)
      && bool_decide (spaceKindOf info = Returns 0)
  | OtherSpacesPhase =>
      bool_decide (Type_ info = SPACE_ENTITY_TYPE)
      && match spaceKindOf info with
         | Returns spaceKind => bool_decide (spaceKind ≠ 0)
         | Panics _ => false
         end
  | NonSpacesPhase => bool_decide (Type_ info ≠ SPACE_ENTITY_TYPE)
  end.

(** The [createEntity] calls of one phase over the entries as visited: one
    call with cause Restore for each entry of the phase, in that order. *)
Definition phaseCalls (p : Phase) (order : list (EntityID * entityFreezeData))
    : list (string * EntityID * Z) :=
  (λ entry, (Type_ entry.2, entry.1, ccRestore))
    <$> List.filter (λ entry, inPhase p entry.2) order.

(** [m] makes the [createEntity] calls [expected], in that order: all of
    them when it returns, an initial part of them when it panics. *)
Definition makesCalls {A} (m : M A) (expected : list (string * EntityID * Z)) : Prop :=
  ∀ w, createCalls (traceOf (m w)) `prefix_of` expected
       ∧ (returned (outcomeOf (m w)) = true → createCalls (traceOf (m w)) = expected).

(** The filter that each pass hands to [restoreEntities]. *)
Definition passFilter (p : Phase) : string → Z → bool :=
  match p with
  | NilSpacePhase => filterNilSpace
  | OtherSpacesPhase => filterOtherSpaces
  | NonSpacesPhase => filterNonSpaces
  end.

(** The nil-spaces among a sequence of table entries, and the resident
    nil-spaces of a manager. *)
Definition nilSpacesIn (l : list (EntityID * Entity)) : list (EntityID * Entity) :=
  List.filter (λ kv, isNilSpace kv.2) l.

Definition residentNilSpaces (em : EntityManager) : list (EntityID * Entity) :=
  nilSpacesIn (map_to_list (entities em)).

(** Every entity is stored under its own id (what [put] does). *)
Definition wellKeyed (em : EntityManager) : Prop :=
  ∀ k e, entities em !! k = Some e → ID e = k.

(** The snapshot of a manager: the freeze data of every resident entity under
    its id, and the directory with every provider set as a list. *)
Definition snapshotOf (em : EntityManager) : FreezeData :=
  mkFreezeData (GetFreezeData <$> entities em)
               (EntityIDSet_ToList <$> registeredServices em).

(** [entityFreezeInfos] after the first loop of [Freeze] has written all
    the entries it visits. *)
Definition freezeInfos (order : list (EntityID * Entity))
    (acc : gmap EntityID entityFreezeData) : gmap EntityID entityFreezeData :=
  foldl (λ acc kv, <[ID kv.2 := GetFreezeData kv.2]> acc) acc order.

(** A call on the entity manager: one of its own methods, [createEntity], or
    [Destroy] of the entity stored under an id. *)
Inductive ManagerCall :=
| CallPut (entity : Entity)
| CallDel (entityID : EntityID)
| CallEntityGetClient (entityID : EntityID) (clientid : ClientID)
| CallEntityLoseClient (clientid : ClientID)
| CallClientDisconnected (clientid : ClientID)
| CallGateDisconnected (gateid_ : Z) (order : list (EntityID * Entity))
| CallCreateEntity (typeName : string) (space : option Space) (pos : Position)
    (entityID : EntityID) (data : option (gmap string AttrVal))
    (timerData : option (list Byte.byte)) (client_ : option GameClient) (cause : Z)
| CallDestroy (entityID : EntityID).

Definition managerCall (c : ManagerCall) : M unit :=
  match c with
  | CallPut entity => modifyManager (put entity)
  | CallDel entityID => modifyManager (del entityID)
  | CallEntityGetClient entityID clientid =>
      modifyManager (onEntityGetClient entityID clientid)
  | CallEntityLoseClient clientid => modifyManager (onEntityLoseClient clientid)
  | CallClientDisconnected clientid => onClientDisconnected clientid
  | CallGateDisconnected gateid_ order => onGateDisconnected gateid_ order
  | CallCreateEntity typeName space pos entityID data timerData client_ cause =>
      createEntity typeName space pos entityID data timerData client_ cause ;; ret tt
  | CallDestroy entityID =>
      em ← getManager;
      match entities em !! entityID with
      | Some e => Entity_Destroy entityID e
      | None => ret tt
      end
  end.

(** The world after a sequence of calls; a call that panics leaves the world
    as it was at the panic. *)
Definition afterManagerCalls (calls : list ManagerCall) (w : World) : World :=
  foldl (λ w c, worldOf (managerCall c w)) w calls.


(** Every client in the ownership index is the bound client of the entity
    recorded as its owner, and that entity is resident. *)
Definition ownersBound (em : EntityManager) : Prop :=
  ∀ cid eid,
    ownerOfClient em !! cid = Some eid →
    ∃ e c, entities em !! eid = Some e ∧ client e = Some c ∧ clientid c = cid.

(** Whatever user code does to the manager when a callee runs it, it keeps
    the property [I] (as every operation of the package does). *)
Definition reactionsKeep (I : World → Prop) : Prop :=
  ∀ ev w, I w → I (reacted ev w).






(** [m] keeps the property [I] of the world, however it ends. *)
Definition preserves {A} (I : World → Prop) (m : M A) : Prop :=
  ∀ w, I w → I (worldOf (m w)).

(** [m] returns, from every world, when no external call panics. *)
Definition returnsWhenQuiet {A} (m : M A) : Prop :=
  (∀ ev, raises ev = None) → ∀ w, returned (outcomeOf (m w)) = true.

End Vocabulary.

(** * Vocabulary of the further properties *)

Section MoreVocabulary.
Context `{Collaborators}.

(** The attribute [attr] carries the tag [tag] (in any letter case) in the
    tag map. *)
Definition hasTag (tag attr : string) (attrDefs : list (string * list string)) : Prop :=
  ∃ defs, (attr, defs) ∈ attrDefs ∧ tag ∈ ToLower <$> defs.

(** Every tag of the tag map is one of the three valid ones. *)
Definition validTags (attrDefs : list (string * list string)) : Prop :=
  ∀ attr defs def, (attr, defs) ∈ attrDefs → def ∈ defs →
    ToLower def ∈ _VALID_ATTR_DEFS.

(** [m] leaves the world as it is, however it ends. *)
Definition silent {A} (m : M A) : Prop :=
  ∀ w, worldOf (m w) = w.

(** The clients that [onGateDisconnected] unbinds: those of the visited
    entities whose client sits on the gate, in the order of the visit; and
    the notifications it delivers. *)
Definition gateClients (gateid_ : Z) (order : list (EntityID * Entity)) : list ClientID :=
  omap (λ kv, match client kv.2 with
              | Some c => if bool_decide (gateid c = gateid_) then Some (clientid c) else None
              | None => None
              end) order.

Definition gateNotifications (gateid_ : Z) (order : list (EntityID * Entity)) : list Event :=
  omap (λ kv, match client kv.2 with
              | Some c =>
                  if bool_decide (gateid c = gateid_)
                  then Some (EvNotifyClientDisconnected (ID kv.2)) else None
              | None => None
              end) order.

(** The entity is bound to a client that sits on the gate. *)
Definition onGate (gateid_ : Z) (e : Entity) : bool :=
  match client e with
  | Some c => bool_decide (gateid c = gateid_)
  | None => false
  end.

(** The manager after the entity stored under [slot] has lost the client
    [cid]: the index entry is gone and the entity's field is cleared. *)
Definition unbind (slot : EntityID) (cid : ClientID) (em : EntityManager) : EntityManager :=
  setClientField slot None (onEntityLoseClient cid em).

(** The manager after the entities of [order] that sit on the gate have
    lost their clients. *)
Definition gateUnbound (gateid_ : Z) (order : list (EntityID * Entity))
    (em : EntityManager) : EntityManager :=
  foldl (λ em kv,
           match client kv.2 with
           | Some c => if bool_decide (gateid c = gateid_)
                       then unbind kv.1 (clientid c) em else em
           | None => em
           end) em order.

(** The disconnect callbacks of the entities of [order] leave the manager
    alone. *)
Definition quietDisconnects (order : list (EntityID * Entity)) : Prop :=
  ∀ k e w, (k, e) ∈ order → reaction (EvNotifyClientDisconnected (ID e)) w = [].

(** The entries of [order] are entries of the table, each visited once. *)
Definition visits (order : list (EntityID * Entity)) (em : EntityManager) : Prop :=
  NoDup order.*1 ∧ ∀ k e, (k, e) ∈ order → entities em !! k = Some e.

(** Whenever [m] returns, its log is [t]. *)
Definition logsWhenReturns {A} (m : M A) (t : list Event) : Prop :=
  ∀ w, returned (outcomeOf (m w)) = true → traceOf (m w) = t.

(** Whenever [m] returns, it has changed the world by [f]. *)
Definition changesWhenReturns {A} (m : M A) (f : World → World) : Prop :=
  ∀ w, returned (outcomeOf (m w)) = true → worldOf (m w) = f w.

(** The quiet bind of [createEntity]: the client is assigned to the entity
    and recorded in the index. *)
Definition bindClient (eid : EntityID) (client_ : option GameClient)
    (em : EntityManager) : EntityManager :=
  match client_ with
  | Some c => onEntityGetClient eid (clientid c) (assignClient eid c em)
  | None => em
  end.

(** The manager after [SetClient] has bound [c] to the entity stored under
    [eid], and after the client step of [createEntity]: the full bind
    protocol for cause Create, the quiet bind for the other causes. *)
Definition setClientTo (eid : EntityID) (c : GameClient) (em : EntityManager)
    : EntityManager :=
  onEntityGetClient eid (clientid c)
    (assignClient eid c (releaseClient (clientid c) (releaseOwnClient eid em))).

Definition clientStep (eid : EntityID) (client_ : option GameClient) (cause : Z)
    (em : EntityManager) : EntityManager :=
  match client_ with
  | Some c => if bool_decide (cause = ccCreate) then setClientTo eid c em
              else bindClient eid (Some c) em
  | None => em
  end.

(** The world after the callee [ev], if there is one, has run. *)
Definition reactedTo (ev : option Event) (w : World) : World :=
  match ev with
  | Some ev => reacted ev w
  | None => w
  end.

(** The three calls of [createEntity] that come after the new entity is in
    the table and bound: [SetClient]'s callbacks, the callback of the cause,
    and [space.enter]. *)
Definition setClientCall (eid : EntityID) (client_ : option GameClient) (cause : Z)
    : option Event :=
  match client_ with
  | Some c => if bool_decide (cause = ccCreate) then Some (EvSetClient eid c) else None
  | None => None
  end.

Definition causeCallback (eid : EntityID) (cause : Z) : option Event :=
  if bool_decide (cause = ccCreate) then Some (EvOnCreated eid)
  else if bool_decide (cause = ccMigrate) then Some (EvOnMigrateIn eid)
  else if bool_decide (cause = ccRestore) then Some (EvOnRestored eid)
  else None.

Definition enterCall (eid : EntityID) (space : option Space) (pos : Position) (cause : Z)
    : option Event :=
  (λ s, EvSpaceEnter (SpaceID s) eid pos (bool_decide (cause = ccRestore))) <$> space.

(** The state-materialization call of [createEntity]. *)
Definition materializationCall (eid : EntityID) (data : option (gmap string AttrVal))
    (cause : Z) : Event :=
  match data with
  | Some data =>
      if bool_decide (cause = ccCreate)
      then EvLoadPersistentData eid data
      else EvLoadMigrateData eid data
  | None => EvSave eid
  end.

(** The id counter after the id step of [createEntity]. *)
Definition advanceID (entityID : EntityID) (w : World) : World :=
  if bool_decide (entityID = "")
  then mkWorld (registeredEntityTypes w) (entityManager w) (S (nextEntityID w))
  else w.

(** The calls of a [createEntity] that returns, in order; [eid] is the id of
    the new entity. *)
Definition createEntityCalls (typeName : string) (space : option Space) (pos : Position)
    (entityID eid : EntityID) (data : option (gmap string AttrVal))
    (timerData : option (list Byte.byte)) (client_ : option GameClient)
    (cause : Z) : list Event :=
  [EvCreateEntity typeName entityID cause]
  ++ [match data with
      | Some data =>
          if bool_decide (cause = ccCreate)
          then EvLoadPersistentData eid data
          else EvLoadMigrateData eid data
      | None => EvSave eid
      end]
  ++ match timerData with Some timerData => [EvRestoreTimers eid timerData] | None => [] end
  ++ (if IsPersistent (Entity_init typeName eid) then [EvSetupSaveTimer eid] else [])
  ++ (if bool_decide (cause = ccCreate) || bool_decide (cause = ccRestore)
      then [EvSendNotifyCreateEntity eid] else [])
  ++ match client_ with
     | Some c => if bool_decide (cause = ccCreate) then [EvSetClient eid c] else []
     | None => []
     end
  ++ [EvLog "Entity created"]
  ++ (if bool_decide (cause = ccCreate) then [EvOnCreated eid]
      else if bool_decide (cause = ccMigrate) then [EvOnMigrateIn eid]
      else if bool_decide (cause = ccRestore) then [EvOnRestored eid]
      else [])
  ++ match space with
     | Some space =>
         [EvSpaceEnter (SpaceID space) eid pos (bool_decide (cause = ccRestore))]
     | None => []
     end.

(** The completion of [loadEntityLocally] reaches [createEntity] with this
    data: storage reported no error, the space (if any) is not destroyed and
    the data is a map. *)
Definition loadsInto (space : option Space) (data : LoadedData)
    (m : option (gmap string AttrVal)) : Prop :=
  match space with Some s => Space_IsDestroyed s = false | None => True end
  ∧ data = DataMap m.

(** The [createEntity] call that restore makes for a snapshot entry. *)
Definition restoreCall (entry : EntityID * entityFreezeData) : string * EntityID * Z :=
  (Type_ entry.2, entry.1, ccRestore).

(** The kind of every space entry can be read. *)
Definition kindsReadable (l : list (EntityID * entityFreezeData)) : Prop :=
  ∀ entry, entry ∈ l → Type_ entry.2 = SPACE_ENTITY_TYPE →
    ∃ kind, spaceKindOf entry.2 = Returns kind.














End MoreVocabulary.

(** An engine like [Demo.engine] whose freeze data records kind 0 in the
    attributes, so that a frozen nil-space can be restored. *)
Module DemoSnapshot.

Definition engine : Collaborators := {|
  SPACE_ENTITY_TYPE := "__space__";
  SPACE_KIND_ATTR_KEY := "_K";
  GenEntityID_at := @GenEntityID_at Demo.engine;
  raises := @raises Demo.engine;
  reaction := @reaction Demo.engine;
  IsPersistent := @IsPersistent Demo.engine;
  Space_IsNil := @Space_IsNil Demo.engine;
  GetFreezeData := λ e,
    mkEntityFreezeData (TypeName e) (Demo.spaceAttrs 0) Position_zero
      ((λ c, mkClientData (clientid c) (gateid c)) <$> client e) "" None None;
  spaceManager_getSpace := @spaceManager_getSpace Demo.engine;
  typeconv_Int := @typeconv_Int Demo.engine;
  RpcDescMap_visit := @RpcDescMap_visit Demo.engine;
  EntityIDSet_ToList := elements;
  gwlog_panic_value := PanicOther
|}.

End DemoSnapshot.

(** * Properties *)

(** ** The type registry: attribute classification *)

Section DefineAttrsFacts.
Context `{Collaborators}.

Lemma DefineAttrs_defs_flags attr defs flags flags' :
  DefineAttrs_defs attr defs flags = Returns flags' →
  (flags_ok flags → flags_ok flags')
  ∧ (flags.1.1 = true → flags'.1.1 = true)
  ∧ ("allclients" ∈ ToLower <$> defs → flags'.1.1 = true).
Proof.
  revert flags. induction defs as [|def rest IH]; intros flags Hrun.
  - simpl in Hrun. injection Hrun as <-. split_and!; auto.
    intros Hin. by apply elem_of_nil in Hin.
  - simpl in Hrun. destruct (negb _); [done|].
    destruct flags as [[a c] p].
    apply IH in Hrun as (Hok & Hmono & Hall).
    unfold flags_ok in *. simpl in *.
    repeat case_bool_decide; simpl in *; split_and!; intros; auto;
      match goal with
      | Hx : _ ∈ _ :: _ |- _ =>
          apply elem_of_cons in Hx as [Hx|Hx]; [congruence | auto]
      end.
Qed.

Lemma DefineAttrs_defs_start attr defs flags' :
  DefineAttrs_defs attr defs (false, false, false) = Returns flags' → flags_ok flags'.
Proof.
  intros Hrun. apply DefineAttrs_defs_flags in Hrun as (Hok & _). by apply Hok.
Qed.

Lemma DefineAttrs_add_sets attr flags desc :
  allClientAttrs (DefineAttrs_add attr flags desc)
    = (if flags.1.1 then allClientAttrs desc ∪ {[attr]} else allClientAttrs desc)
  ∧ clientAttrs (DefineAttrs_add attr flags desc)
    = (if flags.1.2 then clientAttrs desc ∪ {[attr]} else clientAttrs desc).
Proof. destruct flags as [[[] []] []]; done. Qed.

Lemma DefineAttrs_add_invariant attr flags desc :
  flags_ok flags → allClient_in_client desc →
  allClient_in_client (DefineAttrs_add attr flags desc).
Proof.
  unfold allClient_in_client, flags_ok. intros Hok Hsub.
  destruct (DefineAttrs_add_sets attr flags desc) as [-> ->].
  destruct flags as [[[] c] p]; simpl in *.
  - rewrite Hok by done. set_solver.
  - destruct c; set_solver.
Qed.

Lemma DefineAttrs_add_grows attr flags desc :
  allClientAttrs desc ⊆ allClientAttrs (DefineAttrs_add attr flags desc)
  ∧ clientAttrs desc ⊆ clientAttrs (DefineAttrs_add attr flags desc).
Proof.
  destruct (DefineAttrs_add_sets attr flags desc) as [-> ->].
  destruct flags as [[[] []] p]; simpl; set_solver.
Qed.

(** One call keeps the inclusion, whether it returns or panics. *)
Lemma DefineAttrs_invariant attrDefs desc :
  allClient_in_client desc → allClient_in_client (DefineAttrs attrDefs desc).2.
Proof.
  revert desc. induction attrDefs as [|[attr defs] rest IH]; intros desc Hsub; [done|].
  simpl. destruct (DefineAttrs_defs attr defs (false, false, false)) as [flags|v] eqn:Hdefs.
  - apply IH, DefineAttrs_add_invariant; [|done].
    by eapply DefineAttrs_defs_start.
  - done.
Qed.

Lemma DefineAttrs_grows attrDefs desc :
  allClientAttrs desc ⊆ allClientAttrs (DefineAttrs attrDefs desc).2
  ∧ clientAttrs desc ⊆ clientAttrs (DefineAttrs attrDefs desc).2.
Proof.
  revert desc. induction attrDefs as [|[attr defs] rest IH]; intros desc; [done|].
  simpl. destruct (DefineAttrs_defs attr defs (false, false, false)) as [flags|v]; [|done].
  destruct (IH (DefineAttrs_add attr flags desc)) as [IH1 IH2].
  destruct (DefineAttrs_add_grows attr flags desc) as [G1 G2].
  split; set_solver.
Qed.

Lemma DefineAttrs_seq_invariant calls desc :
  allClient_in_client desc → allClient_in_client (DefineAttrs_seq calls desc).
Proof.
  unfold DefineAttrs_seq. revert desc.
  induction calls as [|c rest IH]; intros desc Hsub; [done|].
  simpl. by apply IH, DefineAttrs_invariant.
Qed.

(** In a call that returns, an attribute with the tag [allclients] (in any
    letter case) is in both sets afterwards. *)
Lemma DefineAttrs_allclients_both attrDefs desc desc' attr defs :
  DefineAttrs attrDefs desc = (Returns tt, desc') →
  (attr, defs) ∈ attrDefs →
  "allclients" ∈ ToLower <$> defs →
  attr ∈ allClientAttrs desc' ∧ attr ∈ clientAttrs desc'.
Proof.
  revert desc. induction attrDefs as [|[attr0 defs0] rest IH]; intros desc Hrun Hin Htag.
  - by apply elem_of_nil in Hin.
  - simpl in Hrun.
    destruct (DefineAttrs_defs attr0 defs0 (false, false, false)) as [flags|v] eqn:Hdefs;
      [|done].
    apply elem_of_cons in Hin as [Heq|Hin].
    + injection Heq as <- <-.
      pose proof (DefineAttrs_defs_flags _ _ _ _ Hdefs) as (Hok & _ & Hall).
      specialize (Hall Htag). specialize (Hok (λ Hf, Hf)).
      unfold flags_ok in Hok. simpl in Hok. specialize (Hok Hall).
      destruct (DefineAttrs_grows rest (DefineAttrs_add attr flags desc)) as [G1 G2].
      rewrite Hrun in G1, G2. simpl in G1, G2.
      destruct (DefineAttrs_add_sets attr flags desc) as [E1 E2].
      rewrite Hall in E1. rewrite Hok in E2. set_solver.
    + eapply IH; eauto.
Qed.

Lemma RegisterEntity_desc typeName entityPtr w desc w' t :
  RegisterEntity typeName entityPtr w = (Returns desc, w', t) →
  allClientAttrs desc = ∅ ∧ clientAttrs desc = ∅ ∧ persistentAttrs desc = ∅
  ∧ registeredEntityTypes w !! typeName = None
  ∧ registeredEntityTypes w' !! typeName = Some desc.
Proof.
  unfold RegisterEntity, mbind, M_bind, bind, getWorld, gwlog_Panicf, panic, ret, mret, M_ret.
  simpl. case_bool_decide as Hreg; simpl; [done|].
  intros [= <- <- <-]. simpl. split_and!; try done.
  - destruct (registeredEntityTypes w !! typeName) eqn:E; [|done].
    exfalso. apply Hreg. eauto.
  - by rewrite lookup_insert_eq.
Qed.

End DefineAttrsFacts.

(** C9.  After registration and any sequence of [DefineAttrs] calls on the
    descriptor (whatever the tag maps, whatever the order in which each map is
    visited, and whether a call returns or panics on an unknown tag),
    [allClientAttrs] is a subset of [clientAttrs]; one more call keeps the
    inclusion, and if that call returns (its tag map is valid) every attribute
    that carries the tag [allclients] is in [allClientAttrs] and in
    [clientAttrs]. *)
Theorem DefineAttrs_allClientAttrs_subset_clientAttrs `{Collaborators}
    (typeName : string) (entityPtr : IEntity) (w w' : World) (t : list Event)
    (desc : EntityTypeDesc) (calls : list (list (string * list string)))
    (attrDefs : list (string * list string)) :
  RegisterEntity typeName entityPtr w = (Returns desc, w', t) →
  let d1 := DefineAttrs_seq calls desc in
  let r := DefineAttrs attrDefs d1 in
  allClientAttrs d1 ⊆ clientAttrs d1
  ∧ allClientAttrs r.2 ⊆ clientAttrs r.2
  ∧ (r.1 = Returns tt →
     ∀ attr defs, (attr, defs) ∈ attrDefs → "allclients" ∈ ToLower <$> defs →
       attr ∈ allClientAttrs r.2 ∧ attr ∈ clientAttrs r.2).
Proof.
  intros Hreg d1 r.
  apply RegisterEntity_desc in Hreg as (Ha & Hc & _).
  assert (allClient_in_client desc) as H0.
  { unfold allClient_in_client. rewrite Ha. set_solver. }
  assert (allClient_in_client d1) as H1 by by apply DefineAttrs_seq_invariant.
  split_and!.
  - exact H1.
  - by apply DefineAttrs_invariant.
  - intros Hret attr defs Hin Htag.
    apply (DefineAttrs_allclients_both attrDefs d1 r.2 attr defs); [|done|done].
    subst r. destruct (DefineAttrs attrDefs d1) as [o d2]. simpl in *. congruence.
Qed.

Lemma DefineAttrs_allClientAttrs_subset_clientAttrs_witness :
  let desc := mkEntityTypeDesc "Player" ∅ ∅ ∅ ∅ in
  let d1 := DefineAttrs_seq (H:=Demo.engine) [[("hp", ["persistent"; "client"])]; [("x", ["bogus"])]] desc in
  let r := DefineAttrs (H:=Demo.engine) [("name", ["AllClients"; "Persistent"])] d1 in
  allClientAttrs d1 ⊆ clientAttrs d1
  ∧ allClientAttrs r.2 ⊆ clientAttrs r.2
  ∧ "name" ∈ allClientAttrs r.2 ∧ "name" ∈ clientAttrs r.2.
Proof.
  intros desc d1 r.
  pose proof (DefineAttrs_allClientAttrs_subset_clientAttrs (H:=Demo.engine)
    "Player" (mkIEntity "Player" []) initialWorld
    (RegisterEntity (H:=Demo.engine) "Player" (mkIEntity "Player" []) initialWorld).1.2
    (RegisterEntity (H:=Demo.engine) "Player" (mkIEntity "Player" []) initialWorld).2
    desc [[("hp", ["persistent"; "client"])]; [("x", ["bogus"])]]
    [("name", ["AllClients"; "Persistent"])] eq_refl) as (H1 & H2 & H3).
  split_and!; [exact H1 | exact H2 | |].
  - apply (H3 eq_refl "name" ["AllClients"; "Persistent"]).
    + apply list_elem_of_here.
    + apply list_elem_of_here.
  - apply (H3 eq_refl "name" ["AllClients"; "Persistent"]).
    + apply list_elem_of_here.
    + apply list_elem_of_here.
Defined.

(** ** The service directory *)

Section ServiceFacts.

Lemma afterServiceCalls_cons c calls w :
  afterServiceCalls (c :: calls) w
  = afterServiceCalls calls
      (World_setManager
         (match c with
          | DeclareCall n e => onDeclareService n e (entityManager w)
          | UndeclareCall n e => onUndeclareService n e (entityManager w)
          end) w).
Proof.
  unfold afterServiceCalls. simpl.
  unfold mbind, M_bind, bind.
  destruct c; simpl;
    unfold OnDeclareService, OnUndeclareService, modifyManager;
    by destruct (forEach calls serviceCall _) as [[? ?] ?].
Qed.

Lemma onDeclareService_lookup n e em n' :
  registeredServices (onDeclareService n e em) !! n'
  = if decide (n = n')
    then Some (default ∅ (registeredServices em !! n) ∪ {[e]})
    else registeredServices em !! n'.
Proof.
  unfold onDeclareService.
  destruct (registeredServices em !! n) as [eids|] eqn:E; simpl;
    case_decide; subst; simplify_map_eq; done.
Qed.

Lemma onUndeclareService_lookup n e em n' :
  registeredServices (onUndeclareService n e em) !! n'
  = if decide (n = n')
    then (λ eids, eids ∖ {[e]}) <$> registeredServices em !! n
    else registeredServices em !! n'.
Proof.
  unfold onUndeclareService.
  destruct (registeredServices em !! n) as [eids|] eqn:E; simpl;
    case_decide; subst; simplify_map_eq; done.
Qed.

(** Neither entry point removes a name from the directory. *)
Lemma afterServiceCalls_dom calls w :
  dom (directory w) ⊆ dom (directory (afterServiceCalls calls w)).
Proof.
  revert w. induction calls as [|c calls IH]; intros w; [done|].
  rewrite afterServiceCalls_cons. etrans; [|apply IH].
  intros n Hn. apply elem_of_dom in Hn as [eids Hn]. apply elem_of_dom.
  unfold directory in *. simpl. destruct c as [n0 e|n0 e].
  - rewrite onDeclareService_lookup. case_decide; eauto.
  - rewrite onUndeclareService_lookup. case_decide; subst; [|eauto].
    rewrite Hn. eauto.
Qed.

End ServiceFacts.

(** C3, as the code has it.  [OnUndeclareService] takes the entity id out of
    the provider set of the service and keeps the service name in the
    directory, also when the set becomes empty; another name is not touched.
    So after any sequence of [OnDeclareService] and [OnUndeclareService] calls
    every name that was in the directory is still in it. *)
Theorem OnUndeclareService_keeps_entry
    (calls : list ServiceCall) (w : World) (serviceName : string) (eid : EntityID) :
  let w1 := afterServiceCalls calls w in
  let w2 := afterServiceCalls [UndeclareCall serviceName eid] w1 in
  dom (directory w) ⊆ dom (directory w1)
  ∧ directory w2 !! serviceName = (λ eids, eids ∖ {[eid]}) <$> directory w1 !! serviceName
  ∧ ∀ other, other ≠ serviceName → directory w2 !! other = directory w1 !! other.
Proof.
  intros w1 w2. split; [apply afterServiceCalls_dom|].
  subst w2. rewrite afterServiceCalls_cons. unfold afterServiceCalls, directory. simpl.
  split.
  - rewrite onUndeclareService_lookup. by case_decide.
  - intros other Hne. rewrite onUndeclareService_lookup. by case_decide.
Qed.

Lemma OnUndeclareService_keeps_entry_witness :
  let w1 := afterServiceCalls
              [DeclareCall "match" "e1"; DeclareCall "match" "e2"; DeclareCall "chat" "e3"] initialWorld in
  let w2 := afterServiceCalls [UndeclareCall "match" "e1"] w1 in
  directory w2 !! "match" = (λ eids, eids ∖ {["e1"]}) <$> directory w1 !! "match"
  ∧ directory w2 !! "chat" = directory w1 !! "chat".
Proof.
  intros w1 w2.
  pose proof (OnUndeclareService_keeps_entry
    [DeclareCall "match" "e1"; DeclareCall "match" "e2"; DeclareCall "chat" "e3"]
    initialWorld "match" "e1") as (_ & H1 & H2).
  split; [exact H1|]. apply H2. discriminate.
Defined.

(** C3 fails as stated: after [OnDeclareService("match", e1)] and
    [OnUndeclareService("match", e1)] the name [match] is in the directory
    with the empty provider set. *)
Lemma last_undeclare_leaves_empty_entry :
  let w := afterServiceCalls
             [DeclareCall "match" "e1"; UndeclareCall "match" "e1"] initialWorld in
  directory w !! "match" = Some ∅ ∧ ¬ providers_nonempty w.
Proof.
  intros w.
  assert (directory w !! "match" = Some ∅) as Hw by (vm_compute; reflexivity).
  split; [exact Hw|].
  intros Hne. by apply (Hne "match" ∅ Hw).
Qed.

(** ** Running computations *)

Section MonadFacts.
Context `{Collaborators}.

Lemma traceOf_after {A} t (x : Outcome A * World * list Event) :
  traceOf (after t x) = t ++ traceOf x.
Proof. done. Qed.

Lemma outcomeOf_after {A} t (x : Outcome A * World * list Event) :
  outcomeOf (after t x) = outcomeOf x.
Proof. done. Qed.

Lemma worldOf_after {A} t (x : Outcome A * World * list Event) :
  worldOf (after t x) = worldOf x.
Proof. done. Qed.

Lemma after_nil {A} (x : Outcome A * World * list Event) : after [] x = x.
Proof. by destruct x as [[? ?] ?]. Qed.

Lemma bind_run {A B} (m : M A) (k : A → M B) w :
  (m ≫= k) w
  = match outcomeOf (m w) with
    | Returns a => after (traceOf (m w)) (k a (worldOf (m w)))
    | Panics v => (Panics v, worldOf (m w), traceOf (m w))
    end.
Proof.
  unfold mbind, M_bind, bind, after, outcomeOf, worldOf, traceOf.
  destruct (m w) as [[[a|v] w1] t1]; simpl; [|done].
  by destruct (k a w1) as [[? ?] ?].
Qed.

Lemma bind_trace {A B} (m : M A) (k : A → M B) w :
  traceOf ((m ≫= k) w)
  = traceOf (m w) ++ match outcomeOf (m w) with
                     | Returns a => traceOf (k a (worldOf (m w)))
                     | Panics _ => []
                     end.
Proof.
  rewrite bind_run. destruct (outcomeOf (m w)); [done|].
  unfold traceOf. simpl. by rewrite app_nil_r.
Qed.

Lemma bind_outcome {A B} (m : M A) (k : A → M B) w :
  outcomeOf ((m ≫= k) w)
  = match outcomeOf (m w) with
    | Returns a => outcomeOf (k a (worldOf (m w)))
    | Panics v => Panics v
    end.
Proof. rewrite bind_run. by destruct (outcomeOf (m w)). Qed.

Lemma bind_world {A B} (m : M A) (k : A → M B) w :
  worldOf ((m ≫= k) w)
  = match outcomeOf (m w) with
    | Returns a => worldOf (k a (worldOf (m w)))
    | Panics v => worldOf (m w)
    end.
Proof. rewrite bind_run. by destruct (outcomeOf (m w)). Qed.

Lemma bind_ret {A B} (a : A) (k : A → M B) w : (ret a ≫= k) w = k a w.
Proof. rewrite bind_run. simpl. apply after_nil. Qed.

Lemma bind_emit {B} ev (k : unit → M B) w : (emit ev ≫= k) w = after [ev] (k tt w).
Proof. by rewrite bind_run. Qed.

Lemma bind_getWorld {B} (k : World → M B) w : (getWorld ≫= k) w = k w w.
Proof. rewrite bind_run. simpl. apply after_nil. Qed.

Lemma bind_getManager {B} (k : EntityManager → M B) w :
  (getManager ≫= k) w = k (entityManager w) w.
Proof. rewrite bind_run. simpl. apply after_nil. Qed.

Lemma bind_modifyManager {B} f (k : unit → M B) w :
  (modifyManager f ≫= k) w = k tt (World_setManager (f (entityManager w)) w).
Proof. rewrite bind_run. simpl. apply after_nil. Qed.

Lemma bind_panic {A B} v (k : A → M B) w : (panic v ≫= k) w = (Panics v, w, []).
Proof. by rewrite bind_run. Qed.

Lemma bind_call {B} ev (k : unit → M B) w :
  (call ev ≫= k) w
  = match raises ev with
    | None => after [ev] (k tt (reacted ev w))
    | Some v => (Panics v, reacted ev w, [ev])
    end.
Proof. rewrite bind_run. unfold call, outcomeOf. simpl. by destruct (raises ev). Qed.

Lemma bind_GenEntityID {B} (k : EntityID → M B) w :
  (GenEntityID ≫= k) w
  = k (GenEntityID_at (nextEntityID w))
      (mkWorld (registeredEntityTypes w) (entityManager w) (S (nextEntityID w))).
Proof. rewrite bind_run. simpl. apply after_nil. Qed.

(** *** What a computation can emit *)

Lemma emits_ret {A} Q (a : A) : emits Q (ret a).
Proof. intros w. constructor. Qed.

Lemma emits_panic {A} Q v : emits Q (panic (A:=A) v).
Proof. intros w. constructor. Qed.

Lemma emits_gwlog_Panicf {A} Q msg : emits Q (gwlog_Panicf (A:=A) msg).
Proof. intros w. constructor. Qed.

Lemma emits_getWorld Q : emits Q getWorld.
Proof. intros w. constructor. Qed.

Lemma emits_getManager Q : emits Q getManager.
Proof. intros w. constructor. Qed.

Lemma emits_modifyManager Q f : emits Q (modifyManager f).
Proof. intros w. constructor. Qed.

Lemma emits_GenEntityID Q : emits Q GenEntityID.
Proof. intros w. constructor. Qed.

Lemma emits_liftOutcome {A} Q (o : Outcome A) : emits Q (liftOutcome o).
Proof. intros w. constructor. Qed.

Lemma emits_emit (Q : Event → Prop) ev : Q ev → emits Q (emit ev).
Proof. intros HQ w. by repeat constructor. Qed.

Lemma emits_call (Q : Event → Prop) ev : Q ev → emits Q (call ev).
Proof. intros HQ w. by repeat constructor. Qed.

Lemma emits_bind {A B} Q (m : M A) (k : A → M B) :
  emits Q m → (∀ a, emits Q (k a)) → emits Q (m ≫= k).
Proof.
  intros Hm Hk w. rewrite bind_trace. apply Forall_app. split; [apply Hm|].
  destruct (outcomeOf (m w)); [apply Hk | constructor].
Qed.

Lemma emits_RunPanicless Q m : emits Q m → emits Q (RunPanicless m).
Proof.
  intros Hm w. specialize (Hm w). unfold RunPanicless, traceOf in *.
  by destruct (m w) as [[? ?] ?].
Qed.

Lemma emits_forEach {A} Q (l : list A) body :
  (∀ x, emits Q (body x)) → emits Q (forEach l body).
Proof.
  intros Hb. induction l as [|x l IH]; simpl.
  - apply emits_ret.
  - apply emits_bind; [apply Hb | intros _; apply IH].
Qed.

Lemma emits_filter_nil {A} (P : Event → bool) (m : M A) w :
  emits (λ ev, P ev = false) m → List.filter P (traceOf (m w)) = [].
Proof.
  intros Hm. specialize (Hm w). induction Hm as [|ev t Hev _ IH]; [done|].
  simpl. by rewrite Hev.
Qed.

Lemma emits_createCalls_nil {A} (m : M A) w :
  emits (λ ev, createCalls [ev] = []) m → createCalls (traceOf (m w)) = [].
Proof.
  intros Hm. specialize (Hm w). induction Hm as [|ev t Hev _ IH]; [done|].
  unfold createCalls in *. simpl in *. destruct ev; try done.
Qed.

End MonadFacts.

(** Splits a goal [emits Q m] along the structure of [m]; what is left are the
    goals [Q ev] for the calls in [m]. *)
Ltac emits_step :=
  first
    [ apply emits_ret | apply emits_panic | apply emits_gwlog_Panicf
    | apply emits_getWorld | apply emits_getManager | apply emits_modifyManager
    | apply emits_GenEntityID | apply emits_liftOutcome
    | apply emits_RunPanicless
    | apply emits_bind; [|intros ?]
    | apply emits_emit | apply emits_call
    | match goal with
      | |- emits _ (match ?x with _ => _ end) => destruct x eqn:?
      end ].

Ltac emits_tac := repeat emits_step.

(** ** [createEntity] *)

Section CreateEntityFacts.
Context `{Collaborators}.

Lemma filter_nil_Forall (P : Event → bool) (t : list Event) :
  Forall (λ ev, P ev = false) t → List.filter P t = [].
Proof. induction 1 as [|ev t Hev _ IH]; [done|]. simpl. by rewrite Hev. Qed.

Lemma createCalls_app t1 t2 : createCalls (t1 ++ t2) = createCalls t1 ++ createCalls t2.
Proof. apply omap_app. Qed.

Lemma createCalls_nil_Forall t : Forall (λ ev, createCalls [ev] = []) t → createCalls t = [].
Proof.
  induction 1 as [|ev t Hev _ IH]; [done|].
  change (ev :: t) with ([ev] ++ t). by rewrite createCalls_app, Hev, IH.
Qed.

(** The steps of [createEntity] after the state-materialization branch;
    [Q] holds of every call they make. *)
Lemma createEntity_rest_emits (Q : Event → Prop) entity entityID
    (timerData : option (list Byte.byte)) (client_ : option GameClient)
    (space : option Space) (pos : Position) (cause : Z) :
  (∀ td, Q (EvRestoreTimers entityID td)) →
  Q (EvSetupSaveTimer entityID) →
  (cause = ccCreate ∨ cause = ccRestore → Q (EvSendNotifyCreateEntity entityID)) →
  (∀ c, Q (EvSetClient entityID c)) →
  (∀ msg, Q (EvLog msg)) →
  Q (EvOnCreated entityID) → Q (EvOnMigrateIn entityID) → Q (EvOnRestored entityID) →
  (∀ s b, Q (EvSpaceEnter s entityID pos b)) →
  emits Q
    (match timerData with
     | Some timerData => call (EvRestoreTimers entityID timerData)
     | None => ret tt
     end ;;
     (if IsPersistent entity then call (EvSetupSaveTimer entityID) else ret tt) ;;
     (if bool_decide (cause = ccCreate) || bool_decide (cause = ccRestore)
      then emit (EvSendNotifyCreateEntity entityID)
      else ret tt) ;;
     match client_ with
     | Some c =>
         if bool_decide (cause = ccCreate)
         then Entity_SetClient entityID c
         else modifyManager (assignClient entityID c) ;;
              modifyManager (onEntityGetClient entityID (clientid c))
     | None => ret tt
     end ;;
     emit (EvLog "Entity created") ;;
     (if bool_decide (cause = ccCreate) then RunPanicless (call (EvOnCreated entityID))
      else if bool_decide (cause = ccMigrate) then RunPanicless (call (EvOnMigrateIn entityID))
      else if bool_decide (cause = ccRestore) then RunPanicless (call (EvOnRestored entityID))
      else ret tt) ;;
     match space with
     | Some space =>
         call (EvSpaceEnter (SpaceID space) entityID pos (bool_decide (cause = ccRestore)))
     | None => ret tt
     end ;;
     ret entityID).
Proof.
  intros Htd Hsave Hnotify Hset Hlog Hc Hm Hr Hsp.
  unfold Entity_SetClient. emits_tac; auto.
  apply Hnotify.
  match goal with
  | Hx : _ || _ = true |- _ =>
      apply orb_true_iff in Hx as [Hx|Hx]; apply bool_decide_eq_true in Hx; auto
  end.
Qed.

(** The id step: keep the id given, or generate one and advance the counter. *)
Lemma bind_entityID {B} (k : EntityID → M B) entityID w :
  ((if bool_decide (entityID = "") then GenEntityID else ret entityID) ≫= k) w
  = k (createdID entityID w)
      (if bool_decide (entityID = "")
       then mkWorld (registeredEntityTypes w) (entityManager w) (S (nextEntityID w))
       else w).
Proof.
  unfold createdID. case_bool_decide; [by rewrite bind_GenEntityID | by rewrite bind_ret].
Qed.

(** The state-materialization branch makes exactly one call. *)
Lemma materialization_trace entityID (data : option (gmap string AttrVal)) (cause : Z) w :
  traceOf (match data with
           | Some data =>
               if bool_decide (cause = ccCreate)
               then call (EvLoadPersistentData entityID data)
               else call (EvLoadMigrateData entityID data)
           | None => call (EvSave entityID)
           end w)
  = [match data with
     | Some data =>
         if bool_decide (cause = ccCreate)
         then EvLoadPersistentData entityID data
         else EvLoadMigrateData entityID data
     | None => EvSave entityID
     end].
Proof. destruct data; [case_bool_decide|]; done. Qed.

(** The log of a call from a world where the type is registered: the call
    record, the materialization call, then the calls of the later steps. *)
Lemma createEntity_trace typeName space pos entityID data timerData client_ cause w desc :
  registeredEntityTypes w !! typeName = Some desc →
  ∃ rest,
    traceOf (createEntity typeName space pos entityID data timerData client_ cause w)
    = EvCreateEntity typeName entityID cause
      :: match data with
         | Some data =>
             if bool_decide (cause = ccCreate)
             then EvLoadPersistentData (createdID entityID w) data
             else EvLoadMigrateData (createdID entityID w) data
         | None => EvSave (createdID entityID w)
         end
      :: rest
    ∧ Forall (λ ev, is_materialization ev = false ∧ createCalls [ev] = []) rest.
Proof.
  intros Hreg. unfold createEntity.
  rewrite bind_emit, bind_getWorld, Hreg, bind_ret, bind_entityID.
  rewrite bind_modifyManager, traceOf_after, bind_trace.
  rewrite materialization_trace. eexists. split; [reflexivity|].
  match goal with |- context [outcomeOf ?x] => destruct (outcomeOf x) end;
    [|constructor].
  apply createEntity_rest_emits; done.
Qed.

(** A call from a world where the type is not registered stops at
    [gwlog.Panicf], before anything is put in the table. *)
Lemma createEntity_unknown_type typeName space pos entityID data timerData client_ cause w :
  registeredEntityTypes w !! typeName = None →
  createEntity typeName space pos entityID data timerData client_ cause w
  = (Panics (gwlog_panic_value "unknown entity type"), w,
     [EvCreateEntity typeName entityID cause]).
Proof.
  intros Hreg. unfold createEntity.
  rewrite bind_emit, bind_getWorld, Hreg. unfold gwlog_Panicf. by rewrite bind_panic.
Qed.

(** Every call of [createEntity] leaves exactly its own call record. *)
Lemma createEntity_createCalls typeName space pos entityID data timerData client_ cause w :
  createCalls (traceOf (createEntity typeName space pos entityID data timerData client_ cause w))
  = [(typeName, entityID, cause)].
Proof.
  destruct (registeredEntityTypes w !! typeName) as [desc|] eqn:Hreg.
  - destruct (createEntity_trace typeName space pos entityID data timerData
                client_ cause w desc Hreg) as (rest & -> & Hrest).
    match goal with
    | |- createCalls (?a :: ?b :: rest) = _ => change (a :: b :: rest) with ([a; b] ++ rest)
    end.
    rewrite createCalls_app, (createCalls_nil_Forall rest), app_nil_r.
    + destruct data; [case_bool_decide|]; done.
    + eapply Forall_impl; [exact Hrest|]. by intros ev [_ ?].
  - by rewrite createEntity_unknown_type.
Qed.

End CreateEntityFacts.

(** C4.  In a call of [createEntity] for a registered type, exactly one
    state-materialization call is made on the new entity: with [data != nil]
    and cause Create it is [LoadPersistentData(data)]; with [data != nil] and
    cause Migrate or Restore it is [LoadMigrateData(data)]; with [data == nil]
    it is [Save()]. *)
Theorem createEntity_state_materialization `{Collaborators}
    (typeName : string) (space : option Space) (pos : Position) (entityID : EntityID)
    (data : option (gmap string AttrVal)) (timerData : option (list Byte.byte))
    (client_ : option GameClient) (cause : Z) (w : World) (desc : EntityTypeDesc) :
  registeredEntityTypes w !! typeName = Some desc →
  let t := traceOf (createEntity typeName space pos entityID data timerData client_ cause w) in
  let eid := createdID entityID w in
  length (List.filter is_materialization t) = 1%nat
  ∧ (∀ d, data = Some d → cause = ccCreate →
       List.filter is_materialization t = [EvLoadPersistentData eid d])
  ∧ (∀ d, data = Some d → cause = ccMigrate ∨ cause = ccRestore →
       List.filter is_materialization t = [EvLoadMigrateData eid d])
  ∧ (data = None → List.filter is_materialization t = [EvSave eid]).
Proof.
  intros Hreg t eid.
  destruct (createEntity_trace typeName space pos entityID data timerData
              client_ cause w desc Hreg) as (rest & Ht & Hrest).
  assert (List.filter is_materialization rest = []) as Hnil.
  { apply filter_nil_Forall. eapply Forall_impl; [exact Hrest|]. by intros ev [? _]. }
  subst t eid. rewrite Ht. simpl.
  split_and!.
  - destruct data; [case_bool_decide|]; simpl; by rewrite Hnil.
  - intros d -> ->. rewrite bool_decide_eq_true_2 by done. simpl. by rewrite Hnil.
  - intros d -> Hc. rewrite bool_decide_eq_false_2.
    + simpl. by rewrite Hnil.
    + unfold ccCreate, ccMigrate, ccRestore in *. lia.
  - intros ->. simpl. by rewrite Hnil.
Qed.

Lemma createEntity_state_materialization_witness :
  let t := traceOf (createEntity (H:=Demo.engine) "Player" None Position_zero "p1"
                      (Some ∅) None None ccRestore Demo.worldNSP) in
  length (List.filter is_materialization t) = 1%nat
  ∧ List.filter is_materialization t = [EvLoadMigrateData "p1" ∅].
Proof.
  intros t.
  destruct (createEntity_state_materialization (H:=Demo.engine) "Player" None
              Position_zero "p1" (Some ∅) None None ccRestore Demo.worldNSP
              (mkEntityTypeDesc "Player" ∅ ∅ ∅ ∅) eq_refl) as (H1 & _ & H3 & _).
  split; [exact H1|]. apply (H3 ∅ eq_refl). by right.
Defined.

Section NotifyFacts.
Context `{Collaborators}.

Lemma bind_returns {A B} (m : M A) (k : A → M B) w b :
  outcomeOf ((m ≫= k) w) = Returns b →
  ∃ a, outcomeOf (m w) = Returns a ∧ outcomeOf (k a (worldOf (m w))) = Returns b.
Proof. rewrite bind_outcome. destruct (outcomeOf (m w)); [eauto|done]. Qed.

Lemma filter_bind_returns {A B} (P : Event → bool) (m : M A) (k : A → M B) w a :
  outcomeOf (m w) = Returns a →
  List.filter P (traceOf ((m ≫= k) w))
  = List.filter P (traceOf (m w)) ++ List.filter P (traceOf (k a (worldOf (m w)))).
Proof. intros Hm. by rewrite bind_trace, Hm, List.filter_app. Qed.

Lemma yields_ret {A} (a : A) : yields a (ret a).
Proof. intros w b [= <-]. done. Qed.

Lemma yields_bind {A B} (b : B) (m : M A) (k : A → M B) :
  (∀ a, yields b (k a)) → yields b (m ≫= k).
Proof. intros Hk w b' Hb. apply bind_returns in Hb as (a & _ & Hb). by eapply Hk. Qed.

(** No call of [createEntity] for a cause other than Create and Restore
    notifies the dispatcher of a creation, however the call ends. *)
Lemma createEntity_no_notify typeName space pos entityID data timerData client_ cause w :
  cause ≠ ccCreate → cause ≠ ccRestore →
  List.filter is_notifyCreate
    (traceOf (createEntity typeName space pos entityID data timerData client_ cause w)) = [].
Proof.
  intros Hc Hr. apply emits_filter_nil.
  unfold createEntity, Entity_SetClient. emits_tac; try done.
  match goal with
  | Hx : _ || _ = true |- _ =>
      apply orb_true_iff in Hx as [Hx|Hx]; apply bool_decide_eq_true in Hx; done
  end.
Qed.

(** A call that returns has notified the dispatcher exactly when the cause is
    Create or Restore, and then once and for the id it returns. *)
Lemma createEntity_returns_notify typeName space pos entityID data timerData client_ cause w eid :
  outcomeOf (createEntity typeName space pos entityID data timerData client_ cause w)
    = Returns eid →
  eid = createdID entityID w
  ∧ List.filter is_notifyCreate
      (traceOf (createEntity typeName space pos entityID data timerData client_ cause w))
    = if bool_decide (cause = ccCreate) || bool_decide (cause = ccRestore)
      then [EvSendNotifyCreateEntity eid] else [].
Proof.
  destruct (registeredEntityTypes w !! typeName) as [desc|] eqn:Hreg;
    [|by rewrite createEntity_unknown_type].
  unfold createEntity.
  rewrite bind_emit, bind_getWorld, Hreg, bind_ret.
  rewrite bind_entityID.
  set (id := createdID entityID w). set (w0 := if bool_decide (entityID = "") then _ else w).
  rewrite bind_modifyManager, outcomeOf_after, traceOf_after.
  set (w1 := World_setManager _ w0).
  intros Hret.
  rewrite List.filter_app.
  change (List.filter is_notifyCreate [EvCreateEntity typeName entityID cause])
    with (@nil Event).
  rewrite app_nil_l.
  (* state materialization *)
  apply bind_returns in Hret as (u1 & Hmat & Hret).
  rewrite (filter_bind_returns _ _ _ _ _ Hmat).
  rewrite (filter_nil_Forall is_notifyCreate (traceOf _)).
  2:{ rewrite materialization_trace. repeat constructor.
      destruct data; [destruct (bool_decide (cause = ccCreate))|]; done. }
  rewrite app_nil_l.
  set (w2 := worldOf _) in *. clearbody w2.
  (* timers *)
  apply bind_returns in Hret as (u2 & Htim & Hret).
  rewrite (filter_bind_returns _ _ _ _ _ Htim).
  rewrite (emits_filter_nil is_notifyCreate _ w2) by (emits_tac; done).
  rewrite app_nil_l.
  set (w3 := worldOf _) in *. clearbody w3.
  (* save timer *)
  apply bind_returns in Hret as (u3 & Hper & Hret).
  rewrite (filter_bind_returns _ _ _ _ _ Hper).
  rewrite (emits_filter_nil is_notifyCreate _ w3) by (emits_tac; done).
  rewrite app_nil_l.
  set (w4 := worldOf _) in *. clearbody w4.
  (* the notification *)
  apply bind_returns in Hret as (u4 & Hnot & Hret).
  rewrite (filter_bind_returns _ _ _ _ _ Hnot).
  set (w5 := worldOf _) in *. clearbody w5.
  assert (eid = id) as ->.
  { revert Hret. revert w5 eid.
    apply yields_bind; intros _. apply yields_bind; intros _.
    apply yields_bind; intros _. apply yields_bind; intros _. apply yields_ret. }
  split; [done|].
  match goal with
  | |- context [traceOf (?m w5)] => rewrite (emits_filter_nil is_notifyCreate m w5)
  end.
  2:{ unfold Entity_SetClient. emits_tac; done. }
  rewrite app_nil_r. by destruct (_ || _).
Qed.

Lemma quiet_ret {A} (a : A) : returnsWhenQuiet (ret a).
Proof. by intros Hq w. Qed.

Lemma quiet_emit ev : returnsWhenQuiet (emit ev).
Proof. by intros Hq w. Qed.

Lemma quiet_modifyManager f : returnsWhenQuiet (modifyManager f).
Proof. by intros Hq w. Qed.

Lemma quiet_call ev : returnsWhenQuiet (call ev).
Proof. intros Hq w. unfold call, outcomeOf. simpl. by rewrite Hq. Qed.

Lemma quiet_RunPanicless m : returnsWhenQuiet (RunPanicless m).
Proof. intros Hq w. unfold RunPanicless, outcomeOf. by destruct (m w) as [[? ?] ?]. Qed.

Lemma quiet_bind {A B} (m : M A) (k : A → M B) :
  returnsWhenQuiet m → (∀ a, returnsWhenQuiet (k a)) → returnsWhenQuiet (m ≫= k).
Proof.
  intros Hm Hk Hq w. rewrite bind_outcome. specialize (Hm Hq w).
  destruct (outcomeOf (m w)); [by apply Hk|done].
Qed.

(** With the type registered and no panic in the calls it makes,
    [createEntity] returns. *)
Lemma createEntity_returns typeName space pos entityID data timerData client_ cause w desc :
  registeredEntityTypes w !! typeName = Some desc →
  (∀ ev, raises ev = None) →
  outcomeOf (createEntity typeName space pos entityID data timerData client_ cause w)
  = Returns (createdID entityID w).
Proof.
  intros Hreg Hq.
  assert (returned (outcomeOf (createEntity typeName space pos entityID data timerData
                                 client_ cause w)) = true) as Hret.
  { unfold createEntity.
    rewrite bind_emit, bind_getWorld, Hreg, bind_ret, bind_entityID, bind_modifyManager.
    rewrite outcomeOf_after.
    match goal with |- returned (outcomeOf (?m ?w1)) = true => revert Hq; generalize w1 end.
    intros w1 Hq. revert w1.
    match goal with |- ∀ w1, returned (outcomeOf (?m w1)) = true =>
      assert (returnsWhenQuiet m) as Hm; [|by apply Hm] end.
    unfold Entity_SetClient.
    repeat first
      [ apply quiet_ret | apply quiet_emit | apply quiet_call | apply quiet_modifyManager
      | apply quiet_RunPanicless
      | apply quiet_bind; [|intros ?]
      | match goal with
        | |- returnsWhenQuiet (match ?x with _ => _ end) => destruct x
        end ]. }
  destruct (outcomeOf _) as [eid|v] eqn:Hout; [|done].
  by destruct (createEntity_returns_notify _ _ _ _ _ _ _ _ _ _ Hout) as [-> _].
Qed.

End NotifyFacts.

(** C5.  A call of [createEntity] sends [SendNotifyCreateEntity] for the
    entity's id exactly when the cause is Create or Restore: for any other
    cause (Migrate in particular) no create notification is sent, however the
    call ends; a call with cause Create or Restore that returns has sent it
    once, for the id it returns; and a call for a registered type returns
    unless one of the calls it makes panics. *)
Theorem createEntity_notifies_iff_create_or_restore `{Collaborators}
    (typeName : string) (space : option Space) (pos : Position) (entityID : EntityID)
    (data : option (gmap string AttrVal)) (timerData : option (list Byte.byte))
    (client_ : option GameClient) (cause : Z) (w : World) :
  let x := createEntity typeName space pos entityID data timerData client_ cause w in
  (cause = ccMigrate → List.filter is_notifyCreate (traceOf x) = [])
  ∧ (cause ≠ ccCreate → cause ≠ ccRestore → List.filter is_notifyCreate (traceOf x) = [])
  ∧ (∀ eid, outcomeOf x = Returns eid →
       eid = createdID entityID w
       ∧ (cause = ccCreate ∨ cause = ccRestore →
            List.filter is_notifyCreate (traceOf x) = [EvSendNotifyCreateEntity eid])
       ∧ (EvSendNotifyCreateEntity eid ∈ traceOf x ↔ cause = ccCreate ∨ cause = ccRestore))
  ∧ (∀ desc, registeredEntityTypes w !! typeName = Some desc →
       (∀ ev, raises ev = None) →
       outcomeOf x = Returns (createdID entityID w)).
Proof.
  intros x. split_and!.
  - intros ->. by apply createEntity_no_notify.
  - apply createEntity_no_notify.
  - intros eid Hret. subst x.
    destruct (createEntity_returns_notify _ _ _ _ _ _ _ _ _ _ Hret) as [Hid Hf].
    split; [done|].
    assert (bool_decide (cause = ccCreate) || bool_decide (cause = ccRestore) = true
            ↔ cause = ccCreate ∨ cause = ccRestore) as Hcond.
    { rewrite orb_true_iff, !bool_decide_eq_true. done. }
    split.
    + intros Hc. apply Hcond in Hc. by rewrite Hc in Hf.
    + rewrite <- Hcond. split.
      * intros Hin. destruct (_ || _) eqn:E; [done|].
        assert (EvSendNotifyCreateEntity eid ∈
                List.filter is_notifyCreate
                  (traceOf (createEntity typeName space pos entityID data timerData
                              client_ cause w))) as Hin'.
        { apply list_elem_of_In, List.filter_In. split; [by apply list_elem_of_In|done]. }
        rewrite Hf in Hin'. by apply elem_of_nil in Hin'.
      * intros E. rewrite E in Hf.
        assert (EvSendNotifyCreateEntity eid ∈
                List.filter is_notifyCreate
                  (traceOf (createEntity typeName space pos entityID data timerData
                              client_ cause w))) as Hin'.
        { rewrite Hf. apply list_elem_of_here. }
        apply list_elem_of_In, List.filter_In in Hin' as [Hin' _].
        by apply list_elem_of_In.
  - intros desc Hreg Hq. by eapply createEntity_returns.
Qed.

Lemma createEntity_notifies_iff_create_or_restore_witness :
  let x := createEntity (H:=Demo.engine) "Player" None Position_zero ""
             None None (Some (MakeGameClient "c1" 7)) ccCreate Demo.worldNSP in
  let y := createEntity (H:=Demo.engine) "Player" None Position_zero "p2"
             (Some ∅) None None ccMigrate Demo.worldNSP in
  outcomeOf x = Returns "a#"
  ∧ List.filter is_notifyCreate (traceOf x) = [EvSendNotifyCreateEntity "a#"]
  ∧ List.filter is_notifyCreate (traceOf y) = [].
Proof.
  intros x y.
  destruct (createEntity_notifies_iff_create_or_restore (H:=Demo.engine) "Player" None
              Position_zero "" None None (Some (MakeGameClient "c1" 7)) ccCreate
              Demo.worldNSP) as (_ & _ & Hx & _).
  destruct (createEntity_notifies_iff_create_or_restore (H:=Demo.engine) "Player" None
              Position_zero "p2" (Some ∅) None None ccMigrate
              Demo.worldNSP) as (Hy & _ & _ & _).
  destruct (Hx "a#" eq_refl) as (_ & Hsend & _).
  split_and!; [reflexivity | apply Hsend; by left | apply Hy; reflexivity].
Defined.

(** ** Loading *)

(** C2, on the code.  When storage reports an error, the completion of
    [loadEntityLocally] panics in [gwlog.Panicf]; the
    [SendNotifyDestroyEntity] written after it is never reached, so nothing
    at all is sent to the dispatcher.  Nothing is put in the entity table
    (the world is as it was). *)
Theorem loadEntityLocally_error_panics_before_notify `{Collaborators}
    (typeName : string) (entityID : EntityID) (space : option Space) (pos : Position)
    (data : LoadedData) (err : error) (w : World) :
  let x := loadEntityLocally_callback typeName entityID space pos data (Some err) w in
  outcomeOf x = Panics (gwlog_panic_value "load entity failed")
  ∧ traceOf x = []
  ∧ List.filter is_notifyDestroy (traceOf x) = []
  ∧ worldOf x = w.
Proof.
  intros x. subst x. unfold loadEntityLocally_callback, gwlog_Panicf.
  rewrite bind_run. rewrite bind_panic. done.
Qed.

(** ** Restore *)

Section RestoreFacts.
Context `{Collaborators}.

Lemma RestoreFreezedEntities_trace freeze o1 o2 o3 os w :
  traceOf (RestoreFreezedEntities freeze o1 o2 o3 os w)
  = traceOf (RestoreFreezedEntities_body freeze o1 o2 o3 os w)
  ∧ worldOf (RestoreFreezedEntities freeze o1 o2 o3 os w)
    = worldOf (RestoreFreezedEntities_body freeze o1 o2 o3 os w).
Proof.
  unfold RestoreFreezedEntities, traceOf, worldOf.
  by destruct (RestoreFreezedEntities_body _ _ _ _ _ _) as [[[?|[?|?]] ?] ?].
Qed.

Lemma RestoreFreezedEntities_outcome freeze o1 o2 o3 os w :
  outcomeOf (RestoreFreezedEntities freeze o1 o2 o3 os w)
  = match outcomeOf (RestoreFreezedEntities_body freeze o1 o2 o3 os w) with
    | Returns _ => Returns None
    | Panics (PanicError _err) => Returns (Some (errors_Wrap _err "panic during restore"))
    | Panics (PanicOther _) =>
        Panics (PanicError (errors_Errorf "interface conversion: interface {} is not error"))
    end.
Proof.
  unfold RestoreFreezedEntities, outcomeOf.
  by destruct (RestoreFreezedEntities_body _ _ _ _ _ _) as [[[?|[?|?]] ?] ?].
Qed.

End RestoreFacts.

(** C7, on the code.  The deferred function of [RestoreFreezedEntities]
    recovers every panic of the body, but it then asserts that the recovered
    value is an [error].  When the body returns the result is nil; when it
    panics with an [error] value the result is that error wrapped with
    [panic during restore]; when it panics with any other value (a string, a
    log entry) the assertion fails and [RestoreFreezedEntities] itself panics
    to its caller. *)
Theorem RestoreFreezedEntities_recover `{Collaborators}
    (freeze : option FreezeData) (o1 o2 o3 : list (EntityID * entityFreezeData))
    (os : list (string * list EntityID)) (w : World) :
  let body := RestoreFreezedEntities_body freeze o1 o2 o3 os w in
  let x := RestoreFreezedEntities freeze o1 o2 o3 os w in
  (returned (outcomeOf body) = true → outcomeOf x = Returns None)
  ∧ (∀ cause, outcomeOf body = Panics (PanicError cause) →
       outcomeOf x = Returns (Some (errors_Wrap cause "panic during restore")))
  ∧ (∀ v, outcomeOf body = Panics (PanicOther v) →
       returned (outcomeOf x) = false).
Proof.
  intros body x. subst body x. rewrite RestoreFreezedEntities_outcome.
  split_and!.
  - by destruct (outcomeOf _).
  - by intros cause ->.
  - by intros v ->.
Qed.

Lemma RestoreFreezedEntities_recover_witness :
  let run freeze order := RestoreFreezedEntities (H:=Demo.engine) freeze order order order [] in
  outcomeOf (run (Some (mkFreezeData (list_to_map Demo.snapshotNSP) ∅))
               Demo.snapshotNSP Demo.worldNSP) = Returns None
  ∧ outcomeOf (run None [] Demo.worldNSP)
    = Returns (Some (errors_Wrap
        (errors_Errorf "runtime error: invalid memory address or nil pointer dereference")
        "panic during restore"))
  ∧ returned (outcomeOf (run (Some (mkFreezeData (list_to_map Demo.snapshotBad) ∅))
                           Demo.snapshotBad Demo.worldNSP)) = false.
Proof.
  intros run.
  destruct (RestoreFreezedEntities_recover (H:=Demo.engine)
              (Some (mkFreezeData (list_to_map Demo.snapshotNSP) ∅))
              Demo.snapshotNSP Demo.snapshotNSP Demo.snapshotNSP [] Demo.worldNSP)
    as (Hret & _ & _).
  destruct (RestoreFreezedEntities_recover (H:=Demo.engine)
              None [] [] [] [] Demo.worldNSP) as (_ & Herr & _).
  destruct (RestoreFreezedEntities_recover (H:=Demo.engine)
              (Some (mkFreezeData (list_to_map Demo.snapshotBad) ∅))
              Demo.snapshotBad Demo.snapshotBad Demo.snapshotBad [] Demo.worldNSP)
    as (_ & _ & Hother).
  split_and!.
  - apply Hret. vm_compute. reflexivity.
  - apply Herr. reflexivity.
  - apply (Hother "corrupt attributes"). vm_compute. reflexivity.
Defined.

Section RestoreCalls.
Context `{Collaborators}.

Lemma makesCalls_bind {A B} (m : M A) (k : A → M B) e1 e2 :
  makesCalls m e1 → (∀ a, makesCalls (k a) e2) → makesCalls (m ≫= k) (e1 ++ e2).
Proof.
  intros Hm Hk w. destruct (Hm w) as [Hpre Hall].
  rewrite bind_trace, bind_outcome, createCalls_app.
  destruct (outcomeOf (m w)) as [a|v] eqn:Hout.
  - rewrite (Hall eq_refl). destruct (Hk a (worldOf (m w))) as [Hpre' Hall'].
    split.
    + by apply prefix_app.
    + intros Hret. by rewrite Hall'.
  - simpl. rewrite app_nil_r. split; [|done].
    by apply prefix_app_r.
Qed.

Lemma makesCalls_silent {A} (m : M A) :
  emits (λ ev, createCalls [ev] = []) m → makesCalls m [].
Proof.
  intros Hm w. rewrite (createCalls_nil_Forall _ (Hm w)). done.
Qed.

Lemma makesCalls_forEach {A} (l : list A) (body : A → M unit) (calls : A → list _) :
  (∀ x, makesCalls (body x) (calls x)) →
  makesCalls (forEach l body) (mjoin (calls <$> l)).
Proof.
  intros Hb. induction l as [|x l IH].
  - apply makesCalls_silent, emits_ret.
  - simpl. apply makesCalls_bind; [apply Hb | intros _; apply IH].
Qed.

Lemma makesCalls_createEntity typeName space pos entityID data timerData client_ cause :
  makesCalls (createEntity typeName space pos entityID data timerData client_ cause)
    [(typeName, entityID, cause)].
Proof. intros w. by rewrite createEntity_createCalls. Qed.

Lemma passFilter_space p info kind :
  Type_ info = SPACE_ENTITY_TYPE → spaceKindOf info = Returns kind →
  passFilter p (Type_ info) kind = inPhase p info.
Proof.
  intros Hty Hkind.
  destruct p; simpl; unfold filterNilSpace, filterOtherSpaces, filterNonSpaces;
    rewrite ?Hkind.
  - rewrite (bool_decide_eq_true_2 _ Hty). simpl.
    destruct (Z.eqb_spec kind 0) as [->|Hne].
    + by rewrite bool_decide_eq_true_2.
    + rewrite bool_decide_eq_false_2; [done|]. intros [= ->]. done.
  - rewrite (bool_decide_eq_true_2 _ Hty). simpl.
    destruct (Z.eqb_spec kind 0) as [->|Hne]; simpl.
    + done.
    + by rewrite bool_decide_eq_true_2.
  - rewrite (bool_decide_eq_true_2 _ Hty). simpl.
    rewrite bool_decide_eq_false_2; [done|]. intros Hx. by apply Hx.
Qed.

Lemma passFilter_nonspace p info :
  Type_ info ≠ SPACE_ENTITY_TYPE →
  passFilter p (Type_ info) 0 = inPhase p info.
Proof.
  intros Hty.
  destruct p; simpl; unfold filterNilSpace, filterOtherSpaces, filterNonSpaces.
  - by rewrite (bool_decide_eq_false_2 _ Hty).
  - by rewrite (bool_decide_eq_false_2 _ Hty).
  - rewrite (bool_decide_eq_false_2 _ Hty). simpl. by rewrite bool_decide_eq_true_2.
Qed.

Lemma inPhase_kind_panics p info v :
  Type_ info = SPACE_ENTITY_TYPE → spaceKindOf info = Panics v →
  inPhase p info = false.
Proof.
  intros Hty Hkind. destruct p; simpl; rewrite ?Hkind.
  - rewrite (bool_decide_eq_true_2 _ Hty). done.
  - by rewrite andb_false_r.
  - rewrite bool_decide_eq_false_2; [done|]. intros Hx. by apply Hx.
Qed.

(** One selected entry: a single [createEntity] call, with cause Restore. *)
Lemma restoreEntity_selected_calls (eid : EntityID) (info : entityFreezeData) :
  makesCalls
    (em ← getManager;
     let space :=
       if bool_decide (Type_ info ≠ SPACE_ENTITY_TYPE)
       then spaceManager_getSpace (entities em) (SpaceID_ info)
       else None in
     let client_ := (λ c, MakeGameClient (ClientID_ c) (GateID_ c)) <$> Client info in
     createEntity (Type_ info) space (Pos info) eid (Attrs info) (TimerData info)
       client_ ccRestore ;;
     emit (EvLog "Restored") ;;
     match ESR info with
     | Some esr => emit (EvPostEnterSpace eid (ESR_SpaceID esr) (ESR_EnterPos esr))
     | None => ret tt
     end)
    [(Type_ info, eid, ccRestore)].
Proof.
  apply (makesCalls_bind _ _ [] [_]); [apply makesCalls_silent, emits_getManager|].
  intros em. apply (makesCalls_bind _ _ [_] []); [apply makesCalls_createEntity|].
  intros _. apply makesCalls_silent. emits_tac; done.
Qed.

Lemma restoreEntity_calls p entry :
  makesCalls (restoreEntity (passFilter p) entry)
    (if inPhase p entry.2 then [(Type_ entry.2, entry.1, ccRestore)] else []).
Proof.
  destruct entry as [eid info]. unfold restoreEntity. simpl.
  destruct (decide (Type_ info = SPACE_ENTITY_TYPE)) as [Hty|Hty].
  - (* a space: the kind is read from the attributes *)
    rewrite (bool_decide_eq_true_2 _ Hty). fold (spaceKindOf info).
    destruct (spaceKindOf info) as [kind|v] eqn:Hkind.
    + rewrite <- (passFilter_space p info kind Hty Hkind).
      intros w. rewrite bind_run. unfold liftOutcome at 1 2 3.
      unfold outcomeOf at 1 4, worldOf at 1, traceOf at 1 3. simpl.
      rewrite after_nil. revert w.
      destruct (passFilter p (Type_ info) kind).
      * apply restoreEntity_selected_calls.
      * apply makesCalls_silent, emits_ret.
    + rewrite (inPhase_kind_panics p info v Hty Hkind).
      intros w. rewrite bind_run. done.
  - (* not a space: the kind is 0 *)
    rewrite (bool_decide_eq_false_2 _ Hty).
    rewrite <- (passFilter_nonspace p info Hty).
    intros w. rewrite bind_ret. revert w.
    destruct (passFilter p (Type_ info) 0).
    + apply restoreEntity_selected_calls.
    + apply makesCalls_silent, emits_ret.
Qed.

Lemma phaseCalls_join p order :
  mjoin ((λ entry, if inPhase p entry.2
                   then [(Type_ entry.2, entry.1, ccRestore)] else []) <$> order)
  = phaseCalls p order.
Proof.
  unfold phaseCalls. induction order as [|entry order IH]; [done|].
  rewrite fmap_cons. change (mjoin (?x :: ?l)) with (x ++ mjoin l). rewrite IH.
  simpl. by destruct (inPhase p entry.2).
Qed.

Lemma restoreEntities_calls p order :
  makesCalls (restoreEntities order (passFilter p)) (phaseCalls p order).
Proof.
  unfold restoreEntities. rewrite <- phaseCalls_join.
  apply makesCalls_forEach. intros entry. apply restoreEntity_calls.
Qed.

Lemma restoreService_silent entry : emits (λ ev, createCalls [ev] = []) (restoreService entry).
Proof. destruct entry. apply emits_modifyManager. Qed.

Lemma RestoreFreezedEntities_body_calls freeze o1 o2 o3 os :
  makesCalls (RestoreFreezedEntities_body (Some freeze) o1 o2 o3 os)
    (phaseCalls NilSpacePhase o1 ++ phaseCalls OtherSpacesPhase o2
     ++ phaseCalls NonSpacesPhase o3).
Proof.
  unfold RestoreFreezedEntities_body.
  apply makesCalls_bind; [apply (restoreEntities_calls NilSpacePhase)|intros _].
  apply makesCalls_bind; [apply (restoreEntities_calls OtherSpacesPhase)|intros _].
  rewrite <- (app_nil_r (phaseCalls NonSpacesPhase o3)).
  apply makesCalls_bind; [apply (restoreEntities_calls NonSpacesPhase)|intros _].
  apply makesCalls_silent, emits_forEach. apply restoreService_silent.
Qed.

Lemma phaseCalls_cause p order : Forall (λ c, c.2 = ccRestore) (phaseCalls p order).
Proof.
  unfold phaseCalls. apply Forall_fmap, Forall_forall. done.
Qed.

Lemma phaseCalls_elem p order eid info :
  (eid, info) ∈ order → inPhase p info = true →
  (Type_ info, eid, ccRestore) ∈ phaseCalls p order.
Proof.
  intros Hin Hp. unfold phaseCalls.
  apply (list_elem_of_fmap_2 (λ entry, (Type_ entry.2, entry.1, ccRestore)) _ (eid, info)).
  apply list_elem_of_In, List.filter_In. split; [by apply list_elem_of_In|done].
Qed.

End RestoreCalls.

(** C1.  [RestoreFreezedEntities] makes its [createEntity] calls in three
    passes over the snapshot's entities, in this order: the entries of the
    space type with kind 0 (the nil-space), then the entries of the space type
    with another kind, then the entries of any other type; each pass takes the
    entries in the order in which it visits the map.  Every call has cause
    Restore.  A run that returns nil has made all these calls; a run that
    panics on the way has made an initial part of them.  When a pass visits
    the entries of the snapshot, every entry of its phase is among its
    calls. *)
Theorem RestoreFreezedEntities_three_passes `{Collaborators}
    (freeze : FreezeData) (o1 o2 o3 : list (EntityID * entityFreezeData))
    (os : list (string * list EntityID)) (w : World) :
  let x := RestoreFreezedEntities (Some freeze) o1 o2 o3 os w in
  let expected :=
    phaseCalls NilSpacePhase o1 ++ phaseCalls OtherSpacesPhase o2
    ++ phaseCalls NonSpacesPhase o3 in
  createCalls (traceOf x) `prefix_of` expected
  ∧ (outcomeOf x = Returns None → createCalls (traceOf x) = expected)
  ∧ Forall (λ c, c.2 = ccRestore) (createCalls (traceOf x))
  ∧ (∀ p o eid info,
       o ≡ₚ map_to_list (Entities freeze) →
       Entities freeze !! eid = Some info →
       inPhase p info = true →
       (Type_ info, eid, ccRestore) ∈ phaseCalls p o).
Proof.
  intros x expected. subst x.
  destruct (RestoreFreezedEntities_trace (Some freeze) o1 o2 o3 os w) as [-> _].
  rewrite RestoreFreezedEntities_outcome.
  destruct (RestoreFreezedEntities_body_calls freeze o1 o2 o3 os w) as [Hpre Hall].
  fold expected in Hpre, Hall.
  split_and!.
  - exact Hpre.
  - intros Hnil. apply Hall.
    destruct (outcomeOf _) as [?|[?|?]]; done.
  - destruct Hpre as [k Hk].
    assert (Forall (λ c, c.2 = ccRestore) expected) as Hexp.
    { subst expected. rewrite !Forall_app. split_and!; apply phaseCalls_cause. }
    rewrite Hk in Hexp. by apply Forall_app in Hexp as [? _].
  - intros p o eid info Hperm Hlook Hp.
    apply phaseCalls_elem; [|done].
    rewrite Hperm. by apply elem_of_map_to_list.
Qed.

Lemma RestoreFreezedEntities_three_passes_witness :
  let x := RestoreFreezedEntities (H:=Demo.engine)
             (Some (mkFreezeData (list_to_map Demo.snapshotNSP) ∅))
             Demo.snapshotNSP Demo.snapshotNSP Demo.snapshotNSP [] Demo.worldNSP in
  createCalls (traceOf x)
  = [("__space__", "N", ccRestore); ("__space__", "S", ccRestore); ("Player", "P", ccRestore)]
  ∧ ("Player", "P", ccRestore) ∈ phaseCalls (H:=Demo.engine) NonSpacesPhase Demo.snapshotNSP.
Proof.
  intros x.
  destruct (RestoreFreezedEntities_three_passes (H:=Demo.engine)
              (mkFreezeData (list_to_map Demo.snapshotNSP) ∅)
              Demo.snapshotNSP Demo.snapshotNSP Demo.snapshotNSP [] Demo.worldNSP)
    as (_ & Hall & _ & Hin).
  split.
  - apply Hall. vm_compute. reflexivity.
  - apply (Hin NonSpacesPhase Demo.snapshotNSP "P" (Demo.info "Player" (Some ∅) "S")).
    + symmetry. apply map_to_list_to_map.
      apply (bool_decide_unpack _). vm_compute. reflexivity.
    + vm_compute. reflexivity.
    + vm_compute. reflexivity.
Defined.

(** ** Choosing a service provider *)

Section ChooseFacts.
Context `{Collaborators}.

Lemma chooseServiceProvider_loop_lookup order r :
  0 ≤ r →
  chooseServiceProvider_loop r order = order !! Z.to_nat r.
Proof.
  revert r. induction order as [|eid rest IH]; intros r Hr; [done|].
  simpl. destruct (Z.eqb_spec r 0) as [->|Hne]; [done|].
  rewrite IH by lia.
  replace (Z.to_nat r) with (S (Z.to_nat (r - 1))) by lia. done.
Qed.

Lemma chooseServiceProvider_known serviceName r order w eids :
  registeredServices (entityManager w) !! serviceName = Some eids →
  eids ≠ ∅ →
  chooseServiceProvider serviceName r order w
  = (Returns (default "" (chooseServiceProvider_loop r order)), w, []).
Proof.
  intros Hreg Hne. unfold chooseServiceProvider.
  rewrite bind_getManager, Hreg, bind_ret.
  unfold rand_Intn.
  assert (size eids ≠ 0%nat) as Hsize.
  { intros Hs. by apply size_empty_iff, leibniz_equiv in Hs. }
  destruct (Z.leb_spec (Z.of_nat (size eids)) 0) as [Hle|Hgt]; [lia|].
  by rewrite bind_ret.
Qed.

Lemma chooseServiceProvider_unknown serviceName r order w :
  registeredServices (entityManager w) !! serviceName = None →
  chooseServiceProvider serviceName r order w
  = (Panics (gwlog_panic_value "service not found"), w, []).
Proof.
  intros Hreg. unfold chooseServiceProvider, gwlog_Panicf.
  by rewrite bind_getManager, Hreg, bind_panic.
Qed.

End ChooseFacts.

(** C8.  [chooseServiceProvider] on a service name that is not in the
    directory panics.  On a name with a non-empty provider set of size [n],
    visited in any order, a draw [r] in [0, n) makes the loop return the
    member at position [r] of the visit, from inside the loop (the trailing
    [return] is not reached), and every provider is returned for exactly one
    of the [n] draws: with a uniform draw each provider is chosen with
    probability 1/n. *)
Theorem chooseServiceProvider_uniform `{Collaborators}
    (serviceName : string) (order : list EntityID) (w : World) :
  (registeredServices (entityManager w) !! serviceName = None →
   ∀ r, returned (outcomeOf (chooseServiceProvider serviceName r order w)) = false)
  ∧ (∀ eids,
       registeredServices (entityManager w) !! serviceName = Some eids →
       eids ≠ ∅ →
       order ≡ₚ elements eids →
       let n := Z.of_nat (size eids) in
       (∀ r, 0 ≤ r < n →
          ∃ eid, chooseServiceProvider_loop r order = Some eid
                 ∧ order !! Z.to_nat r = Some eid
                 ∧ eid ∈ eids
                 ∧ outcomeOf (chooseServiceProvider serviceName r order w) = Returns eid)
       ∧ (∀ eid, eid ∈ eids →
            ∃ r, 0 ≤ r < n
                 ∧ ∀ r', 0 ≤ r' < n →
                     (outcomeOf (chooseServiceProvider serviceName r' order w) = Returns eid
                      ↔ r' = r))).
Proof.
  split.
  - intros Hreg r. by rewrite chooseServiceProvider_unknown.
  - intros eids Hreg Hne Hperm n.
    assert (length order = size eids) as Hlen.
    { rewrite Hperm. done. }
    assert (NoDup order) as Hnd.
    { rewrite Hperm. apply NoDup_elements. }
    assert (∀ r, 0 ≤ r < n →
              ∃ eid, order !! Z.to_nat r = Some eid
                     ∧ outcomeOf (chooseServiceProvider serviceName r order w) = Returns eid)
      as Hdraw.
    { intros r Hr. destruct (lookup_lt_is_Some_2 order (Z.to_nat r)) as [eid Heid]; [lia|].
      exists eid. split; [done|].
      rewrite (chooseServiceProvider_known _ _ _ _ eids) by done.
      rewrite chooseServiceProvider_loop_lookup by lia. by rewrite Heid. }
    split.
    + intros r Hr. destruct (Hdraw r Hr) as (eid & Hlook & Hout).
      exists eid. split_and!; try done.
      * by rewrite chooseServiceProvider_loop_lookup by lia.
      * apply elem_of_elements. rewrite <- Hperm. by eapply list_elem_of_lookup_2.
    + intros eid Hin.
      assert (eid ∈ order) as Hin' by (rewrite Hperm; by apply elem_of_elements).
      apply list_elem_of_lookup_1 in Hin' as [i Hi].
      pose proof (lookup_lt_Some _ _ _ Hi) as Hlt.
      exists (Z.of_nat i). split; [lia|].
      intros r' Hr'. destruct (Hdraw r' Hr') as (eid' & Hlook' & Hout').
      rewrite Hout'. split.
      * intros [= ->]. pose proof (NoDup_lookup _ _ _ _ Hnd Hi Hlook'). lia.
      * intros ->. rewrite Nat2Z.id in Hlook'. congruence.
Qed.

Lemma chooseServiceProvider_uniform_witness :
  let w := afterServiceCalls
             [DeclareCall "match" "e1"; DeclareCall "match" "e2"; DeclareCall "match" "e3"]
             initialWorld in
  let order := elements ({["e1"; "e2"; "e3"]} : gset string) in
  (∃ eid, outcomeOf (chooseServiceProvider (H:=Demo.engine) "match" 2 order w) = Returns eid
          ∧ eid ∈ ({["e1"; "e2"; "e3"]} : gset string))
  ∧ returned (outcomeOf (chooseServiceProvider (H:=Demo.engine) "chat" 0 [] w)) = false.
Proof.
  intros w order.
  destruct (chooseServiceProvider_uniform (H:=Demo.engine) "match" order w) as [_ Hknown].
  destruct (chooseServiceProvider_uniform (H:=Demo.engine) "chat" [] w) as [Hunknown _].
  split.
  - destruct (Hknown {["e1"; "e2"; "e3"]}) as [Hdraw _].
    + vm_compute. reflexivity.
    + intros Hempty. assert ("e1" ∈ (∅ : gset string)) as Hx; [|by apply not_elem_of_empty in Hx].
      rewrite <- Hempty. set_solver.
    + reflexivity.
    + destruct (Hdraw 2) as (eid & _ & _ & Hin & Hout).
      * split; [lia|]. vm_compute. reflexivity.
      * exists eid. split; [exact Hout | exact Hin].
  - apply Hunknown. vm_compute. reflexivity.
Defined.

(** ** Freeze *)

Section FreezeFacts.
Context `{Collaborators}.

Lemma nilSpacesIn_Permutation l l' :
  l ≡ₚ l' → length (nilSpacesIn l) = length (nilSpacesIn l').
Proof.
  unfold nilSpacesIn. induction 1 as [|x l l' _ IH|x y l|l1 l2 l3 _ IH1 _ IH2]; simpl.
  - done.
  - destruct (isNilSpace x.2); simpl; by rewrite IH.
  - by destruct (isNilSpace x.2), (isNilSpace y.2).
  - by rewrite IH1.
Qed.

(** The first loop: with [c] nil-spaces among the entries and [foundNilSpace]
    counted as one more, it stops with the duplicate error when there are two
    or more, and otherwise has written every entry and says whether there
    was one. *)
Lemma Freeze_entities_spec order acc found :
  Freeze_entities order acc found
  = if decide (2 ≤ length (nilSpacesIn order) + (if found then 1 else 0))%nat
    then inl (errors_Errorf "found duplicate nil space")
    else inr (freezeInfos order acc,
              bool_decide (length (nilSpacesIn order) + (if found then 1 else 0) = 1)%nat).
Proof.
  revert acc found. induction order as [|[k e] rest IH]; intros acc found.
  - simpl. destruct found; simpl; repeat case_decide; try lia; try done.
  - simpl. unfold isNilSpace.
    destruct (IsSpaceEntity e); simpl; [destruct (Space_IsNil e); simpl|].
    + destruct found.
      * rewrite decide_True by lia. done.
      * rewrite IH. unfold freezeInfos. simpl.
        repeat case_decide; try lia; try done;
          f_equal; f_equal; apply bool_decide_ext; lia.
    + rewrite IH. done.
    + rewrite IH. done.
Qed.

Lemma foldl_insert_lookup {V W} (keyOf : string * V → string) (g : V → W)
    (l : list (string * V)) (acc : gmap string W) (k : string) :
  (∀ kv, kv ∈ l → keyOf kv = kv.1) →
  NoDup l.*1 →
  foldl (λ acc kv, <[keyOf kv := g kv.2]> acc) acc l !! k
  = match (list_to_map l : gmap string V) !! k with
    | Some v => Some (g v)
    | None => acc !! k
    end.
Proof.
  revert acc. induction l as [|[k0 v0] l IH]; intros acc Hkey Hnd; [done|].
  simpl. apply NoDup_cons in Hnd as [Hnotin Hnd].
  rewrite IH; [|intros kv Hkv; apply Hkey; by right|done].
  rewrite (Hkey (k0, v0)) by left. simpl.
  destruct (decide (k = k0)) as [->|Hne].
  - rewrite lookup_insert_eq.
    rewrite (not_elem_of_list_to_map_1 l k0 Hnotin). by rewrite lookup_insert_eq.
  - rewrite !lookup_insert_ne by done. done.
Qed.

Lemma foldl_insert_fmap {V W} (keyOf : string * V → string) (g : V → W)
    (l : list (string * V)) (m : gmap string V) :
  (∀ k v, m !! k = Some v → keyOf (k, v) = k) →
  l ≡ₚ map_to_list m →
  foldl (λ acc kv, <[keyOf kv := g kv.2]> acc) ∅ l = g <$> m.
Proof.
  intros Hkey Hperm. apply map_eq. intros k.
  rewrite foldl_insert_lookup.
  - assert ((list_to_map l : gmap string V) = m) as ->.
    { rewrite (list_to_map_proper l (map_to_list m)).
      - apply list_to_map_to_list.
      - rewrite Hperm. apply NoDup_fst_map_to_list.
      - done. }
    rewrite lookup_fmap. by destruct (m !! k).
  - intros [k0 v0] Hin. apply Hkey. apply elem_of_map_to_list. by rewrite <- Hperm.
  - rewrite Hperm. apply NoDup_fst_map_to_list.
Qed.

Lemma freezeInfos_table em order :
  wellKeyed em → order ≡ₚ map_to_list (entities em) →
  freezeInfos order ∅ = GetFreezeData <$> entities em.
Proof.
  intros Hwk Hperm. unfold freezeInfos.
  apply (foldl_insert_fmap (λ kv, ID kv.2) GetFreezeData); [|done].
  intros k e Hke. by apply Hwk.
Qed.

Lemma Freeze_services_directory em order :
  order ≡ₚ map_to_list (registeredServices em) →
  Freeze_services order = EntityIDSet_ToList <$> registeredServices em.
Proof.
  intros Hperm. unfold Freeze_services.
  rewrite <- (foldl_insert_fmap (λ kv, kv.1) EntityIDSet_ToList order); [|done|done].
  clear Hperm. generalize (∅ : gmap string (list EntityID)).
  induction order as [|[n e] order IH]; intros acc; [done|].
  simpl. apply IH.
Qed.

(** [put] keeps every entity under its own id. *)
Lemma put_wellKeyed e em : wellKeyed em → wellKeyed (put e em).
Proof.
  intros Hwk k e' Hk. unfold put in Hk. simpl in Hk.
  destruct (decide (ID e = k)) as [<-|Hne].
  - rewrite lookup_insert_eq in Hk. by injection Hk as <-.
  - rewrite lookup_insert_ne in Hk by done. by apply Hwk.
Qed.

End FreezeFacts.

Lemma newEntityManager_wellKeyed : wellKeyed newEntityManager.
Proof. intros k e Hk. done. Qed.

(** C6.  [Freeze] never changes the world.  When no resident entity is the
    nil-space it returns the error [nil space not found]; when two or more
    are, it returns the error [found duplicate nil space]; when exactly one
    is, it returns the snapshot that holds the freeze data of every resident
    entity under its id and the whole service directory, whatever the order
    in which the two maps are visited. *)
Theorem Freeze_nil_space_check `{Collaborators}
    (gameid : Z) (entOrder : list (EntityID * Entity))
    (svcOrder : list (string * EntityIDSet)) (w : World) :
  entOrder ≡ₚ map_to_list (entities (entityManager w)) →
  let x := Freeze gameid entOrder svcOrder w in
  let n := length (residentNilSpaces (entityManager w)) in
  worldOf x = w
  ∧ (n = 0%nat →
     outcomeOf x = Returns (None, Some (errors_Errorf "nil space not found")))
  ∧ ((2 ≤ n)%nat →
     outcomeOf x = Returns (None, Some (errors_Errorf "found duplicate nil space")))
  ∧ (n = 1%nat →
     svcOrder ≡ₚ map_to_list (registeredServices (entityManager w)) →
     wellKeyed (entityManager w) →
     outcomeOf x = Returns (Some (snapshotOf (entityManager w)), None)).
Proof.
  intros Hperm x n.
  assert (length (nilSpacesIn entOrder) = n) as Hn.
  { subst n. unfold residentNilSpaces. by apply nilSpacesIn_Permutation. }
  subst x. unfold Freeze. rewrite Freeze_entities_spec, Hn, Nat.add_0_r.
  case_decide as H2.
  - split_and!; try done; intros; lia.
  - case_bool_decide as H1; simpl.
    + split_and!; try done; try (intros; lia).
      intros _ Hsvc Hwk. unfold snapshotOf.
      by rewrite (freezeInfos_table _ _ Hwk Hperm), (Freeze_services_directory _ _ Hsvc).
    + split_and!; try done; intros; lia.
Qed.

Lemma Freeze_nil_space_check_witness :
  let one := Demo.worldOf_manager Demo.managerOne in
  let two := Demo.worldOf_manager Demo.managerTwo in
  let freeze w := Freeze (H:=Demo.engine) 1
                    (map_to_list (entities (entityManager w)))
                    (map_to_list (registeredServices (entityManager w))) w in
  outcomeOf (freeze one) = Returns (Some (snapshotOf (H:=Demo.engine) Demo.managerOne), None)
  ∧ outcomeOf (freeze two)
    = Returns (None, Some (errors_Errorf "found duplicate nil space"))
  ∧ outcomeOf (freeze initialWorld)
    = Returns (None, Some (errors_Errorf "nil space not found"))
  ∧ worldOf (freeze two) = two.
Proof.
  intros one two freeze.
  destruct (Freeze_nil_space_check (H:=Demo.engine) 1
              (map_to_list (entities (entityManager one)))
              (map_to_list (registeredServices (entityManager one))) one
              (reflexivity _)) as (_ & _ & _ & Hone).
  destruct (Freeze_nil_space_check (H:=Demo.engine) 1
              (map_to_list (entities (entityManager two)))
              (map_to_list (registeredServices (entityManager two))) two
              (reflexivity _)) as (Hsame & _ & Htwo & _).
  destruct (Freeze_nil_space_check (H:=Demo.engine) 1
              (map_to_list (entities (entityManager initialWorld)))
              (map_to_list (registeredServices (entityManager initialWorld))) initialWorld
              (reflexivity _)) as (_ & Hzero & _ & _).
  split_and!.
  - apply Hone.
    + vm_compute. reflexivity.
    + reflexivity.
    + unfold one, Demo.worldOf_manager, Demo.managerOne. simpl.
      unfold onDeclareService. simpl.
      intros k e Hk. eapply put_wellKeyed; [|exact Hk].
      apply put_wellKeyed. apply newEntityManager_wellKeyed.
  - apply Htwo. vm_compute. lia.
  - apply Hzero. vm_compute. reflexivity.
  - exact Hsame.
Defined.

(** ** The client ownership index *)

Section OwnershipFacts.
Context `{Collaborators}.

Lemma preserves_ret {A} I (a : A) : preserves I (ret a).
Proof. by intros w. Qed.

Lemma preserves_panic {A} I v : preserves I (panic (A:=A) v).
Proof. by intros w. Qed.

Lemma preserves_gwlog_Panicf {A} I msg : preserves I (gwlog_Panicf (A:=A) msg).
Proof. by intros w. Qed.

Lemma preserves_emit I ev : preserves I (emit ev).
Proof. by intros w. Qed.


Lemma preserves_call I ev : reactionsKeep I → preserves I (call ev).
Proof. intros HI w Hw. by apply HI. Qed.

Lemma preserves_getWorld I : preserves I getWorld.
Proof. by intros w. Qed.

Lemma preserves_getManager I : preserves I getManager.
Proof. by intros w. Qed.

Lemma preserves_modifyManager (I : World → Prop) f :
  (∀ w, I w → I (World_setManager (f (entityManager w)) w)) →
  preserves I (modifyManager f).
Proof. intros Hf w Hw. by apply Hf. Qed.

Lemma preserves_bind {A B} I (m : M A) (k : A → M B) :
  preserves I m → (∀ a, preserves I (k a)) → preserves I (m ≫= k).
Proof.
  intros Hm Hk w Hw. rewrite bind_world.
  destruct (outcomeOf (m w)); [apply Hk|]; by apply Hm.
Qed.

Lemma preserves_RunPanicless I m : preserves I m → preserves I (RunPanicless m).
Proof.
  intros Hm w Hw. specialize (Hm w Hw). unfold RunPanicless, worldOf in *.
  by destruct (m w) as [[? ?] ?].
Qed.

Lemma preserves_forEach {A} I (l : list A) body :
  (∀ x, preserves I (body x)) → preserves I (forEach l body).
Proof.
  intros Hb. induction l as [|x l IH]; simpl.
  - apply preserves_ret.
  - apply preserves_bind; [apply Hb | intros _; apply IH].
Qed.




(** An entity that owns a client in a sound index has exactly that client,
    so no other index entry names it. *)
Lemma ownersBound_one_client em cid cid' eid :
  ownersBound em →
  ownerOfClient em !! cid = Some eid → ownerOfClient em !! cid' = Some eid → cid = cid'.
Proof.
  intros Hem H1 H2.
  destruct (Hem cid eid H1) as (e & c & He & Hc & <-).
  destruct (Hem cid' eid H2) as (e' & c' & He' & Hc' & <-).
  congruence.
Qed.

Lemma ownersBound_loseClient cid em :
  ownersBound em → ownersBound (onEntityLoseClient cid em).
Proof.
  intros Hem cid' eid Hc'. simpl in *.
  apply lookup_delete_Some in Hc' as [_ Hc']. by apply Hem.
Qed.

(** Clearing the client field of an entity that no index entry names. *)
Lemma ownersBound_clear slot em :
  (∀ cid, ownerOfClient em !! cid ≠ Some slot) →
  ownersBound em → ownersBound (setClientField slot None em).
Proof.
  intros Hfree Hem cid eid Hc. simpl in *.
  destruct (Hem cid eid Hc) as (e & c & He & Hcl & Hid).
  exists e, c. split_and!; try done.
  rewrite lookup_alter_ne; [done|]. intros <-. by apply (Hfree cid).
Qed.

(** An entity gives up the client recorded for it: index entry first, then
    the field. *)
Lemma ownersBound_unbind cid slot em :
  ownersBound em →
  ownerOfClient em !! cid = Some slot →
  ownersBound (setClientField slot None (onEntityLoseClient cid em)).
Proof.
  intros Hem Hc. apply ownersBound_clear; [|by apply ownersBound_loseClient].
  intros cid' Hc'. simpl in Hc'. apply lookup_delete_Some in Hc' as [Hne Hc'].
  apply Hne. by apply (ownersBound_one_client em cid cid' slot).
Qed.

Lemma releaseOwnClient_entities eid em :
  entities (releaseOwnClient eid em) = entities em.
Proof.
  unfold releaseOwnClient. destruct (entities em !! eid) as [e|]; [|done].
  by destruct (client e).
Qed.









Section WithReactions.
Hypothesis Hkeep : reactionsKeep (λ w, ownersBound (entityManager w)).










End WithReactions.


End OwnershipFacts.



(** * Further properties of the package *)

(** ** Attribute classification in full *)

Section DefineAttrsMore.
Context `{Collaborators}.

Lemma valid_def_cases def :
  def ∈ _VALID_ATTR_DEFS ↔ def = "client" ∨ def = "allclients" ∨ def = "persistent".
Proof.
  unfold _VALID_ATTR_DEFS. simpl.
  rewrite !elem_of_union, !elem_of_singleton. tauto.
Qed.

(** The flags after the tags of one attribute: each flag is set exactly by
    its tag, [isClient] also by [allclients]; the loop returns exactly when
    every tag is valid. *)
Lemma DefineAttrs_defs_exact attr defs a c p :
  (Forall (λ def, ToLower def ∈ _VALID_ATTR_DEFS) defs →
   DefineAttrs_defs attr defs (a, c, p)
   = Returns (a || bool_decide ("allclients" ∈ ToLower <$> defs),
              c || bool_decide ("client" ∈ ToLower <$> defs)
                || bool_decide ("allclients" ∈ ToLower <$> defs),
              p || bool_decide ("persistent" ∈ ToLower <$> defs)))
  ∧ (¬ Forall (λ def, ToLower def ∈ _VALID_ATTR_DEFS) defs →
     DefineAttrs_defs attr defs (a, c, p)
     = Panics (gwlog_panic_value "attribute: invalid property")).
Proof.
  revert a c p. induction defs as [|def rest IH]; intros a c p.
  - split.
    + intros _. simpl. by rewrite !orb_false_r.
    + intros Hno. exfalso. apply Hno. constructor.
  - cbn [DefineAttrs_defs]. rewrite fmap_cons.
    assert (∀ tag, bool_decide (tag ∈ ToLower def :: (ToLower <$> rest))
                   = bool_decide (ToLower def = tag)
                     || bool_decide (tag ∈ ToLower <$> rest)) as Hcons.
    { intros tag. apply eq_true_iff_eq.
      rewrite orb_true_iff, !bool_decide_eq_true, elem_of_cons. naive_solver. }
    destruct (decide (ToLower def ∈ _VALID_ATTR_DEFS)) as [Hvalid|Hinvalid].
    + rewrite (bool_decide_eq_true_2 _ Hvalid). cbn [negb].
      split.
      * intros Hall. apply Forall_cons in Hall as [_ Hall].
        rewrite !Hcons.
        apply valid_def_cases in Hvalid as [Hd|[Hd|Hd]]; rewrite Hd; simpl;
          rewrite (proj1 (IH _ _ _) Hall);
          destruct a, c, p; simpl; rewrite ?orb_true_r; done.
      * intros Hno.
        assert (¬ Forall (λ d, ToLower d ∈ _VALID_ATTR_DEFS) rest) as Hno'.
        { intros Hall. apply Hno. by constructor. }
        destruct (bool_decide (ToLower def = "allclients"));
          [|destruct (bool_decide (ToLower def = "client"));
             [|destruct (bool_decide (ToLower def = "persistent"))]];
          by rewrite (proj2 (IH _ _ _) Hno').
    + rewrite (bool_decide_eq_false_2 _ Hinvalid). cbn [negb].
      split; [|done].
      intros Hall. apply Forall_cons in Hall as [Hd _]. done.
Qed.

Lemma DefineAttrs_add_fields attr flags desc :
  persistentAttrs (DefineAttrs_add attr flags desc)
    = (if flags.2 then persistentAttrs desc ∪ {[attr]} else persistentAttrs desc)
  ∧ entityType (DefineAttrs_add attr flags desc) = entityType desc
  ∧ rpcDescs (DefineAttrs_add attr flags desc) = rpcDescs desc.
Proof. destruct flags as [[[] []] []]; done. Qed.

Lemma validTags_cons attr defs rest :
  validTags ((attr, defs) :: rest)
  ↔ Forall (λ def, ToLower def ∈ _VALID_ATTR_DEFS) defs ∧ validTags rest.
Proof.
  unfold validTags. split.
  - intros Hv. split.
    + apply Forall_forall. intros def Hdef. eapply Hv; [left|done].
    + intros a ds d Ha Hd. eapply Hv; [right; exact Ha|done].
  - intros [Hd Hrest] a ds d Ha Hin. apply elem_of_cons in Ha as [[= -> ->]|Ha].
    + rewrite Forall_forall in Hd. by apply Hd.
    + by eapply Hrest.
Qed.

Lemma hasTag_cons tag a attr defs rest :
  hasTag tag a ((attr, defs) :: rest)
  ↔ (a = attr ∧ tag ∈ ToLower <$> defs) ∨ hasTag tag a rest.
Proof.
  unfold hasTag. split.
  - intros (ds & Hin & Htag). apply elem_of_cons in Hin as [[= -> ->]|Hin]; eauto.
  - intros [[-> Htag]|(ds & Hin & Htag)].
    + exists defs. split; [left|done].
    + exists ds. split; [by right|done].
Qed.

Lemma DefineAttrs_returns_iff attrDefs desc :
  (DefineAttrs attrDefs desc).1 = Returns tt ↔ validTags attrDefs.
Proof.
  revert desc. induction attrDefs as [|[attr defs] rest IH]; intros desc.
  - split; [|done]. intros _ a ds d Ha. by apply elem_of_nil in Ha.
  - rewrite validTags_cons. simpl.
    destruct (decide (Forall (λ def, ToLower def ∈ _VALID_ATTR_DEFS) defs)) as [Hd|Hd].
    + rewrite (proj1 (DefineAttrs_defs_exact attr defs false false false) Hd).
      rewrite IH. tauto.
    + rewrite (proj2 (DefineAttrs_defs_exact attr defs false false false) Hd).
      simpl. split; [done|tauto].
Qed.

Lemma DefineAttrs_sets attrDefs desc desc' :
  DefineAttrs attrDefs desc = (Returns tt, desc') →
  (∀ a, a ∈ allClientAttrs desc' ↔ a ∈ allClientAttrs desc ∨ hasTag "allclients" a attrDefs)
  ∧ (∀ a, a ∈ clientAttrs desc'
          ↔ a ∈ clientAttrs desc ∨ hasTag "client" a attrDefs
            ∨ hasTag "allclients" a attrDefs)
  ∧ (∀ a, a ∈ persistentAttrs desc'
          ↔ a ∈ persistentAttrs desc ∨ hasTag "persistent" a attrDefs)
  ∧ entityType desc' = entityType desc
  ∧ rpcDescs desc' = rpcDescs desc.
Proof.
  revert desc. induction attrDefs as [|[attr defs] rest IH]; intros desc Hrun.
  - injection Hrun as <-. split_and!; try done; intros a; unfold hasTag;
      split; try tauto; intros Hx; decompose [or] Hx; try done;
      match goal with Hy : ∃ _, _ |- _ => destruct Hy as (? & Hy & _); by apply elem_of_nil in Hy end.
  - simpl in Hrun.
    destruct (decide (Forall (λ def, ToLower def ∈ _VALID_ATTR_DEFS) defs)) as [Hd|Hd].
    2:{ by rewrite (proj2 (DefineAttrs_defs_exact attr defs false false false) Hd) in Hrun. }
    rewrite (proj1 (DefineAttrs_defs_exact attr defs false false false) Hd) in Hrun.
    simpl in Hrun. apply IH in Hrun as (Ha & Hc & Hp & Ht & Hr).
    destruct (DefineAttrs_add_sets attr
                (bool_decide ("allclients" ∈ ToLower <$> defs),
                 bool_decide ("client" ∈ ToLower <$> defs)
                 || bool_decide ("allclients" ∈ ToLower <$> defs),
                 bool_decide ("persistent" ∈ ToLower <$> defs)) desc) as [Ea Ec].
    destruct (DefineAttrs_add_fields attr
                (bool_decide ("allclients" ∈ ToLower <$> defs),
                 bool_decide ("client" ∈ ToLower <$> defs)
                 || bool_decide ("allclients" ∈ ToLower <$> defs),
                 bool_decide ("persistent" ∈ ToLower <$> defs)) desc) as (Ep & Et & Er).
    simpl in Ea, Ec, Ep.
    split_and!.
    + intros a. rewrite Ha, Ea, hasTag_cons.
      destruct (decide ("allclients" ∈ ToLower <$> defs)) as [Ht1|Ht1];
        [rewrite (bool_decide_eq_true_2 _ Ht1) | rewrite (bool_decide_eq_false_2 _ Ht1)];
        rewrite ?elem_of_union, ?elem_of_singleton; tauto.
    + intros a. rewrite Hc, Ec, !hasTag_cons.
      destruct (decide ("allclients" ∈ ToLower <$> defs)) as [Ht1|Ht1];
        [rewrite (bool_decide_eq_true_2 _ Ht1) | rewrite (bool_decide_eq_false_2 _ Ht1)];
        (destruct (decide ("client" ∈ ToLower <$> defs)) as [Ht2|Ht2];
         [rewrite (bool_decide_eq_true_2 _ Ht2) | rewrite (bool_decide_eq_false_2 _ Ht2)]);
        simpl; rewrite ?elem_of_union, ?elem_of_singleton; tauto.
    + intros a. rewrite Hp, Ep, hasTag_cons.
      destruct (decide ("persistent" ∈ ToLower <$> defs)) as [Ht1|Ht1];
        [rewrite (bool_decide_eq_true_2 _ Ht1) | rewrite (bool_decide_eq_false_2 _ Ht1)];
        rewrite ?elem_of_union, ?elem_of_singleton; tauto.
    + etrans; [exact Ht | exact Et].
    + etrans; [exact Hr | exact Er].
Qed.

Lemma hasTag_Permutation tag a l l' : l ≡ₚ l' → hasTag tag a l ↔ hasTag tag a l'.
Proof.
  intros Hperm. unfold hasTag. split; intros (ds & Hin & Htag); exists ds; split; try done.
  - by rewrite <- Hperm.
  - by rewrite Hperm.
Qed.

Lemma EntityTypeDesc_eq d1 d2 :
  entityType d1 = entityType d2 → rpcDescs d1 = rpcDescs d2 →
  (∀ a, a ∈ allClientAttrs d1 ↔ a ∈ allClientAttrs d2) →
  (∀ a, a ∈ clientAttrs d1 ↔ a ∈ clientAttrs d2) →
  (∀ a, a ∈ persistentAttrs d1 ↔ a ∈ persistentAttrs d2) →
  d1 = d2.
Proof.
  destruct d1, d2. simpl. intros -> -> Ha Hc Hp.
  f_equal; apply set_eq; done.
Qed.

End DefineAttrsMore.

(** X1.  A [DefineAttrs] call returns exactly when every tag of the map is,
    in lower case, one of [client], [allclients], [persistent]; otherwise it
    panics.  After a call that returns, an attribute is in [allClientAttrs]
    iff it was there or carries [allclients]; in [clientAttrs] iff it was
    there or carries [client] or [allclients]; in [persistentAttrs] iff it was
    there or carries [persistent]; the type and the RPC table are as
    before. *)
Theorem DefineAttrs_classifies `{Collaborators}
    (attrDefs : list (string * list string)) (desc : EntityTypeDesc) :
  let r := DefineAttrs attrDefs desc in
  (r.1 = Returns tt ↔ validTags attrDefs)
  ∧ (validTags attrDefs →
     (∀ a, a ∈ allClientAttrs r.2
           ↔ a ∈ allClientAttrs desc ∨ hasTag "allclients" a attrDefs)
     ∧ (∀ a, a ∈ clientAttrs r.2
             ↔ a ∈ clientAttrs desc ∨ hasTag "client" a attrDefs
               ∨ hasTag "allclients" a attrDefs)
     ∧ (∀ a, a ∈ persistentAttrs r.2
             ↔ a ∈ persistentAttrs desc ∨ hasTag "persistent" a attrDefs)
     ∧ entityType r.2 = entityType desc
     ∧ rpcDescs r.2 = rpcDescs desc).
Proof.
  intros r. split; [apply DefineAttrs_returns_iff|].
  intros Hv. apply DefineAttrs_sets.
  apply (DefineAttrs_returns_iff attrDefs desc) in Hv. subst r.
  destruct (DefineAttrs attrDefs desc) as [o d]. simpl in *. by subst o.
Qed.

Lemma DefineAttrs_classifies_witness :
  let r := DefineAttrs (H:=Demo.engine)
             [("hp", ["Persistent"; "CLIENT"]); ("name", ["AllClients"])]
             (mkEntityTypeDesc "Player" ∅ ∅ ∅ ∅) in
  r.1 = Returns tt
  ∧ ("name" ∈ clientAttrs r.2 ↔ True)
  ∧ ("hp" ∈ allClientAttrs r.2 ↔ False).
Proof.
  intros r.
  destruct (DefineAttrs_classifies (H:=Demo.engine)
              [("hp", ["Persistent"; "CLIENT"]); ("name", ["AllClients"])]
              (mkEntityTypeDesc "Player" ∅ ∅ ∅ ∅)) as [Hret Hsets].
  assert (validTags [("hp", ["Persistent"; "CLIENT"]); ("name", ["AllClients"])]) as Hv.
  { apply Hret. vm_compute. reflexivity. }
  destruct (Hsets Hv) as (Ha & Hc & _).
  split_and!.
  - vm_compute. reflexivity.
  - split; [done|]. intros _. apply Hc. right. right.
    exists ["AllClients"]. split; [right; left|left].
  - split; [|done]. intros Hin. apply Ha in Hin as [Hin|(ds & Hin & Htag)].
    + by apply not_elem_of_empty in Hin.
    + apply elem_of_cons in Hin as [[= ->]|Hin].
      * vm_compute in Htag. repeat (apply elem_of_cons in Htag as [Htag|Htag]; [done|]).
        by apply elem_of_nil in Htag.
      * apply elem_of_cons in Hin as [[=]|Hin]. by apply elem_of_nil in Hin.
Defined.

(** X2.  For a valid tag map the descriptor after [DefineAttrs] does not
    depend on the order in which the map is visited, and calling
    [DefineAttrs] again with the same map changes nothing. *)
Theorem DefineAttrs_order_and_repeat `{Collaborators}
    (attrDefs attrDefs' : list (string * list string)) (desc : EntityTypeDesc) :
  validTags attrDefs →
  attrDefs' ≡ₚ attrDefs →
  DefineAttrs attrDefs' desc = DefineAttrs attrDefs desc
  ∧ DefineAttrs attrDefs' (DefineAttrs attrDefs desc).2 = DefineAttrs attrDefs desc.
Proof.
  intros Hv Hperm.
  assert (validTags attrDefs') as Hv'.
  { intros a ds d Ha Hd. eapply Hv; [|done]. by rewrite <- Hperm. }
  assert (∀ l d, validTags l → DefineAttrs l d = (Returns tt, (DefineAttrs l d).2)) as Hret.
  { intros l d Hl. apply (DefineAttrs_returns_iff l d) in Hl.
    destruct (DefineAttrs l d) as [o d']. simpl in *. by subst o. }
  pose proof (DefineAttrs_sets _ _ _ (Hret attrDefs desc Hv)) as (Ha & Hc & Hp & Ht & Hr).
  pose proof (DefineAttrs_sets _ _ _ (Hret attrDefs' desc Hv')) as (Ha' & Hc' & Hp' & Ht' & Hr').
  pose proof (DefineAttrs_sets _ _ _ (Hret attrDefs' (DefineAttrs attrDefs desc).2 Hv'))
    as (Ha2 & Hc2 & Hp2 & Ht2 & Hr2).
  split.
  - rewrite (Hret attrDefs' desc Hv'), (Hret attrDefs desc Hv). f_equal.
    apply EntityTypeDesc_eq; try congruence; intros a.
    + rewrite Ha, Ha'. by rewrite (hasTag_Permutation _ _ _ _ Hperm).
    + rewrite Hc, Hc'. by rewrite !(hasTag_Permutation _ _ _ _ Hperm).
    + rewrite Hp, Hp'. by rewrite (hasTag_Permutation _ _ _ _ Hperm).
  - rewrite (Hret attrDefs' _ Hv').
    etrans; [|symmetry; apply (Hret attrDefs desc Hv)]. f_equal.
    apply EntityTypeDesc_eq; try congruence; intros a.
    + rewrite Ha2, Ha. rewrite (hasTag_Permutation _ _ _ _ Hperm). tauto.
    + rewrite Hc2, Hc. rewrite !(hasTag_Permutation _ _ _ _ Hperm). tauto.
    + rewrite Hp2, Hp. rewrite (hasTag_Permutation _ _ _ _ Hperm). tauto.
Qed.

Lemma DefineAttrs_order_and_repeat_witness :
  let m := [("hp", ["persistent"; "client"]); ("name", ["AllClients"])] in
  let m' := [("name", ["AllClients"]); ("hp", ["persistent"; "client"])] in
  let desc := mkEntityTypeDesc "Player" ∅ ∅ ∅ ∅ in
  DefineAttrs (H:=Demo.engine) m' desc = DefineAttrs (H:=Demo.engine) m desc
  ∧ DefineAttrs (H:=Demo.engine) m' (DefineAttrs (H:=Demo.engine) m desc).2
    = DefineAttrs (H:=Demo.engine) m desc.
Proof.
  intros m m' desc.
  apply (DefineAttrs_order_and_repeat (H:=Demo.engine) m m' desc).
  - apply (DefineAttrs_returns_iff (H:=Demo.engine) m desc). vm_compute. reflexivity.
  - apply Permutation_swap.
Defined.

(** ** Registration *)

(** X3.  [RegisterEntity] of a type name that is already registered panics
    and leaves the registry as it is.  Of a new type name it returns a
    descriptor with the prototype's type, the RPC table of all the methods
    visited in order and three empty attribute sets, stores it under the
    name without touching the other names or the entity manager; and a
    second registration of the name then panics. *)
Theorem RegisterEntity_once `{Collaborators}
    (typeName : string) (entityPtr entityPtr' : IEntity) (w : World) :
  let x := RegisterEntity typeName entityPtr w in
  let desc := mkEntityTypeDesc (protoType entityPtr)
                (foldl RpcDescMap_visit ∅ (protoMethods entityPtr)) ∅ ∅ ∅ in
  (is_Some (registeredEntityTypes w !! typeName) →
   outcomeOf x = Panics (gwlog_panic_value "RegisterEntity: Entity type already registered")
   ∧ worldOf x = w)
  ∧ (registeredEntityTypes w !! typeName = None →
     outcomeOf x = Returns desc
     ∧ registeredEntityTypes (worldOf x) = <[typeName := desc]> (registeredEntityTypes w)
     ∧ entityManager (worldOf x) = entityManager w
     ∧ returned (outcomeOf (RegisterEntity typeName entityPtr' (worldOf x))) = false
     ∧ worldOf (RegisterEntity typeName entityPtr' (worldOf x)) = worldOf x).
Proof.
  intros x desc.
  assert (∀ p w0, is_Some (registeredEntityTypes w0 !! typeName) →
            RegisterEntity typeName p w0
            = (Panics (gwlog_panic_value "RegisterEntity: Entity type already registered"),
               w0, [])) as Hdup.
  { intros p w0 Hreg. unfold RegisterEntity. rewrite bind_getWorld.
    rewrite (bool_decide_eq_true_2 _ Hreg). reflexivity. }
  split.
  - intros Hreg. subst x. by rewrite Hdup.
  - intros Hnew. subst x.
    assert (RegisterEntity typeName entityPtr w
            = (Returns desc,
               World_setTypes (<[typeName := desc]> (registeredEntityTypes w)) w,
               [EvLog "RegisterEntity"])) as Hrun.
    { unfold RegisterEntity. rewrite bind_getWorld.
      rewrite bool_decide_eq_false_2 by (rewrite Hnew; by intros [? ?]).
      reflexivity. }
    rewrite Hrun. unfold outcomeOf, worldOf. simpl.
    split_and!; try done.
    + rewrite Hdup; [done|]. simpl. rewrite lookup_insert_eq. eauto.
    + rewrite Hdup; [done|]. simpl. rewrite lookup_insert_eq. eauto.
Qed.

Lemma RegisterEntity_once_witness :
  let x := RegisterEntity (H:=Demo.engine) "Monster" (mkIEntity "Monster" ["Attack"])
             Demo.worldNSP in
  let y := RegisterEntity (H:=Demo.engine) "Player" (mkIEntity "Player" []) Demo.worldNSP in
  returned (outcomeOf x) = true
  ∧ returned (outcomeOf (RegisterEntity (H:=Demo.engine) "Monster"
                           (mkIEntity "Other" []) (worldOf x))) = false
  ∧ worldOf y = Demo.worldNSP.
Proof.
  intros x y.
  destruct (RegisterEntity_once (H:=Demo.engine) "Monster" (mkIEntity "Monster" ["Attack"])
              (mkIEntity "Other" []) Demo.worldNSP) as [_ Hnew].
  destruct (RegisterEntity_once (H:=Demo.engine) "Player" (mkIEntity "Player" [])
              (mkIEntity "Player" []) Demo.worldNSP) as [Hdup _].
  destruct Hnew as (Hret & _ & _ & Hagain & _); [vm_compute; reflexivity|].
  destruct Hdup as [_ Hw]; [vm_compute; eauto|].
  split_and!; [unfold x; by rewrite Hret | exact Hagain | exact Hw].
Defined.

(** ** The service directory in use *)

Section ServiceMore.
Context `{Collaborators}.

Lemma GetServiceProviders_declare n e em n' e' :
  e' ∈ GetServiceProviders n' (onDeclareService n e em)
  ↔ (n' = n ∧ e' = e) ∨ e' ∈ GetServiceProviders n' em.
Proof.
  unfold GetServiceProviders. rewrite onDeclareService_lookup.
  case_decide as Hn.
  - subst n'. simpl. rewrite elem_of_union, elem_of_singleton. tauto.
  - split; [tauto|]. intros [[Hx _]|Hx]; [by subst|done].
Qed.

Lemma GetServiceProviders_undeclare n e em n' e' :
  e' ∈ GetServiceProviders n' (onUndeclareService n e em)
  ↔ e' ∈ GetServiceProviders n' em ∧ ¬ (n' = n ∧ e' = e).
Proof.
  unfold GetServiceProviders. rewrite onUndeclareService_lookup.
  case_decide as Hn.
  - subst n'. destruct (registeredServices em !! n) as [eids|]; simpl.
    + rewrite elem_of_difference, elem_of_singleton. tauto.
    + split; [intros Hx; by apply not_elem_of_empty in Hx | tauto].
  - split; [|tauto]. intros Hx. split; [done|]. intros [-> _]. done.
Qed.

End ServiceMore.

(** X4.  After [onDeclareService(n, e)] the providers of a service are the
    ones before, and [e] for the service [n].  After [onUndeclareService(n, e)]
    they are the ones before without [e] for the service [n].  Neither call
    touches the entity table or the ownership index, [onUndeclareService]
    neither adds nor removes a service name, and on a name that is not in the
    directory it changes nothing at all. *)
Theorem service_providers_after_calls
    (n : string) (e : EntityID) (em : EntityManager) (n' : string) (e' : EntityID) :
  (e' ∈ GetServiceProviders n' (onDeclareService n e em)
   ↔ (n' = n ∧ e' = e) ∨ e' ∈ GetServiceProviders n' em)
  ∧ (e' ∈ GetServiceProviders n' (onUndeclareService n e em)
     ↔ e' ∈ GetServiceProviders n' em ∧ ¬ (n' = n ∧ e' = e))
  ∧ entities (onDeclareService n e em) = entities em
  ∧ ownerOfClient (onDeclareService n e em) = ownerOfClient em
  ∧ entities (onUndeclareService n e em) = entities em
  ∧ ownerOfClient (onUndeclareService n e em) = ownerOfClient em
  ∧ dom (registeredServices (onUndeclareService n e em)) = dom (registeredServices em)
  ∧ (registeredServices em !! n = None → onUndeclareService n e em = em).
Proof.
  split_and!.
  - apply GetServiceProviders_declare.
  - apply GetServiceProviders_undeclare.
  - unfold onDeclareService. by destruct (registeredServices em !! n).
  - unfold onDeclareService. by destruct (registeredServices em !! n).
  - unfold onUndeclareService. by destruct (registeredServices em !! n).
  - unfold onUndeclareService. by destruct (registeredServices em !! n).
  - apply set_eq. intros k. rewrite !elem_of_dom, onUndeclareService_lookup.
    case_decide as Hk; [|done]. subst k.
    destruct (registeredServices em !! n); simpl; split; intros [? ?]; eauto; done.
  - intros Hn. unfold onUndeclareService. by rewrite Hn.
Qed.

Lemma service_providers_after_calls_witness :
  onUndeclareService "chat" "e1" Demo.managerOne = Demo.managerOne
  ∧ ("p1" ∈ GetServiceProviders "match" (onUndeclareService "match" "p1" Demo.managerOne)
     ↔ "p1" ∈ GetServiceProviders "match" Demo.managerOne
       ∧ ¬ ("match" = "match" ∧ "p1" = "p1")).
Proof.
  destruct (service_providers_after_calls "chat" "e1" Demo.managerOne "chat" "e1")
    as (_ & _ & _ & _ & _ & _ & _ & Hnone).
  destruct (service_providers_after_calls "match" "p1" Demo.managerOne "match" "p1")
    as (_ & Hun & _).
  split; [apply Hnone; vm_compute; reflexivity | exact Hun].
Defined.

(** X5.  [chooseServiceProvider] on a service name that is in the directory
    with an empty provider set (as it is after the last provider was
    undeclared) panics in [rand.Intn], with the value [invalid argument to
    Intn] and not with the [service not found] of an unknown name; it leaves
    the world as it is and makes no call.  In no case does
    [chooseServiceProvider] change the world or make an external call. *)
Theorem chooseServiceProvider_empty_set `{Collaborators}
    (serviceName : string) (r : Z) (order : list EntityID) (w : World) :
  let x := chooseServiceProvider serviceName r order w in
  worldOf x = w ∧ traceOf x = []
  ∧ (registeredServices (entityManager w) !! serviceName = Some ∅ →
     outcomeOf x = Panics (PanicOther "invalid argument to Intn")).
Proof.
  intros x. subst x. unfold chooseServiceProvider.
  rewrite bind_getManager.
  destruct (registeredServices (entityManager w) !! serviceName) as [eids|] eqn:Hreg.
  - rewrite bind_ret. unfold rand_Intn.
    destruct (Z.leb_spec (Z.of_nat (size eids)) 0) as [Hle|Hgt].
    + rewrite bind_panic. done.
    + rewrite bind_ret. split_and!; try done.
      intros [= ->]. rewrite size_empty in Hgt. lia.
  - unfold gwlog_Panicf. rewrite bind_panic. done.
Qed.

Lemma chooseServiceProvider_empty_set_witness :
  let w := afterServiceCalls [DeclareCall "match" "e1"; UndeclareCall "match" "e1"]
             initialWorld in
  outcomeOf (chooseServiceProvider (H:=Demo.engine) "match" 0 [] w)
  = Panics (PanicOther "invalid argument to Intn").
Proof.
  intros w.
  destruct (chooseServiceProvider_empty_set (H:=Demo.engine) "match" 0 [] w)
    as (_ & _ & Hempty).
  apply Hempty. vm_compute. reflexivity.
Defined.

(** ** Client and gate disconnection *)

Section DisconnectFacts.
Context `{Collaborators}.

Lemma bind_assoc_at {A B C} (m : M A) (f : A → M B) (g : B → M C) w :
  ((m ≫= f) ≫= g) w = (m ≫= (λ a, f a ≫= g)) w.
Proof.
  unfold mbind, M_bind, bind.
  destruct (m w) as [[[a|v] w1] t1]; [|done].
  destruct (f a w1) as [[[b|v] w2] t2]; [|done].
  destruct (g b w2) as [[r w3] t3]. by rewrite app_assoc.
Qed.

Lemma onClientDisconnected_no_owner clientid w :
  default "" (ownerOfClient (entityManager w) !! clientid) = "" →
  onClientDisconnected clientid w = (Returns tt, w, []).
Proof.
  intros Hnil. unfold onClientDisconnected. rewrite bind_getManager, Hnil. reflexivity.
Qed.

Lemma World_setManager_same w : World_setManager (entityManager w) w = w.
Proof. by destruct w. Qed.

Lemma reacted_quiet ev w : reaction ev w = [] → reacted ev w = w.
Proof.
  intros Hq. unfold reacted. rewrite Hq. simpl.
  destruct (reenters ev); [apply World_setManager_same|done].
Qed.

(** The run of [notifyClientDisconnected] on the entity stored under
    [slot]. *)
Lemma Entity_notifyClientDisconnected_run slot entity w :
  let ev := EvNotifyClientDisconnected (ID entity) in
  Entity_notifyClientDisconnected slot entity w
  = (match raises ev with None => Returns tt | Some v => Panics v end,
     reacted ev (World_setManager (setClientField slot None (entityManager w)) w),
     [ev]).
Proof. unfold Entity_notifyClientDisconnected. by rewrite bind_modifyManager. Qed.

Lemma bind_notifyClientDisconnected {B} slot entity (k : unit → M B) w :
  (Entity_notifyClientDisconnected slot entity ≫= k) w
  = let ev := EvNotifyClientDisconnected (ID entity) in
    let w1 := reacted ev (World_setManager (setClientField slot None (entityManager w)) w) in
    match raises ev with
    | None => after [ev] (k tt w1)
    | Some v => (Panics v, w1, [ev])
    end.
Proof.
  unfold Entity_notifyClientDisconnected.
  by rewrite bind_assoc_at, bind_modifyManager, bind_call.
Qed.

Lemma gateUnbound_app gateid_ l1 l2 em :
  gateUnbound gateid_ (l1 ++ l2) em = gateUnbound gateid_ l2 (gateUnbound gateid_ l1 em).
Proof. unfold gateUnbound. apply foldl_app. Qed.

Lemma gateNotifications_app gateid_ l1 l2 :
  gateNotifications gateid_ (l1 ++ l2)
  = gateNotifications gateid_ l1 ++ gateNotifications gateid_ l2.
Proof. unfold gateNotifications. apply omap_app. Qed.

Lemma gateClients_app gateid_ l1 l2 :
  gateClients gateid_ (l1 ++ l2) = gateClients gateid_ l1 ++ gateClients gateid_ l2.
Proof. unfold gateClients. apply omap_app. Qed.

(** The fan-out has dealt with an initial part of the visit: all of it when
    it returns, up to and including the entity whose callback panicked when
    it does not. *)
Lemma onGateDisconnected_run gateid_ order w :
  quietDisconnects order →
  visits order (entityManager w) →
  ∃ visited rest,
    order = visited ++ rest
    ∧ worldOf (onGateDisconnected gateid_ order w)
      = World_setManager (gateUnbound gateid_ visited (entityManager w)) w
    ∧ traceOf (onGateDisconnected gateid_ order w) = gateNotifications gateid_ visited
    ∧ (returned (outcomeOf (onGateDisconnected gateid_ order w)) = true → rest = []).
Proof.
  unfold onGateDisconnected. revert w.
  induction order as [|[k e] order IH]; intros w Hquiet [Hnd Hent].
  - exists [], []. split_and!; try done. simpl. by rewrite World_setManager_same.
  - assert (quietDisconnects order) as Hquiet'.
    { intros k' e' w' Hin. apply (Hquiet k'). by right. }
    apply NoDup_cons in Hnd as [Hk Hnd].
    assert (∀ w1, (∀ k' , k' ≠ k →
                     entities (entityManager w1) !! k' = entities (entityManager w) !! k') →
                  visits order (entityManager w1)) as Hvisits.
    { intros w1 Hsame. split; [done|]. intros k' e' Hin.
      rewrite Hsame; [apply Hent; by right|].
      intros ->. apply Hk. by apply (list_elem_of_fmap_2 fst _ (k, e')). }
    cbn [forEach]. rewrite bind_assoc_at, bind_getManager.
    rewrite (Hent k e) by left.
    destruct (client e) as [c|] eqn:Hc.
    2:{ rewrite bind_ret.
        destruct (IH w Hquiet' (Hvisits w (λ _ _, eq_refl)))
          as (visited & rest & -> & Hworld & Htr & Hret).
        exists ((k, e) :: visited), rest. split_and!; try done.
        - rewrite Hworld. unfold gateUnbound. simpl. by rewrite Hc.
        - rewrite Htr. unfold gateNotifications. simpl. by rewrite Hc. }
    destruct (bool_decide (gateid c = gateid_)) eqn:Hgate.
    2:{ rewrite bind_ret.
        destruct (IH w Hquiet' (Hvisits w (λ _ _, eq_refl)))
          as (visited & rest & -> & Hworld & Htr & Hret).
        exists ((k, e) :: visited), rest. split_and!; try done.
        - rewrite Hworld. unfold gateUnbound. simpl. by rewrite Hc, Hgate.
        - rewrite Htr. unfold gateNotifications. simpl. by rewrite Hc, Hgate. }
    rewrite bind_assoc_at, bind_modifyManager, bind_notifyClientDisconnected.
    cbv zeta. rewrite reacted_quiet by (apply (Hquiet k); by left).
    set (w1 := World_setManager
                 (setClientField k None
                    (entityManager
                       (World_setManager
                          (onEntityLoseClient (clientid c) (entityManager w)) w))) _).
    assert (w1 = World_setManager (unbind k (clientid c) (entityManager w)) w) as Hw1
      by (by destruct w).
    destruct (raises (EvNotifyClientDisconnected (ID e))) as [v|].
    + exists [(k, e)], order. split_and!; try done.
      * unfold worldOf. simpl. rewrite Hw1. unfold gateUnbound. simpl.
        by rewrite Hc, Hgate.
      * unfold traceOf, gateNotifications. simpl. by rewrite Hc, Hgate.
    + destruct (IH w1 Hquiet') as (visited & rest & -> & Hworld & Htr & Hret).
      { apply Hvisits. intros k' Hne. rewrite Hw1. simpl.
        by rewrite lookup_alter_ne. }
      exists ((k, e) :: visited), rest. split_and!; try done.
      * rewrite worldOf_after, Hworld, Hw1. unfold gateUnbound. simpl.
        rewrite Hc, Hgate. by destruct w.
      * rewrite traceOf_after, Htr. unfold gateNotifications. simpl.
        by rewrite Hc, Hgate.
Qed.

(** What the unbinding of the entries on the gate leaves. *)
Lemma gateUnbound_fields gateid_ order em :
  visits order em →
  registeredServices (gateUnbound gateid_ order em) = registeredServices em
  ∧ (∀ c, ownerOfClient (gateUnbound gateid_ order em) !! c
          = if decide (c ∈ gateClients gateid_ order) then None else ownerOfClient em !! c)
  ∧ (∀ k e, (k, e) ∈ order →
       entities (gateUnbound gateid_ order em) !! k
       = Some (if onGate gateid_ e then Entity_setClient None e else e))
  ∧ (∀ k, k ∉ order.*1 → entities (gateUnbound gateid_ order em) !! k = entities em !! k).
Proof.
  revert em. induction order as [|[k e] order IH] using rev_ind; intros em [Hnd Hent].
  - split_and!; try done. intros k e Hin. by apply elem_of_nil in Hin.
  - rewrite fmap_app in Hnd. apply NoDup_app in Hnd as (Hnd & Hdisj & _).
    assert (k ∉ order.*1) as Hk.
    { intros Hin. apply (Hdisj k Hin). simpl. left. }
    destruct (IH em) as (Hs & Ho & He & Hother).
    { split; [done|]. intros k' e' Hin. apply Hent. apply elem_of_app. by left. }
    rewrite gateUnbound_app, gateClients_app.
    set (em1 := gateUnbound gateid_ order em) in *.
    assert (entities em1 !! k = Some e) as Hlive.
    { rewrite Hother by done. apply Hent. apply elem_of_app. right. left. }
    unfold gateUnbound at 1 2 3 4. unfold gateClients at 2. simpl. unfold onGate in *.
    destruct (client e) as [c|] eqn:Hc; [destruct (bool_decide (gateid c = gateid_)) eqn:Hg|].
    + split_and!.
      * done.
      * intros c'. simpl. destruct (decide (c' = clientid c)) as [->|Hne].
        -- rewrite lookup_delete_eq. rewrite decide_True; [done|].
           apply elem_of_app. right. left.
        -- rewrite lookup_delete_ne by done. rewrite Ho.
           destruct (decide (c' ∈ gateClients gateid_ order)) as [Hin|Hnin].
           ++ rewrite decide_True; [done|]. apply elem_of_app. by left.
           ++ rewrite decide_False; [done|]. intros Hx.
              apply elem_of_app in Hx as [?|Hx]; [done|].
              apply list_elem_of_singleton in Hx. done.
      * intros k' e' Hin. simpl. apply elem_of_app in Hin as [Hin|Hin].
        -- rewrite lookup_alter_ne; [by apply He|].
           intros <-. apply Hk. by apply (list_elem_of_fmap_2 fst _ (k, e')).
        -- apply list_elem_of_singleton in Hin. injection Hin as -> ->.
           rewrite lookup_alter_eq, Hlive. simpl. by rewrite Hc, Hg.
      * intros k' Hk'. simpl. rewrite fmap_app in Hk'.
        rewrite lookup_alter_ne.
        -- apply Hother. intros Hin. apply Hk'. apply elem_of_app. by left.
        -- intros <-. apply Hk'. apply elem_of_app. right. simpl. left.
    + rewrite app_nil_r. split_and!; try done.
      * intros k' e' Hin. apply elem_of_app in Hin as [Hin|Hin]; [by apply He|].
        apply list_elem_of_singleton in Hin. injection Hin as -> ->.
        by rewrite Hlive, Hc, Hg.
      * intros k' Hk'. rewrite fmap_app in Hk'. apply Hother.
        intros Hin. apply Hk'. apply elem_of_app. by left.
    + rewrite app_nil_r. split_and!; try done.
      * intros k' e' Hin. apply elem_of_app in Hin as [Hin|Hin]; [by apply He|].
        apply list_elem_of_singleton in Hin. injection Hin as -> ->.
        by rewrite Hlive, Hc.
      * intros k' Hk'. rewrite fmap_app in Hk'. apply Hother.
        intros Hin. apply Hk'. apply elem_of_app. by left.
Qed.

End DisconnectFacts.

(** X6.  [onClientDisconnected] for a client that has no owner in the index,
    or whose recorded owner id is empty, does nothing: no call, no change.
    For a client whose recorded owner is not resident it removes the index
    entry and then faults at nil, without calling anything.  For a client
    whose owner is resident it removes the index entry of the client, clears
    the bound client of the owner and calls [notifyClientDisconnected] on the
    owner once; the world afterwards is what the owner's callback made of
    that state, and in that state a second disconnect of the same client
    does nothing. *)
Theorem onClientDisconnected_effect `{Collaborators} (clientid : ClientID) (w : World) :
  let x := onClientDisconnected clientid w in
  let em := entityManager w in
  (default "" (ownerOfClient em !! clientid) = "" → x = (Returns tt, w, []))
  ∧ (∀ eid,
       ownerOfClient em !! clientid = Some eid → eid ≠ "" →
       entities em !! eid = None →
       x = (Panics nil_dereference,
            World_setManager (onEntityLoseClient clientid em) w, []))
  ∧ (∀ eid owner,
       ownerOfClient em !! clientid = Some eid → eid ≠ "" →
       entities em !! eid = Some owner →
       let ev := EvNotifyClientDisconnected (ID owner) in
       let w1 := World_setManager (unbind eid clientid em) w in
       traceOf x = [ev]
       ∧ worldOf x = reacted ev w1
       ∧ ownerOfClient (entityManager w1) = delete clientid (ownerOfClient em)
       ∧ entities (entityManager w1) = <[eid := Entity_setClient None owner]> (entities em)
       ∧ onClientDisconnected clientid w1 = (Returns tt, w1, [])).
Proof.
  intros x em. split_and!; [apply onClientDisconnected_no_owner| |].
  - intros eid Hc Hne Hgone. subst x. unfold onClientDisconnected.
    rewrite bind_getManager. fold em. rewrite Hc.
    simpl. unfold EntityID_IsNil. rewrite bool_decide_eq_false_2 by done. simpl.
    rewrite bind_modifyManager, bind_getManager. unfold get. simpl. fold em.
    by rewrite Hgone.
  - intros eid owner Hc Hne Howner ev w1.
    assert (x = (match raises ev with None => Returns tt | Some v => Panics v end,
                 reacted ev w1, [ev])) as Hx.
    { subst x. unfold onClientDisconnected. rewrite bind_getManager. fold em. rewrite Hc.
      simpl. unfold EntityID_IsNil. rewrite bool_decide_eq_false_2 by done. simpl.
      rewrite bind_modifyManager, bind_getManager. unfold get. simpl. fold em.
      rewrite Howner. rewrite Entity_notifyClientDisconnected_run. subst w1.
      by destruct w. }
    rewrite Hx. unfold traceOf, worldOf. simpl. split_and!; try done.
    + apply map_eq. intros k. destruct (decide (k = eid)) as [->|Hk].
      * by rewrite lookup_alter_eq, lookup_insert_eq, Howner.
      * by rewrite lookup_alter_ne, lookup_insert_ne.
    + apply onClientDisconnected_no_owner. simpl. by rewrite lookup_delete_eq.
Qed.

Lemma onClientDisconnected_effect_witness :
  let w := afterManagerCalls (H:=Demo.engine)
             [ CallCreateEntity "Player" None Position_zero "e1" None None
                 (Some (MakeGameClient "c1" 7)) ccRestore ] Demo.worldNSP in
  let x := onClientDisconnected (H:=Demo.engine) "c1" w in
  traceOf x = [EvNotifyClientDisconnected "e1"]
  ∧ ownerOfClient (entityManager (worldOf x)) !! "c1" = None
  ∧ (client <$> entities (entityManager (worldOf x)) !! "e1") = Some None
  ∧ onClientDisconnected (H:=Demo.engine) "c9" w = (Returns tt, w, []).
Proof.
  intros w x.
  destruct (onClientDisconnected_effect (H:=Demo.engine) "c1" w) as (_ & _ & Hknown).
  destruct (onClientDisconnected_effect (H:=Demo.engine) "c9" w) as (Hnone & _).
  destruct (Hknown "e1" (mkEntity "e1" "Player" (Some (MakeGameClient "c1" 7)) true))
    as (Htr & Hworld & Hidx & Hent & _).
  - vm_compute. reflexivity.
  - discriminate.
  - vm_compute. reflexivity.
  - split_and!.
    + exact Htr.
    + unfold x. rewrite Hworld. vm_compute. reflexivity.
    + unfold x. rewrite Hworld. vm_compute. reflexivity.
    + apply Hnone. vm_compute. reflexivity.
Defined.

(** X7.  [onGateDisconnected], visiting the entries of the table each once,
    with disconnect callbacks that leave the manager alone.  It never
    changes the service directory or the registry, only removes entries from
    the ownership index, and leaves the entities it does not visit as they
    are.  The notifications it delivers are an initial part of: one
    [notifyClientDisconnected] for each visited entity whose client is on
    the gate, in the order of the visit (the fan-out stops at a callback
    that panics).  When it returns it has delivered all of them, the clients
    of these entities and no others are gone from the index, and the bound
    client of exactly these entities is cleared. *)
Theorem onGateDisconnected_effect `{Collaborators}
    (gateid_ : Z) (order : list (EntityID * Entity)) (w : World) :
  quietDisconnects order →
  visits order (entityManager w) →
  let x := onGateDisconnected gateid_ order w in
  let em := entityManager w in
  let em' := entityManager (worldOf x) in
  registeredServices em' = registeredServices em
  ∧ registeredEntityTypes (worldOf x) = registeredEntityTypes w
  ∧ (∀ c eid, ownerOfClient em' !! c = Some eid → ownerOfClient em !! c = Some eid)
  ∧ (∀ c, c ∉ gateClients gateid_ order → ownerOfClient em' !! c = ownerOfClient em !! c)
  ∧ (∀ k, k ∉ order.*1 → entities em' !! k = entities em !! k)
  ∧ traceOf x `prefix_of` gateNotifications gateid_ order
  ∧ (returned (outcomeOf x) = true →
     traceOf x = gateNotifications gateid_ order
     ∧ (∀ c, c ∈ gateClients gateid_ order → ownerOfClient em' !! c = None)
     ∧ ∀ k e, (k, e) ∈ order →
         entities em' !! k = Some (if onGate gateid_ e then Entity_setClient None e else e)).
Proof.
  intros Hquiet Hvisits x em em'.
  destruct (onGateDisconnected_run gateid_ order w Hquiet Hvisits)
    as (visited & rest & Horder & Hworld & Htr & Hret).
  fold x in Hworld, Htr, Hret.
  assert (em' = gateUnbound gateid_ visited em) as Hem' by (subst em'; by rewrite Hworld).
  assert (visits visited em) as Hvis.
  { destruct Hvisits as [Hnd Hent]. subst order. split.
    - rewrite fmap_app in Hnd. by apply NoDup_app in Hnd as (Hnd & _).
    - intros k e Hin. apply Hent. apply elem_of_app. by left. }
  destruct (gateUnbound_fields gateid_ visited em Hvis) as (Hs & Ho & He & Hother).
  rewrite Hem'. split_and!.
  - done.
  - by rewrite Hworld.
  - intros c eid. rewrite Ho. by case_decide.
  - intros c Hc. rewrite Ho. case_decide as Hin; [|done].
    exfalso. apply Hc. subst order. rewrite gateClients_app. apply elem_of_app. by left.
  - intros k Hk. apply Hother. intros Hin. apply Hk. subst order.
    rewrite fmap_app. apply elem_of_app. by left.
  - rewrite Htr. subst order. rewrite gateNotifications_app. by apply prefix_app_r.
  - intros Hr. specialize (Hret Hr). subst rest. rewrite app_nil_r in Horder. subst visited.
    split_and!; [done| |done].
    intros c Hc. rewrite Ho. by rewrite decide_True.
Qed.

Lemma onGateDisconnected_effect_witness :
  let e1 := mkEntity "e1" "Player" (Some (MakeGameClient "c1" 7)) true in
  let e2 := mkEntity "e2" "Player" (Some (MakeGameClient "c2" 8)) true in
  let em := onEntityGetClient "e2" "c2" (onEntityGetClient "e1" "c1"
              (put e2 (put e1 newEntityManager))) in
  let x := onGateDisconnected (H:=Demo.engine) 7 [("e1", e1); ("e2", e2)]
             (Demo.worldOf_manager em) in
  traceOf x = [EvNotifyClientDisconnected "e1"]
  ∧ ownerOfClient (entityManager (worldOf x)) !! "c1" = None
  ∧ ownerOfClient (entityManager (worldOf x)) !! "c2" = Some "e2"
  ∧ entities (entityManager (worldOf x)) !! "e1" = Some (Entity_setClient None e1).
Proof.
  intros e1 e2 em x.
  destruct (onGateDisconnected_effect (H:=Demo.engine) 7 [("e1", e1); ("e2", e2)]
              (Demo.worldOf_manager em)) as (_ & _ & _ & Hother & _ & _ & Hret).
  - intros k e w Hin.
    apply elem_of_cons in Hin as [[= -> ->]|Hin]; [done|].
    apply elem_of_cons in Hin as [[= -> ->]|Hin]; [done|].
    by apply elem_of_nil in Hin.
  - split.
    + apply (bool_decide_unpack _). vm_compute. reflexivity.
    + intros k e Hin.
      apply elem_of_cons in Hin as [[= -> ->]|Hin]; [vm_compute; reflexivity|].
      apply elem_of_cons in Hin as [[= -> ->]|Hin]; [vm_compute; reflexivity|].
      by apply elem_of_nil in Hin.
  - destruct Hret as (Htr & Hgone & Hent); [vm_compute; reflexivity|].
    split_and!.
    + exact Htr.
    + apply Hgone. vm_compute. left.
    + etrans; [apply Hother|vm_compute; reflexivity].
      vm_compute. intros Hin. apply elem_of_cons in Hin as [Hin|Hin]; [done|].
      by apply elem_of_nil in Hin.
    + apply (Hent "e1" e1). left.
Defined.

(** ** [createEntity] in full *)

Section CreateEntityMore.
Context `{Collaborators}.

Lemma silent_ret {A} (a : A) : silent (ret a).
Proof. by intros w. Qed.

Lemma silent_emit ev : silent (emit ev).
Proof. by intros w. Qed.

Lemma silent_call ev : reenters ev = false → silent (call ev).
Proof. intros Hev w. unfold call, worldOf, reacted. simpl. by rewrite Hev. Qed.

Lemma silent_panic {A} v : silent (panic (A:=A) v).
Proof. by intros w. Qed.

Lemma silent_getManager : silent getManager.
Proof. by intros w. Qed.

Lemma silent_RunPanicless m : silent m → silent (RunPanicless m).
Proof.
  intros Hm w. specialize (Hm w). unfold RunPanicless, worldOf in *.
  by destruct (m w) as [[? ?] ?].
Qed.

Lemma silent_bind {A B} (m : M A) (k : A → M B) :
  silent m → (∀ a, silent (k a)) → silent (m ≫= k).
Proof.
  intros Hm Hk w. rewrite bind_world, Hm. destruct (outcomeOf (m w)); [apply Hk|done].
Qed.

Lemma silent_forEach {A} (l : list A) body :
  (∀ x, silent (body x)) → silent (forEach l body).
Proof.
  intros Hb. induction l as [|x l IH]; simpl; [apply silent_ret|].
  apply silent_bind; [apply Hb|intros _; apply IH].
Qed.

Lemma logs_ret {A} (a : A) : logsWhenReturns (ret a) [].
Proof. by intros w. Qed.

Lemma logs_emit ev : logsWhenReturns (emit ev) [ev].
Proof. by intros w. Qed.

Lemma logs_call ev : logsWhenReturns (call ev) [ev].
Proof. by intros w. Qed.

Lemma logs_modifyManager f : logsWhenReturns (modifyManager f) [].
Proof. by intros w. Qed.

Lemma logs_RunPanicless_call ev : logsWhenReturns (RunPanicless (call ev)) [ev].
Proof. by intros w. Qed.

Lemma logs_bind {A B} (m : M A) (k : A → M B) t1 t2 :
  logsWhenReturns m t1 → (∀ a, logsWhenReturns (k a) t2) →
  logsWhenReturns (m ≫= k) (t1 ++ t2).
Proof.
  intros Hm Hk w. rewrite bind_outcome, bind_trace.
  destruct (outcomeOf (m w)) as [a|v] eqn:Hout; [|done].
  intros Hret. rewrite Hm by by rewrite Hout. by rewrite Hk.
Qed.

Lemma logs_bind_ret {A B} (m : M A) (b : B) t :
  logsWhenReturns m t → logsWhenReturns (m ≫= λ _, ret b) t.
Proof.
  intros Hm. rewrite <- (app_nil_r t). apply logs_bind; [done|]. intros _. apply logs_ret.
Qed.

Lemma logs_modifyManager_bind {A} f (k : unit → M A) t :
  logsWhenReturns (k tt) t → logsWhenReturns (modifyManager f ≫= k) t.
Proof.
  intros Hk. change t with ([] ++ t). apply logs_bind; [apply logs_modifyManager|].
  by intros [].
Qed.

Lemma changes_silent {A} (m : M A) : silent m → changesWhenReturns m (λ w, w).
Proof. intros Hm w _. apply Hm. Qed.

Lemma changes_call ev : changesWhenReturns (call ev) (reacted ev).
Proof. by intros w. Qed.

Lemma changes_RunPanicless_call ev : changesWhenReturns (RunPanicless (call ev)) (reacted ev).
Proof. by intros w. Qed.

Lemma changes_modifyManager f :
  changesWhenReturns (modifyManager f) (λ w, World_setManager (f (entityManager w)) w).
Proof. by intros w. Qed.

Lemma changes_bind {A B} (m : M A) (k : A → M B) f g :
  changesWhenReturns m f → (∀ a, changesWhenReturns (k a) g) →
  changesWhenReturns (m ≫= k) (λ w, g (f w)).
Proof.
  intros Hm Hk w. rewrite bind_outcome, bind_world.
  destruct (outcomeOf (m w)) as [a|v] eqn:Hout; [|done].
  intros Hret. rewrite <- (Hm w) by (by rewrite Hout). by apply Hk.
Qed.

Lemma changes_bind_silent_l {A B} (m : M A) (k : A → M B) f :
  silent m → (∀ a, changesWhenReturns (k a) f) → changesWhenReturns (m ≫= k) f.
Proof.
  intros Hm Hk w. rewrite bind_outcome, bind_world, Hm.
  destruct (outcomeOf (m w)) as [a|v]; [apply Hk|done].
Qed.

Lemma changes_bind_silent_r {A B} (m : M A) (k : A → M B) f :
  changesWhenReturns m f → (∀ a, silent (k a)) → changesWhenReturns (m ≫= k) f.
Proof.
  intros Hm Hk w. rewrite bind_outcome, bind_world.
  destruct (outcomeOf (m w)) as [a|v] eqn:Hout; [|done].
  intros _. rewrite Hk. apply Hm. by rewrite Hout.
Qed.

Lemma changes_ext {A} (m : M A) f g :
  (∀ w, f w = g w) → changesWhenReturns m f → changesWhenReturns m g.
Proof. intros Hfg Hm w Hret. rewrite <- Hfg. by apply Hm. Qed.

(** [SetClient]: the bind protocol, then the callbacks. *)
Lemma Entity_SetClient_changes eid c :
  changesWhenReturns (Entity_SetClient eid c)
    (λ w, reacted (EvSetClient eid c)
            (World_setManager (setClientTo eid c (entityManager w)) w)).
Proof.
  intros w _. unfold Entity_SetClient.
  rewrite !bind_modifyManager. unfold call, worldOf. simpl.
  by destruct w.
Qed.

(** The client step of [createEntity]. *)
Lemma client_step_changes eid (client_ : option GameClient) (cause : Z) :
  changesWhenReturns
    (match client_ with
     | Some c =>
         if bool_decide (cause = ccCreate)
         then Entity_SetClient eid c
         else modifyManager (assignClient eid c) ;;
              modifyManager (onEntityGetClient eid (clientid c))
     | None => ret tt
     end)
    (λ w, reactedTo (setClientCall eid client_ cause)
            (World_setManager (clientStep eid client_ cause (entityManager w)) w)).
Proof.
  unfold setClientCall, clientStep. destruct client_ as [c|]; simpl.
  - destruct (bool_decide (cause = ccCreate)); simpl.
    + apply Entity_SetClient_changes.
    + intros w _. rewrite bind_modifyManager. unfold worldOf. simpl. by destruct w.
  - intros w _. unfold worldOf. simpl. by destruct w.
Qed.

Lemma client_step_logs eid (client_ : option GameClient) (cause : Z) :
  logsWhenReturns
    (match client_ with
     | Some c =>
         if bool_decide (cause = ccCreate)
         then Entity_SetClient eid c
         else modifyManager (assignClient eid c) ;;
              modifyManager (onEntityGetClient eid (clientid c))
     | None => ret tt
     end)
    (match client_ with
     | Some c => if bool_decide (cause = ccCreate) then [EvSetClient eid c] else []
     | None => []
     end).
Proof.
  destruct client_ as [c|]; [|apply logs_ret].
  destruct (bool_decide (cause = ccCreate)).
  - unfold Entity_SetClient.
    repeat apply logs_modifyManager_bind. apply logs_call.
  - apply logs_modifyManager_bind. apply logs_modifyManager.
Qed.

Lemma materialization_silent eid data cause :
  reenters (materializationCall eid data cause) = false.
Proof.
  unfold materializationCall. destruct data; [|done].
  by destruct (bool_decide (cause = ccCreate)).
Qed.

(** A [createEntity] that returns: the new entity is put in the table and
    bound to its client, then the callbacks run, in this order; and the log
    is the list of its calls. *)
Lemma createEntity_changes typeName space pos entityID data timerData client_ cause w eid :
  outcomeOf (createEntity typeName space pos entityID data timerData client_ cause w)
    = Returns eid →
  worldOf (createEntity typeName space pos entityID data timerData client_ cause w)
  = reactedTo (enterCall (createdID entityID w) space pos cause)
      (reactedTo (causeCallback (createdID entityID w) cause)
         (reactedTo (setClientCall (createdID entityID w) client_ cause)
            (World_setManager
               (clientStep (createdID entityID w) client_ cause
                  (put (Entity_init typeName (createdID entityID w)) (entityManager w)))
               (advanceID entityID w))))
  ∧ traceOf (createEntity typeName space pos entityID data timerData client_ cause w)
    = createEntityCalls typeName space pos entityID (createdID entityID w)
        data timerData client_ cause.
Proof.
  destruct (registeredEntityTypes w !! typeName) as [desc|] eqn:Hreg;
    [|by rewrite createEntity_unknown_type].
  unfold createEntity, createEntityCalls.
  rewrite bind_emit, bind_getWorld, Hreg, bind_ret, bind_entityID, bind_modifyManager.
  fold (advanceID entityID w).
  set (id := createdID entityID w).
  set (w1 := World_setManager _ (advanceID entityID w)).
  rewrite outcomeOf_after, worldOf_after, traceOf_after.
  match goal with
  | |- outcomeOf (?m w1) = _ → _ =>
      assert (changesWhenReturns m
                (λ w, reactedTo (enterCall id space pos cause)
                        (reactedTo (causeCallback id cause)
                           (reactedTo (setClientCall id client_ cause)
                              (World_setManager
                                 (clientStep id client_ cause (entityManager w)) w)))))
        as Hc;
      [|assert (logsWhenReturns m
                  ([match data with
                    | Some data =>
                        if bool_decide (cause = ccCreate)
                        then EvLoadPersistentData id data
                        else EvLoadMigrateData id data
                    | None => EvSave id
                    end]
                   ++ match timerData with
                      | Some timerData => [EvRestoreTimers id timerData]
                      | None => []
                      end
                   ++ (if IsPersistent (Entity_init typeName id)
                       then [EvSetupSaveTimer id] else [])
                   ++ (if bool_decide (cause = ccCreate) || bool_decide (cause = ccRestore)
                       then [EvSendNotifyCreateEntity id] else [])
                   ++ match client_ with
                      | Some c =>
                          if bool_decide (cause = ccCreate) then [EvSetClient id c] else []
                      | None => []
                      end
                   ++ [EvLog "Entity created"]
                   ++ (if bool_decide (cause = ccCreate) then [EvOnCreated id]
                       else if bool_decide (cause = ccMigrate) then [EvOnMigrateIn id]
                       else if bool_decide (cause = ccRestore) then [EvOnRestored id]
                       else [])
                   ++ match space with
                      | Some space =>
                          [EvSpaceEnter (SpaceID space) id pos
                             (bool_decide (cause = ccRestore))]
                      | None => []
                      end)) as Hl]
  end.
  - clear w1.
    apply changes_bind_silent_l.
    { destruct data; [destruct (bool_decide (cause = ccCreate))|]; by apply silent_call. }
    intros _. apply changes_bind_silent_l.
    { destruct timerData; [by apply silent_call|apply silent_ret]. }
    intros _. apply changes_bind_silent_l.
    { destruct (IsPersistent _); [by apply silent_call|apply silent_ret]. }
    intros _. apply changes_bind_silent_l.
    { destruct (_ || _); [apply silent_emit|apply silent_ret]. }
    intros _.
    apply (changes_bind _ _ _ (λ w, reactedTo (enterCall id space pos cause)
                                     (reactedTo (causeCallback id cause) w)));
      [apply client_step_changes|intros _].
    apply changes_bind_silent_l; [apply silent_emit|intros _].
    apply (changes_bind _ _ (reactedTo (causeCallback id cause))
             (reactedTo (enterCall id space pos cause))).
    { unfold causeCallback.
      destruct (bool_decide (cause = ccCreate));
        [|destruct (bool_decide (cause = ccMigrate));
           [|destruct (bool_decide (cause = ccRestore))]];
        try apply changes_RunPanicless_call.
      apply changes_silent, silent_ret. }
    intros _. apply changes_bind_silent_r; [|intros _; apply silent_ret].
    unfold enterCall. destruct space; simpl;
      [apply changes_call|apply changes_silent, silent_ret].
  - clear w1 Hc.
    apply (logs_bind _ _ [_]).
    { destruct data; [destruct (bool_decide (cause = ccCreate))|]; apply logs_call. }
    intros _. apply logs_bind.
    { destruct timerData; [apply logs_call|apply logs_ret]. }
    intros _. apply logs_bind.
    { destruct (IsPersistent _); [apply logs_call|apply logs_ret]. }
    intros _. apply logs_bind.
    { destruct (_ || _); [apply logs_emit|apply logs_ret]. }
    intros _. apply logs_bind; [apply client_step_logs|].
    intros _. apply (logs_bind _ _ [_]); [apply logs_emit|].
    intros _. apply logs_bind.
    { destruct (bool_decide (cause = ccCreate));
        [|destruct (bool_decide (cause = ccMigrate));
           [|destruct (bool_decide (cause = ccRestore))]];
        try apply logs_RunPanicless_call; apply logs_ret. }
    intros _. apply logs_bind_ret.
    destruct space; [apply logs_call|apply logs_ret].
  - intros Hret.
    assert (returned (outcomeOf
      ((match data with
        | Some data0 => if bool_decide (cause = ccCreate)
                        then call (EvLoadPersistentData id data0)
                        else call (EvLoadMigrateData id data0)
        | None => call (EvSave id)
        end ≫= _) w1)) = true) as Hret' by by rewrite Hret.
    split.
    + rewrite (Hc w1 Hret'). subst w1. do 3 f_equal. clear. unfold advanceID.
      by destruct (bool_decide (entityID = "")).
    + f_equal. by apply Hl.
Qed.


(** The table and the index after the client step. *)
Lemma clientStep_fields eid client_ cause typeName em :
  let em0 := put (Entity_init typeName eid) em in
  let em1 := clientStep eid client_ cause em0 in
  entities em1 !! eid = Some (Entity_setClient client_ (Entity_init typeName eid))
  ∧ (∀ c, client_ = Some c → ownerOfClient em1 !! clientid c = Some eid)
  ∧ (∀ cid, (∀ c, client_ = Some c → clientid c ≠ cid) →
       ownerOfClient em1 !! cid = ownerOfClient em !! cid)
  ∧ (∀ id, id ≠ eid →
       entities em1 !! id
       = match client_ with
         | Some c =>
             if bool_decide (cause = ccCreate)
                && bool_decide (ownerOfClient em !! clientid c = Some id)
             then Entity_setClient None <$> entities em !! id
             else entities em !! id
         | None => entities em !! id
         end)
  ∧ registeredServices em1 = registeredServices em.
Proof.
  intros em0 em1. subst em1. unfold clientStep.
  destruct client_ as [c|]; [destruct (bool_decide (cause = ccCreate)) eqn:Hcause|].
  - (* the full bind protocol *)
    assert (releaseOwnClient eid em0 = em0) as Hown.
    { unfold releaseOwnClient, em0. simpl. by rewrite lookup_insert_eq. }
    unfold setClientTo. rewrite Hown. unfold releaseClient.
    change (ownerOfClient em0) with (ownerOfClient em).
    destruct (ownerOfClient em !! clientid c) as [prior|] eqn:Hprior; simpl.
    + split_and!.
      * rewrite lookup_alter_eq. destruct (decide (prior = eid)) as [->|Hne].
        -- by rewrite lookup_alter_eq, lookup_insert_eq.
        -- by rewrite lookup_alter_ne, lookup_insert_eq.
      * intros c' [= <-]. by rewrite lookup_insert_eq.
      * intros cid Hcid. rewrite lookup_insert_ne by (by apply Hcid).
        rewrite lookup_delete_ne by (by apply Hcid). done.
      * intros id Hne. rewrite lookup_alter_ne by done.
        destruct (decide (prior = id)) as [->|Hne'].
        -- rewrite lookup_alter_eq, lookup_insert_ne by done.
           by rewrite bool_decide_eq_true_2.
        -- rewrite lookup_alter_ne, lookup_insert_ne by done.
           rewrite bool_decide_eq_false_2; [done|]. by intros [= ?].
      * done.
    + split_and!.
      * by rewrite lookup_alter_eq, lookup_insert_eq.
      * intros c' [= <-]. by rewrite lookup_insert_eq.
      * intros cid Hcid. by rewrite lookup_insert_ne by (by apply Hcid).
      * intros id Hne. by rewrite lookup_alter_ne, lookup_insert_ne.
      * done.
  - (* the quiet bind *)
    simpl. split_and!.
    + by rewrite lookup_alter_eq, lookup_insert_eq.
    + intros c' [= <-]. by rewrite lookup_insert_eq.
    + intros cid Hcid. by rewrite lookup_insert_ne by (by apply Hcid).
    + intros id Hne. by rewrite lookup_alter_ne, lookup_insert_ne.
    + done.
  - simpl. split_and!; try done.
    + by rewrite lookup_insert_eq.
    + intros id Hne. by rewrite lookup_insert_ne.
Qed.

(** A [createEntity] whose state materialization panics. *)
Lemma createEntity_materialization_panics
    typeName space pos entityID data timerData client_ cause w desc v :
  registeredEntityTypes w !! typeName = Some desc →
  raises (materializationCall (createdID entityID w) data cause) = Some v →
  createEntity typeName space pos entityID data timerData client_ cause w
  = (Panics v,
     World_setManager (put (Entity_init typeName (createdID entityID w)) (entityManager w))
       (advanceID entityID w),
     [EvCreateEntity typeName entityID cause;
      materializationCall (createdID entityID w) data cause]).
Proof.
  intros Hreg Hv. unfold createEntity.
  rewrite bind_emit, bind_getWorld, Hreg, bind_ret, bind_entityID, bind_modifyManager.
  fold (advanceID entityID w).
  set (id := createdID entityID w) in *.
  assert (∀ {B} (k : unit → M B) w0,
            (match data with
             | Some data0 => if bool_decide (cause = ccCreate)
                             then call (EvLoadPersistentData id data0)
                             else call (EvLoadMigrateData id data0)
             | None => call (EvSave id)
             end ≫= k) w0
            = (call (materializationCall id data cause) ≫= k) w0) as Hm.
  { intros B k w0. unfold materializationCall. destruct data; [|done].
    by destruct (bool_decide (cause = ccCreate)). }
  rewrite Hm, bind_call, Hv.
  unfold reacted. rewrite materialization_silent.
  unfold after. simpl. f_equal. f_equal.
  unfold advanceID. by destruct (bool_decide (entityID = "")).
Qed.

End CreateEntityMore.

(** X8.  A [createEntity] call that returns has returned the id given (or
    the generated one for an empty id).  By the time its callbacks run it has
    put the new entity in the table under that id, with the type name and
    the client given, and the ownership index maps the client to it; no
    other index entry and no service has changed, and no other entity has,
    except that under cause Create the prior owner of the client has lost
    it ([SetClient] takes the client from its owner; the quiet bind of the
    other causes does not).  The world at return is that state after the
    callbacks of [SetClient], of the cause and of [space.enter] have run on
    it, in this order. *)
Theorem createEntity_postcondition `{Collaborators}
    (typeName : string) (space : option Space) (pos : Position) (entityID : EntityID)
    (data : option (gmap string AttrVal)) (timerData : option (list Byte.byte))
    (client_ : option GameClient) (cause : Z) (w : World) (eid : EntityID) :
  let x := createEntity typeName space pos entityID data timerData client_ cause w in
  let em := entityManager w in
  let em1 := clientStep eid client_ cause (put (Entity_init typeName eid) em) in
  outcomeOf x = Returns eid →
  eid = createdID entityID w
  ∧ worldOf x
    = reactedTo (enterCall eid space pos cause)
        (reactedTo (causeCallback eid cause)
           (reactedTo (setClientCall eid client_ cause)
              (World_setManager em1 (advanceID entityID w))))
  ∧ (∃ e, get eid em1 = Some e ∧ ID e = eid ∧ TypeName e = typeName ∧ client e = client_)
  ∧ (∀ c, client_ = Some c → ownerOfClient em1 !! clientid c = Some eid)
  ∧ (∀ cid, (∀ c, client_ = Some c → clientid c ≠ cid) →
       ownerOfClient em1 !! cid = ownerOfClient em !! cid)
  ∧ (∀ id, id ≠ eid →
       (∀ c, client_ = Some c → cause = ccCreate →
             ownerOfClient em !! clientid c ≠ Some id) →
       entities em1 !! id = entities em !! id)
  ∧ (∀ c prior, client_ = Some c → cause = ccCreate → prior ≠ eid →
       ownerOfClient em !! clientid c = Some prior →
       entities em1 !! prior = Entity_setClient None <$> entities em !! prior)
  ∧ registeredServices em1 = registeredServices em.
Proof.
  intros x em em1 Hret.
  destruct (createEntity_returns_notify _ _ _ _ _ _ _ _ _ _ Hret) as [Hid _].
  destruct (createEntity_changes _ _ _ _ _ _ _ _ _ _ Hret) as [Hworld _].
  fold x in Hworld. rewrite <- Hid in Hworld.
  destruct (clientStep_fields eid client_ cause typeName em)
    as (He & Hidx & Hframe & Hothers & Hsvc).
  fold em1 in He, Hidx, Hframe, Hothers, Hsvc.
  split_and!; try done.
  - exists (Entity_setClient client_ (Entity_init typeName eid)). by split.
  - intros id Hne Hprior. rewrite (Hothers id Hne).
    destruct client_ as [c|]; [|done].
    destruct (bool_decide (cause = ccCreate)) eqn:Hcause; [|done].
    apply bool_decide_eq_true in Hcause.
    rewrite bool_decide_eq_false_2; [done|]. by apply Hprior.
  - intros c prior -> Hcause Hne Hprior. rewrite (Hothers prior Hne).
    by rewrite !bool_decide_eq_true_2.
Qed.

Lemma createEntity_postcondition_witness :
  let host := afterManagerCalls (H:=Demo.engine)
                [ CallCreateEntity "Player" None Position_zero "host" None None
                    (Some (MakeGameClient "c1" 7)) ccCreate ] Demo.worldNSP in
  let x := createEntity (H:=Demo.engine) "Player" None Position_zero "guest" (Some ∅) None
             (Some (MakeGameClient "c1" 7)) ccCreate host in
  let em1 := clientStep "guest" (Some (MakeGameClient "c1" 7)) ccCreate
               (put (Entity_init "Player" "guest") (entityManager host)) in
  ownerOfClient em1 !! "c1" = Some "guest"
  ∧ (client <$> entities em1 !! "host") = Some None
  ∧ ownerOfClient (entityManager (worldOf x)) !! "c1" = None.
Proof.
  intros host x em1.
  destruct (createEntity_postcondition (H:=Demo.engine) "Player" None Position_zero "guest"
              (Some ∅) None (Some (MakeGameClient "c1" 7)) ccCreate host "guest")
    as (_ & Hworld & _ & Hc & _ & _ & Hprior & _).
  - vm_compute. reflexivity.
  - split_and!.
    + by apply (Hc (MakeGameClient "c1" 7)).
    + unfold em1.
      rewrite (Hprior (MakeGameClient "c1" 7) "host" eq_refl eq_refl);
        [|done|vm_compute; reflexivity].
      vm_compute. reflexivity.
    + unfold x. rewrite Hworld. vm_compute. reflexivity.
Defined.

(** X9.  The calls that a returning [createEntity] has made, in order: the
    state materialization ([LoadPersistentData], [LoadMigrateData] or [Save]);
    [restoreTimers] when timer data was given; [setupSaveTimer] when the
    entity is persistent; the create notification for cause Create or
    Restore; [SetClient] when a client was given and the cause is Create (for
    the other causes the client is bound without a call); the log line; the
    one callback of the cause ([OnCreated], [OnMigrateIn], [OnRestored]; none
    for a cause outside the three); and last [space.enter] when a space was
    given, with [isRestore] true exactly for cause Restore. *)
Theorem createEntity_call_order `{Collaborators}
    (typeName : string) (space : option Space) (pos : Position) (entityID : EntityID)
    (data : option (gmap string AttrVal)) (timerData : option (list Byte.byte))
    (client_ : option GameClient) (cause : Z) (w : World) (eid : EntityID) :
  let x := createEntity typeName space pos entityID data timerData client_ cause w in
  outcomeOf x = Returns eid →
  traceOf x
  = createEntityCalls typeName space pos entityID eid data timerData client_ cause.
Proof.
  intros x Hret.
  destruct (createEntity_returns_notify _ _ _ _ _ _ _ _ _ _ Hret) as [Hid _].
  destruct (createEntity_changes _ _ _ _ _ _ _ _ _ _ Hret) as [_ Htrace].
  by rewrite Hid.
Qed.

Lemma createEntity_call_order_witness :
  traceOf (createEntity (H:=Demo.engine) "Player" (Some (mkSpace "S" false)) Position_zero
             "p1" (Some ∅) None (Some (MakeGameClient "c1" 7)) ccRestore Demo.worldNSP)
  = [ EvCreateEntity "Player" "p1" ccRestore; EvLoadMigrateData "p1" ∅;
      EvSetupSaveTimer "p1"; EvSendNotifyCreateEntity "p1"; EvLog "Entity created";
      EvOnRestored "p1"; EvSpaceEnter "S" "p1" Position_zero true ].
Proof.
  rewrite (createEntity_call_order (H:=Demo.engine) "Player" (Some (mkSpace "S" false))
             Position_zero "p1" (Some ∅) None (Some (MakeGameClient "c1" 7)) ccRestore
             Demo.worldNSP "p1" eq_refl).
  reflexivity.
Defined.

(** X10.  What a [createEntity] that fails early leaves behind.  For a type
    that is not registered it panics before anything is done: the world is
    unchanged and nothing was called.  For a registered type the new entity
    is put in the table before the first hook runs, so when the state
    materialization ([LoadPersistentData], [LoadMigrateData] or [Save])
    panics, the call panics with that value and leaves the half-made entity
    in the table under its id, without a client; nothing else has changed
    and nothing else was called: no create notification was sent and no
    callback has run. *)
Theorem createEntity_failure_state `{Collaborators}
    (typeName : string) (space : option Space) (pos : Position) (entityID : EntityID)
    (data : option (gmap string AttrVal)) (timerData : option (list Byte.byte))
    (client_ : option GameClient) (cause : Z) (w : World) :
  let x := createEntity typeName space pos entityID data timerData client_ cause w in
  let eid := createdID entityID w in
  (registeredEntityTypes w !! typeName = None →
   returned (outcomeOf x) = false ∧ worldOf x = w
   ∧ traceOf x = [EvCreateEntity typeName entityID cause])
  ∧ (∀ v, is_Some (registeredEntityTypes w !! typeName) →
     raises (materializationCall eid data cause) = Some v →
     outcomeOf x = Panics v
     ∧ traceOf x = [EvCreateEntity typeName entityID cause;
                    materializationCall eid data cause]
     ∧ worldOf x
       = World_setManager (put (Entity_init typeName eid) (entityManager w))
           (advanceID entityID w)
     ∧ get eid (entityManager (worldOf x)) = Some (Entity_init typeName eid)).
Proof.
  intros x eid. split.
  - intros Hreg. subst x. by rewrite createEntity_unknown_type.
  - intros v [desc Hreg] Hv. subst x.
    rewrite (createEntity_materialization_panics _ _ _ _ _ _ _ _ _ desc v Hreg Hv).
    split_and!; try done.
    unfold get, worldOf. simpl. by rewrite lookup_insert_eq.
Qed.

Lemma createEntity_failure_state_witness :
  let x := createEntity (H:=Demo.engine) "Player" None Position_zero "disk" None None None
             ccCreate Demo.worldNSP in
  let y := createEntity (H:=Demo.engine) "Ghost" None Position_zero "g1" None None None
             ccCreate Demo.worldNSP in
  outcomeOf x = Panics (PanicError (errors_Errorf "disk full"))
  ∧ get "disk" (entityManager (worldOf x)) = Some (Entity_init "Player" "disk")
  ∧ worldOf y = Demo.worldNSP.
Proof.
  intros x y.
  destruct (createEntity_failure_state (H:=Demo.engine) "Player" None Position_zero "disk"
              None None None ccCreate Demo.worldNSP) as [_ Hreg].
  destruct (createEntity_failure_state (H:=Demo.engine) "Ghost" None Position_zero "g1"
              None None None ccCreate Demo.worldNSP) as [Hunk _].
  destruct (Hreg (PanicError (errors_Errorf "disk full"))) as (Hout & _ & _ & He);
    [vm_compute; eauto|vm_compute; reflexivity|].
  destruct Hunk as (_ & Hw & _); [vm_compute; reflexivity|].
  split_and!; [exact Hout | exact He | exact Hw].
Defined.

(** ** The completion of a load without error *)

(** X12.  When storage reports no error, the completion installed by
    [loadEntityLocally] does one of three things.  If the space it was given
    is destroyed by then, it sends [NotifyDestroyEntity] once and returns
    without creating anything.  Otherwise, if the data is not a
    [map[string]interface{}] (a nil interface included), the type assertion
    panics before [createEntity] is entered: no call, no change.  Otherwise
    it is exactly [createEntity] with the loaded map, cause Create, no timer
    data and no client. *)
Theorem loadEntityLocally_callback_without_error `{Collaborators}
    (typeName : string) (entityID : EntityID) (space : option Space) (pos : Position)
    (data : LoadedData) (w : World) :
  let x := loadEntityLocally_callback typeName entityID space pos data None w in
  (∀ s, space = Some s → Space_IsDestroyed s = true →
     x = (Returns tt, w, [EvSendNotifyDestroyEntity entityID]))
  ∧ (match space with Some s => Space_IsDestroyed s = false | None => True end →
     (∀ m, data ≠ DataMap m) →
     returned (outcomeOf x) = false ∧ worldOf x = w ∧ traceOf x = [])
  ∧ (∀ m, loadsInto space data m →
       let y := createEntity typeName space pos entityID m None None ccCreate w in
       traceOf x = traceOf y ∧ worldOf x = worldOf y
       ∧ returned (outcomeOf x) = returned (outcomeOf y)).
Proof.
  intros x. subst x. unfold loadEntityLocally_callback. rewrite bind_ret.
  split_and!.
  - intros s -> Hd. by rewrite Hd.
  - intros Hs Hdata.
    assert ((match space with Some s => Space_IsDestroyed s | None => false end) = false)
      as -> by (destruct space; done).
    destruct data as [|m|]; [|by destruct (Hdata m)|]; done.
  - intros m [Hs ->].
    assert ((match space with Some s => Space_IsDestroyed s | None => false end) = false)
      as -> by (destruct space; done).
    unfold assertMap. rewrite bind_ret.
    rewrite bind_trace, bind_world, bind_outcome.
    destruct (outcomeOf (createEntity _ _ _ _ _ _ _ _ _)) as [eid|v]; simpl;
      by rewrite app_nil_r.
Qed.

Lemma loadEntityLocally_callback_without_error_witness :
  let load space data :=
    loadEntityLocally_callback (H:=Demo.engine) "Player" "p1" space Position_zero data None
      Demo.worldNSP in
  load (Some (mkSpace "S" true)) (DataMap (Some ∅))
  = (Returns tt, Demo.worldNSP, [EvSendNotifyDestroyEntity "p1"])
  ∧ returned (outcomeOf (load None DataNil)) = false
  ∧ traceOf (load None (DataMap (Some ∅)))
    = traceOf (createEntity (H:=Demo.engine) "Player" None Position_zero "p1" (Some ∅)
                 None None ccCreate Demo.worldNSP).
Proof.
  intros load.
  destruct (loadEntityLocally_callback_without_error (H:=Demo.engine) "Player" "p1"
              (Some (mkSpace "S" true)) Position_zero (DataMap (Some ∅)) Demo.worldNSP)
    as (Hdestroyed & _ & _).
  destruct (loadEntityLocally_callback_without_error (H:=Demo.engine) "Player" "p1"
              None Position_zero DataNil Demo.worldNSP) as (_ & Hnil & _).
  destruct (loadEntityLocally_callback_without_error (H:=Demo.engine) "Player" "p1"
              None Position_zero (DataMap (Some ∅)) Demo.worldNSP) as (_ & _ & Hmap).
  split_and!.
  - by apply (Hdestroyed (mkSpace "S" true)).
  - apply Hnil; [done|]. intros m. discriminate.
  - apply (Hmap (Some ∅)). split; done.
Defined.

(** ** Saving every entity *)

Section SaveAllFacts.
Context `{Collaborators}.

Lemma SaveAllEntities_run order w :
  worldOf (SaveAllEntities order w) = w
  ∧ traceOf (SaveAllEntities order w) `prefix_of` (λ kv, EvSave (ID kv.2)) <$> order
  ∧ (returned (outcomeOf (SaveAllEntities order w)) = true →
     traceOf (SaveAllEntities order w) = (λ kv, EvSave (ID kv.2)) <$> order)
  ∧ ((∀ kv, kv ∈ order → raises (EvSave (ID kv.2)) = None) →
     returned (outcomeOf (SaveAllEntities order w)) = true).
Proof.
  unfold SaveAllEntities. induction order as [|[k e] order IH].
  - split_and!; try done.
  - cbn [forEach]. rewrite fmap_cons. simpl. rewrite bind_call.
    change (reacted (EvSave (ID e)) w) with w.
    destruct (raises (EvSave (ID e))) as [v|] eqn:Hraise.
    + split_and!; try done.
      * by apply prefix_cons, prefix_nil.
      * intros Hq. specialize (Hq (k, e)). simpl in Hq. rewrite Hq in Hraise; [done|left].
    + destruct IH as (Hw & Hpre & Hret & Hquiet).
      rewrite worldOf_after, traceOf_after, outcomeOf_after.
      split_and!; try done.
      * by apply prefix_cons.
      * intros Hr. simpl. by rewrite Hret.
      * intros Hq. apply Hquiet. intros kv Hkv. apply Hq. by right.
Qed.

End SaveAllFacts.

(** X13.  [SaveAllEntities] never changes the world.  It calls [Save] on the
    visited entities in the order of the visit, each once; when a [Save]
    panics the sweep stops there and the later entities are not saved; when
    no [Save] panics it returns having saved every visited entity. *)
Theorem SaveAllEntities_saves_each_once `{Collaborators}
    (order : list (EntityID * Entity)) (w : World) :
  let x := SaveAllEntities order w in
  worldOf x = w
  ∧ traceOf x `prefix_of` (λ kv, EvSave (ID kv.2)) <$> order
  ∧ (returned (outcomeOf x) = true → traceOf x = (λ kv, EvSave (ID kv.2)) <$> order)
  ∧ ((∀ kv, kv ∈ order → raises (EvSave (ID kv.2)) = None) →
     returned (outcomeOf x) = true).
Proof. intros x. apply SaveAllEntities_run. Qed.

Lemma SaveAllEntities_saves_each_once_witness :
  let e1 := Entity_init "Player" "p1" in
  let e2 := Entity_init "Player" "disk" in
  let e3 := Entity_init "Player" "p3" in
  traceOf (SaveAllEntities (H:=Demo.engine) [("p1", e1); ("p3", e3)] initialWorld)
  = [EvSave "p1"; EvSave "p3"]
  ∧ traceOf (SaveAllEntities (H:=Demo.engine) [("p1", e1); ("disk", e2); ("p3", e3)]
               initialWorld)
    = [EvSave "p1"; EvSave "disk"].
Proof.
  intros e1 e2 e3.
  destruct (SaveAllEntities_saves_each_once (H:=Demo.engine) [("p1", e1); ("p3", e3)]
              initialWorld) as (_ & _ & Hret & Hquiet).
  split.
  - apply Hret, Hquiet. intros kv Hkv.
    apply elem_of_cons in Hkv as [->|Hkv]; [reflexivity|].
    apply elem_of_cons in Hkv as [->|Hkv]; [reflexivity|].
    by apply elem_of_nil in Hkv.
  - vm_compute. reflexivity.
Defined.

(** ** Freeze and restore, further *)

(** X14.  [Freeze] makes no external call and always returns (it reports a
    missing or duplicate nil-space through its error result).  For a table
    in which every entity is stored under its own id, its result depends
    neither on the order in which the table and the directory are visited
    nor on the game id. *)
Theorem Freeze_order_independent `{Collaborators}
    (gameid gameid' : Z) (o1 o1' : list (EntityID * Entity))
    (o2 o2' : list (string * EntityIDSet)) (w : World) :
  o1 ≡ₚ map_to_list (entities (entityManager w)) →
  o1' ≡ₚ map_to_list (entities (entityManager w)) →
  o2 ≡ₚ map_to_list (registeredServices (entityManager w)) →
  o2' ≡ₚ map_to_list (registeredServices (entityManager w)) →
  wellKeyed (entityManager w) →
  Freeze gameid o1 o2 w = Freeze gameid' o1' o2' w
  ∧ returned (outcomeOf (Freeze gameid o1 o2 w)) = true
  ∧ traceOf (Freeze gameid o1 o2 w) = [].
Proof.
  intros H1 H1' H2 H2' Hwk. unfold Freeze.
  rewrite !Freeze_entities_spec.
  rewrite (nilSpacesIn_Permutation o1 _ H1), (nilSpacesIn_Permutation o1' _ H1').
  rewrite (freezeInfos_table _ _ Hwk H1), (freezeInfos_table _ _ Hwk H1').
  rewrite (Freeze_services_directory _ _ H2), (Freeze_services_directory _ _ H2').
  case_decide; [done|]. by case_bool_decide.
Qed.

Lemma Freeze_order_independent_witness :
  let w := Demo.worldOf_manager Demo.managerOne in
  let o := map_to_list (entities (entityManager w)) in
  let s := map_to_list (registeredServices (entityManager w)) in
  Freeze (H:=Demo.engine) 1 o s w = Freeze (H:=Demo.engine) 2 (reverse o) (reverse s) w.
Proof.
  intros w o s.
  apply (Freeze_order_independent (H:=Demo.engine) 1 2 o (reverse o) s (reverse s) w).
  - reflexivity.
  - apply reverse_Permutation.
  - reflexivity.
  - apply reverse_Permutation.
  - unfold w, Demo.worldOf_manager, Demo.managerOne. simpl.
    unfold onDeclareService. simpl.
    intros k e Hk. eapply put_wellKeyed; [|exact Hk].
    apply put_wellKeyed. apply newEntityManager_wellKeyed.
Defined.

Section RestoreMore.
Context `{Collaborators}.

Lemma filter_Permutation {A} (f : A → bool) (l l' : list A) :
  l ≡ₚ l' → List.filter f l ≡ₚ List.filter f l'.
Proof.
  induction 1 as [|x l l' _ IH|x y l|l1 l2 l3 _ IH1 _ IH2]; simpl.
  - done.
  - destruct (f x); by rewrite IH.
  - destruct (f x), (f y); try done. apply Permutation_swap.
  - by rewrite IH1.
Qed.

Lemma phaseCalls_Permutation p l l' : l ≡ₚ l' → phaseCalls p l ≡ₚ phaseCalls p l'.
Proof. intros Hl. unfold phaseCalls. by rewrite (filter_Permutation _ _ _ Hl). Qed.

(** With readable kinds every entry belongs to exactly one phase, so the
    three phases together are the whole list. *)
Lemma phaseCalls_partition l :
  kindsReadable l →
  phaseCalls NilSpacePhase l ++ phaseCalls OtherSpacesPhase l ++ phaseCalls NonSpacesPhase l
  ≡ₚ restoreCall <$> l.
Proof.
  induction l as [|entry l IH]; intros Hk; [done|].
  assert (kindsReadable l) as Hk'.
  { intros e He. apply Hk. by right. }
  specialize (IH Hk'). unfold phaseCalls in *. simpl.
  destruct (decide (Type_ entry.2 = SPACE_ENTITY_TYPE)) as [Hty|Hty].
  - destruct (Hk entry) as [kind Hkind]; [left|done|].
    rewrite Hkind. rewrite (bool_decide_eq_true_2 _ Hty).
    rewrite (bool_decide_eq_false_2 (Type_ entry.2 ≠ SPACE_ENTITY_TYPE))
      by (intros Hx; by apply Hx).
    simpl. destruct (decide (kind = 0)) as [->|Hne].
    + rewrite bool_decide_eq_true_2 by done.
      rewrite bool_decide_eq_false_2 by (intros Hx; by apply Hx).
      simpl. by rewrite IH.
    + rewrite bool_decide_eq_false_2 by (intros [= ?]; done).
      rewrite bool_decide_eq_true_2 by done.
      simpl. rewrite <- IH. by rewrite <- Permutation_middle.
  - rewrite (bool_decide_eq_false_2 _ Hty).
    rewrite (bool_decide_eq_true_2 (Type_ entry.2 ≠ SPACE_ENTITY_TYPE)) by done.
    simpl. rewrite <- IH.
    rewrite app_assoc. rewrite <- Permutation_middle. by rewrite <- app_assoc.
Qed.

(** A pass that returns has read the kind of every space entry it visited. *)
Lemma restoreEntities_returns_kinds order filter w :
  returned (outcomeOf (restoreEntities order filter w)) = true → kindsReadable order.
Proof.
  unfold restoreEntities. revert w. induction order as [|[eid info] order IH]; intros w Hret.
  - intros e He. by apply elem_of_nil in He.
  - cbn [forEach] in Hret. rewrite bind_outcome in Hret.
    destruct (outcomeOf (restoreEntity filter (eid, info) w)) as [[]|v] eqn:Hhead; [|done].
    intros e He Hty. apply elem_of_cons in He as [->|He].
    + simpl in *. unfold restoreEntity in Hhead. rewrite bind_outcome in Hhead.
      rewrite (bool_decide_eq_true_2 _ Hty) in Hhead.
      unfold liftOutcome at 1 in Hhead. unfold outcomeOf at 1 in Hhead. simpl in Hhead.
      fold (spaceKindOf info) in Hhead.
      destruct (spaceKindOf info) as [kind|v]; [eauto|done].
    + by eapply IH.
Qed.

Lemma kindsReadable_Permutation l l' : l ≡ₚ l' → kindsReadable l → kindsReadable l'.
Proof. intros Hl Hk e He. apply Hk. by rewrite Hl. Qed.

Lemma RestoreFreezedEntities_returns_body freeze o1 o2 o3 os w :
  outcomeOf (RestoreFreezedEntities freeze o1 o2 o3 os w) = Returns None →
  returned (outcomeOf (RestoreFreezedEntities_body freeze o1 o2 o3 os w)) = true.
Proof.
  rewrite RestoreFreezedEntities_outcome. by destruct (outcomeOf _) as [?|[?|?]].
Qed.

End RestoreMore.

(** X15.  A restore that returns nil, each pass having visited the entries
    of the snapshot, has called [createEntity] exactly once for every entity
    of the snapshot, with its type name, its id and cause Restore. *)
Theorem RestoreFreezedEntities_each_entity_once `{Collaborators}
    (freeze : FreezeData) (o1 o2 o3 : list (EntityID * entityFreezeData))
    (os : list (string * list EntityID)) (w : World) :
  o1 ≡ₚ map_to_list (Entities freeze) →
  o2 ≡ₚ map_to_list (Entities freeze) →
  o3 ≡ₚ map_to_list (Entities freeze) →
  outcomeOf (RestoreFreezedEntities (Some freeze) o1 o2 o3 os w) = Returns None →
  createCalls (traceOf (RestoreFreezedEntities (Some freeze) o1 o2 o3 os w))
  ≡ₚ restoreCall <$> map_to_list (Entities freeze).
Proof.
  intros H1 H2 H3 Hnil.
  pose proof (RestoreFreezedEntities_returns_body _ _ _ _ _ _ Hnil) as Hret.
  destruct (RestoreFreezedEntities_trace (Some freeze) o1 o2 o3 os w) as [-> _].
  destruct (RestoreFreezedEntities_body_calls freeze o1 o2 o3 os w) as [_ Hall].
  rewrite (Hall Hret).
  assert (kindsReadable (map_to_list (Entities freeze))) as Hk.
  { apply (kindsReadable_Permutation o1); [done|].
    unfold RestoreFreezedEntities_body in Hret. rewrite bind_outcome in Hret.
    destruct (outcomeOf (restoreEntities o1 filterNilSpace w)) eqn:Hp1; [|done].
    apply (restoreEntities_returns_kinds o1 filterNilSpace w). by rewrite Hp1. }
  rewrite (phaseCalls_Permutation _ _ _ H1), (phaseCalls_Permutation _ _ _ H2),
    (phaseCalls_Permutation _ _ _ H3).
  by apply phaseCalls_partition.
Qed.

Lemma RestoreFreezedEntities_each_entity_once_witness :
  let freeze := mkFreezeData (list_to_map Demo.snapshotNSP) ∅ in
  createCalls (traceOf (RestoreFreezedEntities (H:=Demo.engine) (Some freeze)
                          Demo.snapshotNSP Demo.snapshotNSP Demo.snapshotNSP []
                          Demo.worldNSP))
  ≡ₚ restoreCall <$> map_to_list (Entities freeze).
Proof.
  intros freeze.
  assert (Demo.snapshotNSP ≡ₚ map_to_list (Entities freeze)) as Hperm.
  { symmetry. apply map_to_list_to_map.
    apply (bool_decide_unpack _). vm_compute. reflexivity. }
  apply (RestoreFreezedEntities_each_entity_once (H:=Demo.engine) freeze
           Demo.snapshotNSP Demo.snapshotNSP Demo.snapshotNSP [] Demo.worldNSP
           Hperm Hperm Hperm).
  vm_compute. reflexivity.
Defined.

Section RestoreServices.
Context `{Collaborators}.

Lemma preserves_GenEntityID (I : World → Prop) :
  (∀ w, I w → I (mkWorld (registeredEntityTypes w) (entityManager w) (S (nextEntityID w)))) →
  preserves I GenEntityID.
Proof. intros HI w Hw. by apply HI. Qed.

Lemma preserves_liftOutcome {A} I (o : Outcome A) : preserves I (liftOutcome o).
Proof. by intros w. Qed.








End RestoreServices.






Section RestoreTable.
Context `{Collaborators}.




















End RestoreTable.







(** ** The table stays keyed by entity id *)

Section TableKeys.
Context `{Collaborators}.

Lemma wellKeyed_del id em : wellKeyed em → wellKeyed (del id em).
Proof.
  intros Hwk k e Hk. simpl in Hk. apply lookup_delete_Some in Hk as [_ Hk].
  by apply Hwk.
Qed.

Lemma wellKeyed_assignClient id c em : wellKeyed em → wellKeyed (assignClient id c em).
Proof.
  intros Hwk k e Hk. simpl in Hk.
  destruct (decide (k = id)) as [->|Hne].
  - rewrite lookup_alter_eq in Hk.
    destruct (entities em !! id) as [e0|] eqn:He0; [|done].
    simpl in Hk. injection Hk as <-. simpl. by apply Hwk.
  - rewrite lookup_alter_ne in Hk by done. by apply Hwk.
Qed.

Lemma wellKeyed_same_table f :
  (∀ em, entities (f em) = entities em) →
  preserves (λ w, wellKeyed (entityManager w)) (modifyManager f).
Proof.
  intros Hf. apply preserves_modifyManager. intros w Hw k e Hk.
  simpl in Hk. rewrite Hf in Hk. by apply Hw.
Qed.

Lemma wellKeyed_step f :
  (∀ em, wellKeyed em → wellKeyed (f em)) →
  preserves (λ w, wellKeyed (entityManager w)) (modifyManager f).
Proof. intros Hf. apply preserves_modifyManager. intros w Hw. by apply Hf. Qed.

Lemma wellKeyed_setClientField id c em : wellKeyed em → wellKeyed (setClientField id c em).
Proof.
  intros Hwk k e Hk. simpl in Hk.
  destruct (decide (k = id)) as [->|Hne].
  - rewrite lookup_alter_eq in Hk.
    destruct (entities em !! id) as [e0|] eqn:He0; [|done].
    simpl in Hk. injection Hk as <-. simpl. by apply Hwk.
  - rewrite lookup_alter_ne in Hk by done. by apply Hwk.
Qed.

Lemma wellKeyed_same em em' : entities em' = entities em → wellKeyed em → wellKeyed em'.
Proof. intros He Hwk k e Hk. rewrite He in Hk. by apply Hwk. Qed.

Lemma wellKeyed_releaseOwnClient id em : wellKeyed em → wellKeyed (releaseOwnClient id em).
Proof. apply wellKeyed_same. apply releaseOwnClient_entities. Qed.

Lemma wellKeyed_releaseClient cid em : wellKeyed em → wellKeyed (releaseClient cid em).
Proof.
  intros Hwk. unfold releaseClient. destruct (ownerOfClient em !! cid) as [prior|]; [|done].
  apply (wellKeyed_same (setClientField prior None em)); [done|].
  by apply wellKeyed_setClientField.
Qed.

(** Every write of user code to the manager keeps the table keyed by id. *)
Lemma wellKeyed_applyMutations ms em : wellKeyed em → wellKeyed (applyMutations ms em).
Proof.
  unfold applyMutations. revert em. induction ms as [|m ms IH]; intros em Hwk; [done|].
  simpl. apply IH. destruct m; simpl.
  - by apply put_wellKeyed.
  - by apply wellKeyed_del.
  - done.
  - done.
  - by apply wellKeyed_setClientField.
  - apply (wellKeyed_same em); [|done].
    unfold onDeclareService. by destruct (registeredServices em !! serviceName).
  - apply (wellKeyed_same em); [|done].
    unfold onUndeclareService. by destruct (registeredServices em !! serviceName).
Qed.

Lemma reactions_wellKeyed : reactionsKeep (λ w, wellKeyed (entityManager w)).
Proof.
  intros ev w Hw. unfold reacted. destruct (reenters ev); [|done].
  simpl. by apply wellKeyed_applyMutations.
Qed.

Ltac keyed_tac :=
  repeat first
    [ apply preserves_ret | apply preserves_emit | apply preserves_panic
    | apply preserves_call; apply reactions_wellKeyed
    | apply preserves_getWorld | apply preserves_getManager | apply preserves_gwlog_Panicf
    | apply preserves_RunPanicless
    | apply preserves_GenEntityID; by intros w
    | apply preserves_bind; [|intros ?]
    | apply wellKeyed_step; intros em; first
        [ apply put_wellKeyed | apply wellKeyed_assignClient | apply wellKeyed_setClientField
        | apply wellKeyed_releaseOwnClient | apply wellKeyed_releaseClient ]
    | by apply wellKeyed_same_table
    | match goal with
      | |- preserves _ (match ?x with _ => _ end) => destruct x
      end ].

Lemma onClientDisconnected_wellKeyed clientid :
  preserves (λ w, wellKeyed (entityManager w)) (onClientDisconnected clientid).
Proof. unfold onClientDisconnected, Entity_notifyClientDisconnected. keyed_tac. Qed.

Lemma onGateDisconnected_wellKeyed gateid_ order :
  preserves (λ w, wellKeyed (entityManager w)) (onGateDisconnected gateid_ order).
Proof.
  unfold onGateDisconnected, Entity_notifyClientDisconnected.
  apply preserves_forEach. intros [k e]. keyed_tac.
Qed.

Lemma createEntity_wellKeyed typeName space pos entityID data timerData client_ cause :
  preserves (λ w, wellKeyed (entityManager w))
    (createEntity typeName space pos entityID data timerData client_ cause).
Proof. unfold createEntity, Entity_SetClient. keyed_tac. Qed.

Lemma Entity_Destroy_wellKeyed slot e :
  preserves (λ w, wellKeyed (entityManager w)) (Entity_Destroy slot e).
Proof.
  unfold Entity_Destroy.
  apply preserves_bind; [apply preserves_call, reactions_wellKeyed|intros _].
  apply wellKeyed_step. intros em Hwk. apply wellKeyed_del.
  apply (wellKeyed_same (releaseOwnClient slot em)); [done|].
  by apply wellKeyed_releaseOwnClient.
Qed.

Lemma managerCall_wellKeyed c :
  preserves (λ w, wellKeyed (entityManager w)) (managerCall c).
Proof.
  destruct c; simpl.
  - apply wellKeyed_step. intros em. apply put_wellKeyed.
  - apply wellKeyed_step. intros em. apply wellKeyed_del.
  - by apply wellKeyed_same_table.
  - by apply wellKeyed_same_table.
  - apply onClientDisconnected_wellKeyed.
  - apply onGateDisconnected_wellKeyed.
  - apply preserves_bind; [apply createEntity_wellKeyed|intros _; apply preserves_ret].
  - apply preserves_bind; [apply preserves_getManager|intros em].
    destruct (entities em !! entityID); [apply Entity_Destroy_wellKeyed|apply preserves_ret].
Qed.

Lemma restoreEntities_wellKeyed order filter :
  preserves (λ w, wellKeyed (entityManager w)) (restoreEntities order filter).
Proof.
  unfold restoreEntities. apply preserves_forEach. intros [eid info].
  unfold restoreEntity.
  apply preserves_bind.
  { destruct (bool_decide _); [apply preserves_liftOutcome|apply preserves_ret]. }
  intros kind. destruct (filter _ kind); [|apply preserves_ret].
  apply preserves_bind; [apply preserves_getManager|intros em].
  apply preserves_bind; [apply createEntity_wellKeyed|intros _].
  apply preserves_bind; [apply preserves_emit|intros _].
  destruct (ESR info); [apply preserves_emit|apply preserves_ret].
Qed.

Lemma RestoreFreezedEntities_wellKeyed freeze o1 o2 o3 os :
  preserves (λ w, wellKeyed (entityManager w)) (RestoreFreezedEntities freeze o1 o2 o3 os).
Proof.
  assert (preserves (λ w, wellKeyed (entityManager w))
            (RestoreFreezedEntities_body freeze o1 o2 o3 os)) as Hbody.
  { unfold RestoreFreezedEntities_body.
    destruct freeze as [freeze|]; [|apply preserves_panic].
    repeat (apply preserves_bind; [apply restoreEntities_wellKeyed|intros _]).
    apply preserves_forEach. intros [n l]. by apply wellKeyed_same_table. }
  intros w Hw.
  destruct (RestoreFreezedEntities_trace freeze o1 o2 o3 os w) as [_ ->].
  by apply Hbody.
Qed.

End TableKeys.

(** X21.  The entity table stays keyed by entity id.  If every entity is
    stored under its own id, this is still so after any sequence of calls
    of the manager ([put], [del], the client bookkeeping, the disconnect
    fan-outs, [createEntity]) and after a restore, whether the calls return
    or panic half way.  So [get id] never returns an entity with another
    id, which is what [Freeze] relies on when it keys the snapshot by the
    entities' own ids. *)
Theorem table_keyed_by_id `{Collaborators}
    (calls : list ManagerCall) (freeze : option FreezeData)
    (o1 o2 o3 : list (EntityID * entityFreezeData))
    (os : list (string * list EntityID)) (w : World) :
  wellKeyed (entityManager w) →
  let w1 := afterManagerCalls calls w in
  let w2 := worldOf (RestoreFreezedEntities freeze o1 o2 o3 os w1) in
  wellKeyed (entityManager w1)
  ∧ wellKeyed (entityManager w2)
  ∧ ∀ id e, get id (entityManager w2) = Some e → ID e = id.
Proof.
  intros Hw w1 w2.
  assert (wellKeyed (entityManager w1)) as Hw1.
  { subst w1. clear w2. revert w Hw. unfold afterManagerCalls.
    induction calls as [|c calls IH]; intros w Hw; [done|].
    simpl. apply IH. by apply managerCall_wellKeyed. }
  assert (wellKeyed (entityManager w2)) as Hw2
    by (by apply RestoreFreezedEntities_wellKeyed).
  split_and!; [done|done|]. intros id e Hget. by apply Hw2.
Qed.

Lemma table_keyed_by_id_witness :
  let calls := [ CallCreateEntity "Player" None Position_zero "" None None
                   (Some (MakeGameClient "c1" 7)) ccCreate;
                 CallClientDisconnected "c1"; CallDel "zz" ] in
  let w1 := afterManagerCalls (H:=Demo.engine) calls Demo.worldNSP in
  wellKeyed (entityManager w1)
  ∧ get "a#" (entityManager w1) = Some (mkEntity "a#" "Player" None true).
Proof.
  intros calls w1.
  destruct (table_keyed_by_id (H:=Demo.engine) calls None [] [] [] [] Demo.worldNSP)
    as (Hw1 & _ & _).
  - apply newEntityManager_wellKeyed.
  - split; [exact Hw1|]. vm_compute. reflexivity.
Defined.
